(** * rename_invoices.py: field extraction and file naming for scanned invoices

    A shallow embedding of [src/rename_invoices.py].  Python strings are
    sequences of Unicode code points, so a text is a [list N]; Python
    integers are [Z]; positions and lengths are [nat].  The regular
    expressions of the program are written as syntax trees and run by a
    backtracking matcher with the strategy of Python's [re] module
    (leftmost match, greedy quantifiers, alternatives tried left to
    right). *)

From Stdlib Require Import NArith ZArith List String Ascii Bool Lia DecimalNat.
From stdpp Require Import base list gmap.

Local Open Scope N_scope.

(** ** Characters and texts *)

Definition char := N.
Definition text := list char.

Fixpoint str (s : string) : text :=
  match s with
  | EmptyString => []
  | String a t => N_of_ascii a :: str t
  end.
Arguments str s%_string.

(** ** Tables supplied by the interpreter and its libraries

    The program relies on data that lives outside the repository: the
    Unicode database behind [\d], [\s], [\w], [re.IGNORECASE],
    [str.upper] and friends, the transliteration table of [unidecode],
    and the C library's rendering of [%Y] for years below 1000.  Every
    table is fixed here on the ASCII range, where its content is part of
    the documented behaviour of Python; the non-ASCII part is a field of
    the record below and stays a parameter of the development. *)

Record tables := {
  (** decimal value of a non-ASCII code point of category Nd *)
  u_digit : char -> option Z;
  (** [str.isspace] on a non-ASCII code point *)
  u_space : char -> bool;
  (** [str.isalnum] on a non-ASCII code point *)
  u_alnum : char -> bool;
  (** the other code points a non-ASCII code point equals under
      [re.IGNORECASE] *)
  u_fold : char -> list char;
  (** [str.upper], [str.lower], and the title-casing of [str.capitalize]
      on one non-ASCII code point *)
  u_upper : char -> text;
  u_lower : char -> text;
  u_title : char -> text;
  (** [unidecode] on one non-ASCII code point *)
  u_unidecode : char -> text;
  (** [strftime("%Y")] for a year below 1000 (zero padded or not,
      depending on the C library) *)
  strftime_Y_small : Z -> text
}.

Definition is_ascii (c : char) : bool := c <? 128.

Definition ascii_digit (c : char) : bool := (48 <=? c) && (c <=? 57).
Definition ascii_upper_letter (c : char) : bool := (65 <=? c) && (c <=? 90).
Definition ascii_lower_letter (c : char) : bool := (97 <=? c) && (c <=? 122).
Definition ascii_alnum (c : char) : bool :=
  ascii_digit c || ascii_upper_letter c || ascii_lower_letter c.

(** ASCII white space of [str.isspace]: TAB, LF, VT, FF, CR, FS, GS, RS,
    US and the space. *)
Definition ascii_space (c : char) : bool :=
  ((9 <=? c) && (c <=? 13)) || ((28 <=? c) && (c <=? 32)).

Definition to_lower_ascii (c : char) : char :=
  if ascii_upper_letter c then c + 32 else c.
Definition to_upper_ascii (c : char) : char :=
  if ascii_lower_letter c then c - 32 else c.

Section Tables.
Context (U : tables).

Definition digit_value (c : char) : option Z :=
  if is_ascii c then
    if ascii_digit c then Some (Z.of_N c - 48)%Z else None
  else u_digit U c.

Definition is_digit (c : char) : bool :=
  match digit_value c with Some _ => true | None => false end.

Definition is_space (c : char) : bool :=
  if is_ascii c then ascii_space c else u_space U c.

(** [\w]: alphanumeric or underscore. *)
Definition is_word (c : char) : bool :=
  if is_ascii c then ascii_alnum c || (c =? 95) else u_alnum U c.

(** The code points tried for [c] under [re.IGNORECASE].  The patterns
    of the program hold no non-ASCII character that an ASCII character
    folds to, hence the ASCII line. *)
Definition case_variants (c : char) : list char :=
  if is_ascii c then [c; to_lower_ascii c; to_upper_ascii c]
  else c :: u_fold U c.

Definition upper_char (c : char) : text :=
  if is_ascii c then [to_upper_ascii c] else u_upper U c.
Definition lower_char (c : char) : text :=
  if is_ascii c then [to_lower_ascii c] else u_lower U c.
Definition title_char (c : char) : text :=
  if is_ascii c then [to_upper_ascii c] else u_title U c.

Definition upper (s : text) : text := flat_map upper_char s.
Definition lower (s : text) : text := flat_map lower_char s.

(** [str.capitalize]: first character title-cased, the rest lower-cased. *)
Definition capitalize (s : text) : text :=
  match s with
  | [] => []
  | c :: t => title_char c ++ lower t
  end.

(** [unidecode]: ASCII is kept, everything else is transliterated. *)
Definition unidecode (s : text) : text :=
  flat_map (fun c => if is_ascii c then [c] else u_unidecode U c) s.

(** ** Character sets and regular expressions *)

Inductive citem :=
| CLit (c : char)
| CRange (lo hi : char)
| CDigit
| CSpace
| CWord.

Inductive cset :=
| CSet (items : list citem)      (* [...]  *)
| CNot (items : list citem)      (* [^...] *)
| CAny.                          (* .      *)

(** [ic] is the [re.IGNORECASE] flag.  It widens literals and ranges to
    the case variants of the character; categories look at the character
    itself, and so does the dot.  A negated set is never used with the
    flag in this program. *)
Definition item_has (ic : bool) (i : citem) (c : char) : bool :=
  match i with
  | CLit x =>
      if ic then existsb (fun v => v =? x) (case_variants c) else c =? x
  | CRange lo hi =>
      if ic then existsb (fun v => (lo <=? v) && (v <=? hi)) (case_variants c)
      else (lo <=? c) && (c <=? hi)
  | CDigit => is_digit c
  | CSpace => is_space c
  | CWord => is_word c
  end.

Definition cs_match (ic : bool) (cs : cset) (c : char) : bool :=
  match cs with
  | CSet items => existsb (fun i => item_has ic i c) items
  | CNot items => negb (existsb (fun i => item_has ic i c) items)
  | CAny => negb (c =? 10)
  end.

Inductive regex :=
| Eps
| Atom (cs : cset)
| Seq (a b : regex)
| Alt (a b : regex)
| Rep (cs : cset) (lo : nat) (hi : option nat)   (* greedy x{lo,hi} on one set *)
| Opt (a : regex)                                (* greedy (...)? *)
| Group (n : nat) (a : regex)
| WordB                                          (* \b *)
| Bol.                                           (* ^  *)

(** ** The backtracking matcher *)

Record mstate := MState {
  st_prev : option char;         (* the character before the position *)
  st_off : nat;                  (* characters consumed since the match began *)
  st_rest : text;
  st_caps : list (nat * (nat * nat))
    (* the groups closed so far, most recent first: number, and the
       offsets where the group began and ended *)
}.

Definition word_before (prev : option char) : bool :=
  match prev with Some c => is_word c | None => false end.
Definition word_after (rest : text) : bool :=
  match rest with c :: _ => is_word c | [] => false end.

Definition at_boundary (prev : option char) (rest : text) : bool :=
  xorb (word_before prev) (word_after rest).

Definition more_allowed (hi : option nat) : bool :=
  match hi with Some O => false | _ => true end.

Fixpoint rep (ic : bool) (cs : cset) (lo : nat) (hi : option nat)
    (k : mstate -> option mstate)
    (prev : option char) (off : nat) (rest : text)
    (caps : list (nat * (nat * nat))) {struct rest} : option mstate :=
  let stop :=
    match lo with
    | O => k (MState prev off rest caps)
    | S _ => None
    end in
  match rest with
  | c :: t =>
      if more_allowed hi && cs_match ic cs c then
        match rep ic cs (Nat.pred lo) (option_map Nat.pred hi) k
                (Some c) (S off) t caps with
        | Some r => Some r
        | None => stop
        end
      else stop
  | [] => stop
  end.

(** The state after group [n], which began at offset [off0]. *)
Definition capture (n : nat) (off0 : nat) (st1 : mstate) : mstate :=
  MState (st_prev st1) (st_off st1) (st_rest st1)
    ((n, (off0, st_off st1)) :: st_caps st1).

(** [rmatch ic r k prev off rest caps] matches [r] at the state with
    these four components and hands the state it reaches to [k]; when
    [k] fails, the next way to match [r] is tried.  The start of the text
    is the only position with no character before it, which is how [^]
    is recognised. *)
Fixpoint rmatch (ic : bool) (r : regex) (k : mstate -> option mstate)
    (prev : option char) (off : nat) (rest : text)
    (caps : list (nat * (nat * nat))) {struct r} : option mstate :=
  match r with
  | Eps => k (MState prev off rest caps)
  | Atom cs =>
      match rest with
      | c :: t =>
          if cs_match ic cs c then k (MState (Some c) (S off) t caps) else None
      | [] => None
      end
  | Seq a b =>
      rmatch ic a
        (fun st => rmatch ic b k (st_prev st) (st_off st) (st_rest st) (st_caps st))
        prev off rest caps
  | Alt a b =>
      match rmatch ic a k prev off rest caps with
      | Some r => Some r
      | None => rmatch ic b k prev off rest caps
      end
  | Rep cs lo hi => rep ic cs lo hi k prev off rest caps
  | Opt a =>
      match rmatch ic a k prev off rest caps with
      | Some r => Some r
      | None => k (MState prev off rest caps)
      end
  | Group n a => rmatch ic a (fun st1 => k (capture n off st1)) prev off rest caps
  | WordB => if at_boundary prev rest then k (MState prev off rest caps) else None
  | Bol => match prev with None => k (MState prev off rest caps) | Some _ => None end
  end.

(** A match object: where it starts, the text it covers, and the spans
    of its groups inside that text. *)
Record match_obj := MatchObj {
  m_start : nat;
  m_text : text;
  m_spans : list (nat * (nat * nat))
}.

Fixpoint assoc (n : nat) (l : list (nat * (nat * nat))) : option (nat * nat) :=
  match l with
  | [] => None
  | (i, v) :: l' => if Nat.eqb i n then Some v else assoc n l'
  end.

(** [m.group(n)] for a group that took part in the match. *)
Definition group (mo : match_obj) (n : nat) : text :=
  match assoc n (m_spans mo) with
  | Some (b, e) => take (e - b) (drop b (m_text mo))
  | None => []
  end.

(** One attempt at position [pos], where [s] is the rest of the text and
    [prev] the character before it. *)
Definition match_at (ic : bool) (r : regex) (prev : option char) (pos : nat)
    (s : text) : option match_obj :=
  match rmatch ic r Some prev O s [] with
  | Some e => Some (MatchObj pos (take (st_off e) s) (st_caps e))
  | None => None
  end.

(** [re.search] from a position on: every start position up to and
    including the end of the text is tried. *)
Fixpoint search_from (ic : bool) (r : regex) (prev : option char) (pos : nat)
    (s : text) : option match_obj :=
  match match_at ic r prev pos s with
  | Some mo => Some mo
  | None =>
      match s with
      | [] => None
      | c :: t => search_from ic r (Some c) (S pos) t
      end
  end.

Definition re_search (ic : bool) (r : regex) (s : text) : option match_obj :=
  search_from ic r None O s.

(** [re.finditer]: the matches found scanning left to right, without
    overlap.  [skip] counts the characters still covered by the last
    match.  After an empty match the scan moves on by one character; no
    pattern that the program iterates can match the empty text. *)
Fixpoint scan_matches (ic : bool) (r : regex) (prev : option char) (pos : nat)
    (s : text) (skip : nat) {struct s} : list match_obj :=
  match skip with
  | S n =>
      match s with
      | [] => []
      | c :: t => scan_matches ic r (Some c) (S pos) t n
      end
  | O =>
      match match_at ic r prev pos s with
      | Some mo =>
          mo :: match s with
                | [] => []
                | c :: t =>
                    scan_matches ic r (Some c) (S pos) t
                      (Nat.pred (length (m_text mo)))
                end
      | None =>
          match s with
          | [] => []
          | c :: t => scan_matches ic r (Some c) (S pos) t O
          end
      end
  end.

Definition re_finditer (ic : bool) (r : regex) (s : text) : list match_obj :=
  scan_matches ic r None O s O.

(** [re.sub(r, repl, s)] with a constant replacement. *)
Fixpoint scan_sub (ic : bool) (r : regex) (repl : text) (prev : option char)
    (pos : nat) (s : text) (skip : nat) {struct s} : text :=
  match skip with
  | S n =>
      match s with
      | [] => []
      | c :: t => scan_sub ic r repl (Some c) (S pos) t n
      end
  | O =>
      match match_at ic r prev pos s with
      | Some mo =>
          repl ++ match s with
                  | [] => []
                  | c :: t =>
                      match length (m_text mo) with
                      | O => c :: scan_sub ic r repl (Some c) (S pos) t O
                      | S n => scan_sub ic r repl (Some c) (S pos) t n
                      end
                  end
      | None =>
          match s with
          | [] => []
          | c :: t => c :: scan_sub ic r repl (Some c) (S pos) t O
          end
      end
  end.

Definition re_sub (ic : bool) (r : regex) (repl : text) (s : text) : text :=
  scan_sub ic r repl None O s O.

(** ** String methods *)

Fixpoint lstrip_by (p : char -> bool) (s : text) : text :=
  match s with
  | [] => []
  | c :: t => if p c then lstrip_by p t else s
  end.

Definition rstrip_by (p : char -> bool) (s : text) : text :=
  rev (lstrip_by p (rev s)).

Definition strip_by (p : char -> bool) (s : text) : text :=
  rstrip_by p (lstrip_by p s).

(** [s.strip()] and [s.rstrip()] *)
Definition strip (s : text) : text := strip_by is_space s.
Definition rstrip (s : text) : text := rstrip_by is_space s.

(** [s.strip(chars)] *)
Definition char_in (chars : text) (c : char) : bool :=
  existsb (N.eqb c) chars.
Definition strip_chars (chars : text) (s : text) : text :=
  strip_by (char_in chars) s.

(** The line boundaries of [str.splitlines]. *)
Definition is_linebreak (c : char) : bool :=
  char_in [10; 11; 12; 13; 28; 29; 30; 133; 8232; 8233] c.

Fixpoint splitlines_acc (cur : text) (s : text) : list text :=
  match s with
  | [] => match cur with [] => [] | _ => [rev cur] end
  | c :: t =>
      if is_linebreak c then
        rev cur ::
          match t with
          | c' :: t' =>
              if (c =? 13) && (c' =? 10) then splitlines_acc [] t'
              else splitlines_acc [] t
          | [] => splitlines_acc [] t
          end
      else splitlines_acc (c :: cur) t
  end.

Definition splitlines (s : text) : list text := splitlines_acc [] s.

(** [s.split()]: the maximal runs of characters that are not white space. *)
Fixpoint split_acc (cur : text) (s : text) : list text :=
  match s with
  | [] => match cur with [] => [] | _ => [rev cur] end
  | c :: t =>
      if is_space c then
        match cur with
        | [] => split_acc [] t
        | _ => rev cur :: split_acc [] t
        end
      else split_acc (c :: cur) t
  end.

Definition split (s : text) : list text := split_acc [] s.

(** [sep.join(parts)] *)
Fixpoint join (sep : text) (parts : list text) : text :=
  match parts with
  | [] => []
  | [p] => p
  | p :: rest => p ++ sep ++ join sep rest
  end.

(** [s.replace(old, new)] for a one-character [old]. *)
Definition replace_char (old : char) (new : text) (s : text) : text :=
  flat_map (fun c => if c =? old then new else [c]) s.

End Tables.

(** ** Building patterns *)

Definition seq (rs : list regex) : regex := fold_right Seq Eps rs.

Definition lit_text (t : text) : regex := seq (map (fun c => Atom (CSet [CLit c])) t).
Definition lit (s : string) : regex := lit_text (str s).
Arguments lit s%_string.

Fixpoint alts (rs : list regex) : regex :=
  match rs with
  | [] => Eps
  | [r] => r
  | r :: rest => Alt r (alts rest)
  end.

Definition star (cs : cset) : regex := Rep cs 0 None.
Definition plus (cs : cset) : regex := Rep cs 1 None.
Definition opt1 (cs : cset) : regex := Rep cs 0 (Some 1%nat).
Definition chr (s : string) : char :=
  match str s with c :: _ => c | [] => 0 end.
Arguments chr s%_string.

Definition digit : cset := CSet [CDigit].
Definition space : cset := CSet [CSpace].
(** [[.\-/]] *)
Definition date_sep : cset :=
  Eval vm_compute in CSet [CLit (chr "."); CLit (chr "-"); CLit (chr "/")].
Definition dot : cset := Eval vm_compute in CSet [CLit (chr ".")].

(** ** The patterns of the program *)

(** [\b(\d{1,2})[.\-/](\d{1,2})[.\-/](\d{2,4})\b] *)
Definition DATE_DMY : regex :=
  seq [WordB; Group 1 (Rep digit 1 (Some 2%nat)); Atom date_sep;
       Group 2 (Rep digit 1 (Some 2%nat)); Atom date_sep;
       Group 3 (Rep digit 2 (Some 4%nat)); WordB].
(** [\b(\d{4})[.\-/](\d{1,2})[.\-/](\d{1,2})\b] *)
Definition DATE_YMD : regex :=
  seq [WordB; Group 1 (Rep digit 4 (Some 4%nat)); Atom date_sep;
       Group 2 (Rep digit 1 (Some 2%nat)); Atom date_sep;
       Group 3 (Rep digit 1 (Some 2%nat)); WordB].
(** [\b(\d{1,2})\s*\.\s*(\d{1,2})\s*\.\s*(\d{2,4})\b] *)
Definition DATE_DMY_SPACED : regex :=
  seq [WordB; Group 1 (Rep digit 1 (Some 2%nat)); star space; Atom dot; star space;
       Group 2 (Rep digit 1 (Some 2%nat)); star space; Atom dot; star space;
       Group 3 (Rep digit 2 (Some 4%nat)); WordB].

Definition DATE_REGEXES : list regex := [DATE_DMY; DATE_YMD; DATE_DMY_SPACED].

(** ** Dates *)

Local Open Scope Z_scope.

Definition is_leap (y : Z) : bool :=
  (y mod 4 =? 0) && (negb (y mod 100 =? 0) || (y mod 400 =? 0)).

Definition days_in_month (y m : Z) : Z :=
  if m =? 2 then (if is_leap y then 29 else 28)
  else if (m =? 4) || (m =? 6) || (m =? 9) || (m =? 11) then 30
  else 31.

(** The check of the [datetime] constructor: years 1 to 9999, a month of
    the year, a day of that month. *)
Definition valid_ymd (y m d : Z) : bool :=
  (1 <=? y) && (y <=? 9999) && (1 <=? m) && (m <=? 12) &&
  (1 <=? d) && (d <=? days_in_month y m).

(** A [datetime] value (its date part): it exists only for a triple that
    passed the check. *)
Record datetime := DateTime {
  dt_year : Z;
  dt_month : Z;
  dt_day : Z;
  dt_valid : valid_ymd dt_year dt_month dt_day = true
}.

(** [datetime(y, m, d)]; [None] stands for the [ValueError]. *)
Definition datetime_new (y m d : Z) : option datetime :=
  match decide (valid_ymd y m d = true) with
  | left H => Some (DateTime y m d H)
  | right _ => None
  end.

Definition digit_char (v : Z) : char := Z.to_N (48 + v mod 10).

Definition two_digits (v : Z) : text := [digit_char (v / 10); digit_char v].
Definition four_digits (v : Z) : text :=
  [digit_char (v / 1000); digit_char (v / 100); digit_char (v / 10); digit_char v].

Section Dates.
Context (U : tables).

(** [int(x)] on a text of decimal digits.  The groups it is applied to
    are matched by [\d], so every character has a value. *)
Definition int_of_text (x : text) : Z :=
  fold_left (fun acc c =>
               10 * acc + match digit_value U c with Some v => v | None => 0 end)
            x 0.

Definition fmt_year (y : Z) : text :=
  if 1000 <=? y then four_digits y else strftime_Y_small U y.

(** [strftime("%Y-%m-%d")] of the date with these fields. *)
Definition isoformat (y m d : Z) : text :=
  fmt_year y ++ str "-" ++ two_digits m ++ str "-" ++ two_digits d.

Definition strftime (dt : datetime) : text :=
  isoformat (dt_year dt) (dt_month dt) (dt_day dt).

(** Lines 42 to 53: the order of the three groups, decided by their
    widths. *)
Definition order_groups (g1 g2 g3 : text) : Z * Z * Z :=
  let a := int_of_text g1 in
  let b := int_of_text g2 in
  let c := int_of_text g3 in
  if Nat.eqb (length g1) 4 then (a, b, c)
  else if Nat.eqb (length g3) 4 then (c, b, a)
  else ((if c <? 100 then 2000 + c else c), b, a).

(** Lines 54 to 57: build the date, [None] when the constructor raises. *)
Definition date_of_match (mo : match_obj) : option text :=
  let '(y, mn, d) := order_groups (group mo 1) (group mo 2) (group mo 3) in
  option_map strftime (datetime_new y mn d).

(** Lines 39 to 57: the loop over [DATE_REGEXES]. *)
Fixpoint numeric_date (rs : list regex) (s : text) : option text :=
  match rs with
  | [] => None
  | rgx :: rest =>
      match re_search U true rgx s with
      | Some mo =>
          match date_of_match mo with
          | Some r => Some r
          | None => numeric_date rest s
          end
      | None => numeric_date rest s
      end
  end.

(** [dparser.parse(s, dayfirst=True, fuzzy=True)] belongs to the
    [dateutil] library.  It fills the fields the text does not give from
    a default, which is today's date, so the model gives it the current
    date besides the text; [None] stands for any exception it raises. *)
Context (dparser_parse : datetime -> text -> option datetime).
Context (today : datetime).

Definition fallback_date (s : text) : option text :=
  option_map strftime (dparser_parse today s).

Definition normalize_date (any_date_text : text) : option text :=
  let s := strip U any_date_text in
  match numeric_date DATE_REGEXES s with
  | Some r => Some r
  | None => fallback_date s
  end.

End Dates.

(** Tables that know nothing beyond ASCII: no further digits, spaces or
    letters, no case folding, transliteration to nothing; small years
    without padding, as the GNU C library prints them. *)
Definition unpadded_year (y : Z) : text :=
  if (100 <=? y)%Z then [digit_char (y / 100); digit_char (y / 10); digit_char y]
  else if (10 <=? y)%Z then [digit_char (y / 10); digit_char y]
  else [digit_char y].

Definition ascii_only : tables := {|
  u_digit := fun _ => None;
  u_space := fun _ => false;
  u_alnum := fun _ => false;
  u_fold := fun _ => [];
  u_upper := fun c => [c];
  u_lower := fun c => [c];
  u_title := fun c => [c];
  u_unidecode := fun _ => [];
  strftime_Y_small := unpadded_year
|}.

Local Close Scope Z_scope.

(** ** Hint words and field patterns *)

(** [[A-Z0-9/\-]] *)
Definition invno_chars : list citem :=
  [CRange (chr "A") (chr "Z"); CRange (chr "0") (chr "9"); CLit (chr "/"); CLit (chr "-")].
(** [[:\s]] *)
Definition colon_space : cset := CSet [CLit (chr ":"); CSpace].

Definition DATE_HINT_WORDS : list regex := [
  (* datum\s*vystav(e|ě)ní *)
  seq [lit "datum"; star space; lit "vystav";
       Group 1 (Alt (lit "e") (lit_text [283])); lit "n"; lit_text [237]];
  lit "vystaveno";
  (* date\s*of\s*issue *)
  seq [lit "date"; star space; lit "of"; star space; lit "issue"];
  (* issue\s*date *)
  seq [lit "issue"; star space; lit "date"];
  lit "datum";
  lit "date"
].

Definition SUPPLIER_HINT_WORDS : list regex :=
  [lit "dodavatel"; lit "supplier"; lit "vystavitel"].

Definition COMPANY_MARKERS : list regex := [
  lit "s.r.o."; lit "a.s."; lit "sro"; lit "as"; lit "se"; lit "gmbh"; lit "kg";
  lit "spol."; lit "inc.";
  (* ltd\.? *)
  seq [lit "ltd"; opt1 dot]
].

Definition INVOICE_NO_REGEXES : list regex := [
  (* (?:číslo|cislo)\s*faktury[:\s]*([A-Z0-9/\-]+) *)
  seq [Alt (lit_text (269 :: 237 :: str "slo")) (lit "cislo"); star space;
       lit "faktury"; star colon_space; Group 1 (plus (CSet invno_chars))];
  (* faktura\s*(?:č\.|#)?[:\s]*([A-Z0-9/\-]+) *)
  seq [lit "faktura"; star space;
       Opt (Alt (lit_text (269 :: str ".")) (lit "#"));
       star colon_space; Group 1 (plus (CSet invno_chars))];
  (* invoice\s*(?:no\.|number|#)?[:\s]*([A-Z0-9/\-]+) *)
  seq [lit "invoice"; star space;
       Opt (alts [lit "no."; lit "number"; lit "#"]);
       star colon_space; Group 1 (plus (CSet invno_chars))];
  (* \b(?:inv|var|vs)\s*[:#]?\s*([A-Z0-9/\-]{3,}) *)
  seq [WordB; alts [lit "inv"; lit "var"; lit "vs"]; star space;
       opt1 (CSet [CLit (chr ":"); CLit (chr "#")]); star space;
       Group 1 (Rep (CSet invno_chars) 3 None)]
].

Definition upper_AZ : cset := CSet [CRange (chr "A") (chr "Z")].
Definition dash_slash : cset := CSet [CLit (chr "-"); CLit (chr "/")].
Definition digit_09 : cset := CSet [CRange (chr "0") (chr "9")].
Definition alnum_AZ09 : cset := CSet [CRange (chr "A") (chr "Z"); CRange (chr "0") (chr "9")].

(** [\b([A-Z]{1,4}[-/]?\d{2,4}[-/]\d{2,6}|[0-9]{3,}/[0-9]{2,4}|[A-Z0-9]{5,})\b] *)
Definition INVOICE_NO_LOOSE : regex :=
  seq [WordB;
       Group 1 (alts [
         seq [Rep upper_AZ 1 (Some 4%nat); opt1 dash_slash;
              Rep digit 2 (Some 4%nat); Atom dash_slash; Rep digit 2 (Some 6%nat)];
         seq [Rep digit_09 3 None; Atom (CSet [CLit (chr "/")]);
              Rep digit_09 2 (Some 4%nat)];
         Rep alnum_AZ09 5 None]);
       WordB].

(** [[^A-Z0-9/\-]] *)
Definition NOT_INVNO_CHAR : regex := Atom (CNot invno_chars).

(** [[A-Za-z0-9ÁÉÍÓÚÝČĎĚŇŘŠŤŮŽáéíóúýčďěňřšťůž]] without the digits: the
    letters of the set. *)
Definition czech_letters : list citem :=
  map CLit [193; 201; 205; 211; 218; 221; 268; 270; 282; 327; 344; 352; 356; 366; 381;
            225; 233; 237; 243; 250; 253; 269; 271; 283; 328; 345; 353; 357; 367; 382]%N.
Definition letters : list citem :=
  CRange (chr "A") (chr "Z") :: CRange (chr "a") (chr "z") :: czech_letters.
Definition letters_digits : list citem :=
  CRange (chr "A") (chr "Z") :: CRange (chr "a") (chr "z") ::
  CRange (chr "0") (chr "9") :: czech_letters.

(** [^[^A-Za-z0-9Á...ž]+] *)
Definition LEADING_JUNK : regex := seq [Bol; plus (CNot letters_digits)].
(** [\S+@\S+] *)
Definition EMAIL : regex :=
  seq [plus (CNot [CSpace]); Atom (CSet [CLit (chr "@")]); plus (CNot [CSpace])].
(** [\+?\d[\d\s\-]{6,}] *)
Definition PHONE : regex :=
  seq [opt1 (CSet [CLit (chr "+")]); Atom digit;
       Rep (CSet [CDigit; CSpace; CLit (chr "-")]) 6 None].
(** [\b(ulice|street|ul\.|č\.p\.|psc|zip|budova|building)\b.*] *)
Definition ADDRESS : regex :=
  seq [WordB;
       Group 1 (alts [lit "ulice"; lit "street"; lit "ul."; lit_text (269 :: str ".p.");
                      lit "psc"; lit "zip"; lit "budova"; lit "building"]);
       WordB; star CAny].
(** [\s{2,}] *)
Definition SPACES : regex := Rep space 2 None.
(** [[A-Za-zÁ...ž]] *)
Definition LETTER : regex := Atom (CSet letters).
(** [\b([a-z0-9\-]+)\.(cz|sk|com|eu|de)\b] *)
Definition DOMAIN : regex :=
  seq [WordB;
       Group 1 (plus (CSet [CRange (chr "a") (chr "z"); CRange (chr "0") (chr "9");
                            CLit (chr "-")]));
       Atom dot;
       Group 2 (alts [lit "cz"; lit "sk"; lit "com"; lit "eu"; lit "de"]);
       WordB].
(** The set of line 189: colon, star, question mark, double quote, angle
    brackets and bar. *)
Definition RESERVED : regex :=
  Atom (CSet (map CLit [58; 42; 63; 34; 60; 62; 124]%N)).

(** ** Field extraction *)

(** Python truth of an optional text: [None] and the empty text are false. *)
Definition truthy (o : option text) : bool :=
  match o with
  | Some (_ :: _) => true
  | _ => false
  end.

(** [x or default] *)
Definition or_else (o : option text) (default : text) : text :=
  match o with
  | Some (c :: t) => c :: t
  | _ => default
  end.

(** The first result of [f] over [l] that is true for Python. *)
Fixpoint first_truthy {A : Type} (f : A -> option text) (l : list A) : option text :=
  match l with
  | [] => None
  | x :: rest => if truthy (f x) then f x else first_truthy f rest
  end.

Section Extraction.
Context (U : tables).
Context (dparser_parse : datetime -> text -> option datetime).
Context (today : datetime).

(** [[l.strip() for l in text.splitlines() if l.strip()]] *)
Definition stripped_lines (t : text) : list text :=
  map (strip U) (filter (fun l => negb (Nat.eqb (length (strip U l)) 0)) (splitlines t)).

(** Lines 102 to 109: the index of the line that holds offset [pos] of
    the joined lines; 0 when the loop ends without a break. *)
Fixpoint line_index (lines : list text) (pos acc i : nat) : nat :=
  match lines with
  | [] => O
  | l :: rest =>
      let acc' := (acc + (length l + 1))%nat in
      if (pos <? acc')%nat then i else line_index rest pos acc' (S i)
  end.

(** Lines 111 to 113: the lines [idx+1 .. min(idx+4, len)-1] of length
    at least 3. *)
Definition candidates_after (lines : list text) (idx : nat) : list text :=
  flat_map
    (fun j =>
       let l := nth j lines [] in
       if negb (Nat.eqb j idx) && (3 <=? length l)%nat then [l] else [])
    (List.seq idx (Nat.min (idx + 4) (length lines) - idx)).

(** The generator, as the list of the lines it yields. *)
Definition find_first_by_hints (t : text) (hint_words : list regex) : list text :=
  let lines := stripped_lines t in
  let joined := join [10%N] lines in
  flat_map
    (fun hw =>
       match re_search U true hw joined with
       | Some mo => candidates_after lines (line_index lines (m_start mo) O O)
       | None => []
       end)
    hint_words.

Definition extract_date (t : text) : option text :=
  let norm := normalize_date U dparser_parse today in
  match first_truthy norm (find_first_by_hints t DATE_HINT_WORDS) with
  | Some dt => Some dt
  | None =>
      match first_truthy (fun mo => norm (m_text mo))
              (flat_map (fun rgx => re_finditer U true rgx t) DATE_REGEXES) with
      | Some dt => Some dt
      | None => norm t
      end
  end.

(** Lines 134 to 135 *)
Definition clean_invoice_no (g : text) : text :=
  re_sub U false NOT_INVNO_CHAR [] (upper U (strip U g)).

Fixpoint labelled_invoice_no (rs : list regex) (t : text) : option text :=
  match rs with
  | [] => None
  | rgx :: rest =>
      match re_search U true rgx t with
      | Some mo =>
          let raw := clean_invoice_no (group mo 1) in
          if (3 <=? length raw)%nat then Some raw else labelled_invoice_no rest t
      | None => labelled_invoice_no rest t
      end
  end.

Definition extract_invoice_no (t : text) : option text :=
  match labelled_invoice_no INVOICE_NO_REGEXES t with
  | Some raw => Some raw
  | None =>
      match re_search U true INVOICE_NO_LOOSE t with
      | Some mo => Some (upper U (group mo 1))
      | None => None
      end
  end.

Definition clean_company_name (s : text) : text :=
  let s := strip U s in
  let s := re_sub U false LEADING_JUNK [] s in
  let s := re_sub U false EMAIL [] s in
  let s := re_sub U false PHONE [] s in
  let s := re_sub U true ADDRESS [] s in
  let s := re_sub U false SPACES (str " ") s in
  let s := strip_chars (str " .,-") s in
  if (60 <? length s)%nat then rstrip U (take 60 s) else s.

Definition looks_like_company (line : text) : bool :=
  if existsb (fun mk => match re_search U true mk line with
                        | Some _ => true | None => false end) COMPANY_MARKERS
  then true
  else if (8 <? length (re_finditer U false LETTER line))%nat
          && (2 <=? length (split U line))%nat
  then true
  else false.

(** The first element of [l] whose cleaned name has at least 3 characters. *)
Fixpoint first_clean (l : list text) : option text :=
  match l with
  | [] => None
  | x :: rest =>
      let cand := clean_company_name x in
      if (3 <=? length cand)%nat then Some cand else first_clean rest
  end.

Definition extract_supplier (t : text) : option text :=
  match first_clean (find_first_by_hints t SUPPLIER_HINT_WORDS) with
  | Some cand => Some cand
  | None =>
      match first_clean (filter looks_like_company (take 12 (stripped_lines t))) with
      | Some cand => Some cand
      | None =>
          match re_search U true DOMAIN t with
          | Some mo => Some (capitalize U (group mo 1))
          | None => None
          end
      end
  end.

(** ** File names *)

Definition sanitize_filename (s : text) : text :=
  let s := replace_char (chr "/") (str "-") s in
  let s := replace_char 92 (str "-") s in
  let s := re_sub U false RESERVED (str "-") s in
  strip U (re_sub U false SPACES (str " ") s).

Definition NO_DATE : text := str "0000-00-00".
Definition NO_SUPPLIER : text := str "Neznamy-dodavatel".
Definition NO_INVOICE_NO : text := str "Bez-cisla".

Definition build_new_name (date_str supplier invno : option text) : text :=
  let parts := [or_else date_str NO_DATE; or_else supplier NO_SUPPLIER;
                or_else invno NO_INVOICE_NO] in
  let name := join (str " ") parts ++ str ".pdf" in
  sanitize_filename (unidecode U name).

End Extraction.

(** ** Collision resolution (lines 252 to 256) *)

Fixpoint text_of_uint (d : Decimal.uint) : text :=
  match d with
  | Decimal.Nil => []
  | Decimal.D0 d' => 48 :: text_of_uint d'
  | Decimal.D1 d' => 49 :: text_of_uint d'
  | Decimal.D2 d' => 50 :: text_of_uint d'
  | Decimal.D3 d' => 51 :: text_of_uint d'
  | Decimal.D4 d' => 52 :: text_of_uint d'
  | Decimal.D5 d' => 53 :: text_of_uint d'
  | Decimal.D6 d' => 54 :: text_of_uint d'
  | Decimal.D7 d' => 55 :: text_of_uint d'
  | Decimal.D8 d' => 56 :: text_of_uint d'
  | Decimal.D9 d' => 57 :: text_of_uint d'
  end.

(** [str(i)] for a natural number *)
Definition str_of_nat (i : nat) : text := text_of_uint (Nat.to_uint i).

Fixpoint rfind_acc (p : char -> bool) (s : text) (i : nat) (last : Z) : Z :=
  match s with
  | [] => last
  | c :: t => rfind_acc p t (S i) (if p c then Z.of_nat i else last)
  end.

(** [s.rfind(c)]: the last index of [c], or -1 *)
Definition rfind (c : char) (s : text) : Z := rfind_acc (N.eqb c) s O (-1)%Z.

Section Resolver.
(** [os.sep] and [os.altsep] of the platform *)
Context (os_sep : char) (os_altsep : option char).

(** [os.path.splitext]: split at the last dot of the last path
    component, unless that component consists of leading dots up to it. *)
Definition splitext (p : text) : text * text :=
  let sepIndex :=
    Z.max (rfind os_sep p)
          (match os_altsep with Some a => rfind a p | None => (-1)%Z end) in
  let dotIndex := rfind (chr ".") p in
  if (sepIndex <? dotIndex)%Z
     && existsb (fun c => negb (c =? chr "."))
          (take (Z.to_nat (dotIndex - (sepIndex + 1)))
                (drop (Z.to_nat (sepIndex + 1)) p))
  then (take (Z.to_nat dotIndex) p, drop (Z.to_nat dotIndex) p)
  else (p, []).

(** The name tried with disambiguator [i]. *)
Definition variant (base ext : text) (i : nat) : text :=
  base ++ str " (" ++ str_of_nat i ++ str ")" ++ ext.

(** The [while] loop; [existing] is the set of paths for which
    [os.path.exists] answers true.  [None] when the fuel runs out. *)
Fixpoint resolve_loop (fuel : nat) (existing : gset text) (base ext : text)
    (dst : text) (i : nat) : option text :=
  match fuel with
  | O => None
  | S fuel' =>
      if bool_decide (dst ∈ existing)
      then resolve_loop fuel' existing base ext (variant base ext i) (S i)
      else Some dst
  end.

Definition resolve_collision (existing : gset text) (dst : text) : option text :=
  let '(base, ext) := splitext dst in
  resolve_loop (S (size existing)) existing base ext dst 2.

End Resolver.

(** ** The batch (lines 203 to 237) *)

Inductive result (A : Type) :=
| Ok (a : A)
| Raise (msg : text).
Arguments Ok {A} a.
Arguments Raise {A} msg.

#[global] Instance result_bind : MBind result :=
  fun A B f r =>
    match r with
    | Ok a => f a
    | Raise msg => Raise msg
    end.

Record row := Row {
  original_file : text;
  row_date : option text;
  row_supplier : option text;
  row_invoice_no : option text;
  proposed_name : text;
  status : text
}.

Definition STATUS_OK : text := str "OK".
Definition STATUS_NO_PAGE : text := str "NO_PAGE".
Definition status_error (msg : text) : text := str "ERROR:" ++ msg.

Fixpoint text_eqb (a b : text) : bool :=
  match a, b with
  | [], [] => true
  | x :: a', y :: b' => (x =? y) && text_eqb a' b'
  | _, _ => false
  end.

(** Rendering, image clean-up and OCR are done by libraries; a call may
    raise, except [ocr_image], which catches and answers the empty text. *)
Record collaborators := {
  image : Type;
  render_first_page_as_image : text -> result (option image);
  preprocess : image -> result image;
  ocr_image : image -> text;
  os_path_join : text -> text -> text
}.

Section Batch.
Context (U : tables).
Context (dparser_parse : datetime -> text -> option datetime).
Context (today : datetime).
Context (E : collaborators).

Definition process_pdf (path : text)
  : result (option text * option text * option text * text) :=
  img ← render_first_page_as_image E path;
  match img with
  | None => Ok (None, None, None, STATUS_NO_PAGE)
  | Some img =>
      pre ← preprocess E img;
      let t := ocr_image E pre in
      let t := if Nat.eqb (length (strip U t)) 0 then ocr_image E img else t in
      let date := or_else (extract_date U dparser_parse today t) [] in
      let inv := or_else (extract_invoice_no U t) [] in
      let sup := or_else (extract_supplier U t) [] in
      Ok (Some date, Some sup, Some inv, STATUS_OK)
  end.

(** The body of the [for] loop: the row appended for file [f]. *)
Definition row_for (in_dir f : text) : row :=
  match process_pdf (os_path_join E in_dir f) with
  | Ok (date, sup, inv, st) =>
      let new_name := if text_eqb st STATUS_OK then build_new_name U date sup inv else [] in
      Row f date sup inv new_name st
  | Raise e => Row f (Some []) (Some []) (Some []) [] (status_error e)
  end.

Fixpoint main_loop (in_dir : text) (pdfs : list text) (rows : list row) : list row :=
  match pdfs with
  | [] => rows
  | f :: rest => main_loop in_dir rest (rows ++ [row_for in_dir f])
  end.

(** Line 228: the files of the directory listing whose lower-cased name
    ends with [.pdf]. *)
Definition endswith (s suffix : text) : bool :=
  text_eqb (drop (length s - length suffix) s) suffix.

Definition pdf_files (listing : list text) : list text :=
  filter (fun f => endswith (lower U f) (str ".pdf")) listing.

Definition batch_rows (in_dir : text) (listing : list text) : list row :=
  main_loop in_dir (pdf_files listing) [].

End Batch.

(** ** Renaming (lines 246 to 260) *)

Section Renaming.
(** [os.sep] and [os.altsep] of the platform *)
Context (os_sep : char) (os_altsep : option char).
Context (E : collaborators).
(** What a path leads to; the program never looks inside.  The directory
    tree is the finite map from the paths that exist to what they lead
    to. *)
Context {file : Type}.
(** Whether the operating system lets [os.replace] move one path to
    another in a given tree; it may refuse for reasons the program does
    not see. *)
Context (permitted : gmap text file -> text -> text -> bool).

(** Line 248: the rows that the loop acts on have status [OK] and a
    proposed name that is not empty. *)
Definition to_rename (r : row) : bool :=
  text_eqb (status r) STATUS_OK && negb (Nat.eqb (length (proposed_name r)) 0).

(** [os.replace(src, dst)]; [None] stands for the [OSError]. *)
Definition os_replace (fs : gmap text file) (src dst : text)
  : option (gmap text file) :=
  match fs !! src with
  | Some f => if permitted fs src dst then Some (<[dst := f]> (delete src fs)) else None
  | None => None
  end.

(** One turn of the loop of line 247: the tree and the files warned
    about so far, before and after the row.  [None] only when the
    [while] loop runs out of fuel. *)
Definition rename_row (in_dir : text) (st : gmap text file * list text) (r : row)
  : option (gmap text file * list text) :=
  if to_rename r then
    let src := os_path_join E in_dir (original_file r) in
    let dst := os_path_join E in_dir (proposed_name r) in
    match resolve_collision os_sep os_altsep (dom (fst st)) dst with
    | Some dst' =>
        match os_replace (fst st) src dst' with
        | Some fs' => Some (fs', snd st)
        | None => Some (fst st, snd st ++ [original_file r])
        end
    | None => None
    end
  else Some st.

Fixpoint rename_rows (in_dir : text) (rows : list row)
    (st : gmap text file * list text) : option (gmap text file * list text) :=
  match rows with
  | [] => Some st
  | r :: rest =>
      match rename_row in_dir st r with
      | Some st' => rename_rows in_dir rest st'
      | None => None
      end
  end.

End Renaming.

(** ** Vocabulary of the properties *)

(** The characters that file systems reserve: slash, backslash, colon,
    star, question mark, double quote, angle brackets, bar. *)
Definition FS_RESERVED : text := [47; 92; 58; 42; 63; 34; 60; 62; 124]%N.

(** The character before the position that follows [pre], when [prev]
    is the character before [pre]. *)
Definition prev_after (prev : option char) (pre : text) : option char :=
  match last pre with
  | Some c => Some c
  | None => prev
  end.

(** [run] stands in [t] as a maximal run of ASCII letters and digits:
    the characters next to it, if any, are not ASCII letters or digits. *)
Definition maximal_alnum_run (t run : text) : Prop :=
  exists pre post,
    t = pre ++ run ++ post /\
    Forall (fun c => ascii_alnum c = true) run /\
    match last pre with Some c => ascii_alnum c = false | None => True end /\
    match head post with Some c => ascii_alnum c = false | None => True end.

(** [run] stands in [t] between word boundaries: the characters next to
    it, if any, are not word characters. *)
Definition word_delimited_run (U : tables) (t run : text) : Prop :=
  exists pre post,
    t = pre ++ run ++ post /\
    Forall (fun c => ascii_alnum c = true) run /\
    word_before U (last pre) = false /\
    word_after U post = false.

(** A text that renders a calendar date as the data model describes it:
    ten characters, year from [min_year] on, a real date. *)
Definition calendar_date_text (U : tables) (min_year : Z) (r : text) : Prop :=
  exists y m d : Z,
    r = isoformat U y m d /\ length r = 10%nat /\
    (min_year <= y)%Z /\ (1 <= m <= 12)%Z /\ (1 <= d <= 31)%Z /\
    valid_ymd y m d = true.

(** ** Two behaviours of dateutil

    The theorems below hold for every fallback parser.  To exhibit what
    the fallback can do, this is the behaviour of
    [dateutil.parser.parse(s, dayfirst=True, fuzzy=True)] on two shapes of
    input, after the library's [_parse_numeric_token], [resolve_ymd] and
    [_build_naive]; on every other input this fragment says nothing and
    answers [None].
    - One number of at most two digits, at most 31: it is the day; month
      and year come from the default, that is from today.
    - Three numbers [a.b.c] with [c] of four digits and [a <= 31]: [c] is
      the year; [a] is the day and [b] the month if [a > 12] or
      [b <= 12], otherwise [a] is the month and [b] the day.
    The date is then built by [default.replace], whose [ValueError] the
    library turns into a [ParserError]. *)

Fixpoint split_on (sep : char) (cur : text) (s : text) : list text :=
  match s with
  | [] => [rev cur]
  | c :: t => if c =? sep then rev cur :: split_on sep [] t
              else split_on sep (c :: cur) t
  end.

Definition number_text (s : text) : bool :=
  forallb ascii_digit s && (1 <=? length s)%nat.

Definition dateutil_fragment (default : datetime) (s : text) : option datetime :=
  let int := int_of_text ascii_only in
  match split_on (chr ".") [] s with
  | [a] =>
      if number_text a && (length a <=? 2)%nat && (int a <=? 31)%Z
      then datetime_new (dt_year default) (dt_month default) (int a)
      else None
  | [a; b; c] =>
      if number_text a && number_text b && number_text c
         && (length a <=? 2)%nat && (length b <=? 2)%nat && Nat.eqb (length c) 4
         && (int a <=? 31)%Z
      then if (12 <? int a)%Z || (int b <=? 12)%Z
           then datetime_new (int c) (int b) (int a)
           else datetime_new (int c) (int a) (int b)
      else None
  | _ => None
  end.

Definition day_2026_11_03 : datetime := DateTime 2026 11 3 eq_refl.
Definition day_2026_12_03 : datetime := DateTime 2026 12 3 eq_refl.

(** ** Numeric date fragments

    The three written forms of a date that the claims speak of: groups
    of ASCII digits, year first with four digits, or day first with a
    year of four or of two digits. *)
Inductive date_form := YMD | DMY | DMY2.

Definition digits_of_width (lo hi : nat) (g : text) : Prop :=
  Forall (fun c => ascii_digit c = true) g /\ (lo <= length g)%nat /\ (length g <= hi)%nat.

Definition well_formed (f : date_form) (g1 g2 g3 : text) : Prop :=
  match f with
  | YMD => digits_of_width 4 4 g1 /\ digits_of_width 1 2 g2 /\ digits_of_width 1 2 g3
  | DMY => digits_of_width 1 2 g1 /\ digits_of_width 1 2 g2 /\ digits_of_width 4 4 g3
  | DMY2 => digits_of_width 1 2 g1 /\ digits_of_width 1 2 g2 /\ digits_of_width 2 2 g3
  end.

Definition is_date_sep (c : char) : Prop := c = chr "." \/ c = chr "-" \/ c = chr "/".

Definition date_fragment (g1 : text) (s1 : char) (g2 : text) (s2 : char) (g3 : text) : text :=
  g1 ++ s1 :: g2 ++ s2 :: g3.

(** The year, month and day that a fragment of the form denotes. *)
Definition reading (U : tables) (f : date_form) (g1 g2 g3 : text) : Z * Z * Z :=
  match f with
  | YMD => (int_of_text U g1, int_of_text U g2, int_of_text U g3)
  | DMY => (int_of_text U g3, int_of_text U g2, int_of_text U g1)
  | DMY2 => ((2000 + int_of_text U g3)%Z, int_of_text U g2, int_of_text U g1)
  end.

Definition digit_free (U : tables) (s : text) : Prop :=
  Forall (fun c => is_digit U c = false) s.

(** What surrounds the fragment holds no digit, and the characters next
    to the fragment, if any, are not word characters. *)
Definition quiet_context (U : tables) (pre post : text) : Prop :=
  digit_free U pre /\ digit_free U post /\
  word_before U (last pre) = false /\ word_after U post = false.

(** Patterns that cannot match without reading a digit, and patterns
    whose first character must be a digit. *)
Definition is_digit_set (cs : cset) : bool :=
  match cs with
  | CSet [CDigit] => true
  | _ => false
  end.

Fixpoint needs_digit (r : regex) : bool :=
  match r with
  | Atom cs => is_digit_set cs
  | Rep cs (S _) _ => is_digit_set cs
  | Seq a b => needs_digit a || needs_digit b
  | Alt a b => needs_digit a && needs_digit b
  | Group _ a => needs_digit a
  | _ => false
  end.

Fixpoint digit_led (r : regex) : bool :=
  match r with
  | Atom cs => is_digit_set cs
  | Rep cs (S _) _ => is_digit_set cs
  | Seq WordB b => digit_led b
  | Seq a _ => digit_led a
  | Alt a b => digit_led a && digit_led b
  | Group _ a => digit_led a
  | _ => false
  end.

(** The character sets a pattern tests. *)
Fixpoint csets_of (r : regex) : list cset :=
  match r with
  | Atom cs => [cs]
  | Rep cs _ _ => [cs]
  | Seq a b => csets_of a ++ csets_of b
  | Alt a b => csets_of a ++ csets_of b
  | Opt a => csets_of a
  | Group _ a => csets_of a
  | _ => []
  end.

(** Two matcher states that differ only in characters that a relation
    [rel] holds for. *)
Definition alike_state (rel : char -> char -> Prop) (st st' : mstate) : Prop :=
  st_off st = st_off st' /\ st_caps st = st_caps st' /\
  option_Forall2 rel (st_prev st) (st_prev st') /\
  Forall2 rel (st_rest st) (st_rest st').

(** The relation [rel] respects every set that the pattern tests. *)
Definition tests_alike (U : tables) (ic : bool) (rel : char -> char -> Prop)
    (r : regex) : Prop :=
  forall cs, In cs (csets_of r) ->
    forall c c', rel c c' -> cs_match U ic cs c = cs_match U ic cs c'.

(** Where a match starts, how long it is, where its groups lie. *)
Definition m_shape (mo : match_obj) : nat * nat * list (nat * (nat * nat)) :=
  (m_start mo, length (m_text mo), m_spans mo).

(** The spans of the three groups in a fragment. *)
Definition date_spans (g1 g2 g3 : text) : list (nat * (nat * nat)) :=
  let e1 := length g1 in
  let e2 := (e1 + 1 + length g2)%nat in
  [(3, (e2 + 1, e2 + 1 + length g3)); (2, (e1 + 1, e2)); (1, (0, e1))]%nat.

(** Two characters that the date patterns cannot tell apart. *)
Definition same_class (U : tables) (c c' : char) : Prop :=
  Forall (fun cs => cs_match U true cs c = cs_match U true cs c')
         [digit; date_sep; space; dot]
  /\ is_word U c = is_word U c'.

Definition other_sep (c : char) : Prop := c = chr "-" \/ c = chr "/".
Definition day_first (f : date_form) : Prop := f = DMY \/ f = DMY2.

(** ** Vocabulary of the further properties *)

(** What a match of a pattern looks like, whatever surrounds it: the
    text it covers and the groups it closes, most recent first, when it
    starts at offset [off] of the whole match.  The anchors cover
    nothing. *)
Inductive covers (U : tables) (ic : bool)
  : regex -> nat -> text -> list (nat * (nat * nat)) -> Prop :=
| covers_eps off : covers U ic Eps off [] []
| covers_atom cs c off :
    cs_match U ic cs c = true -> covers U ic (Atom cs) off [c] []
| covers_seq a b off w1 w2 c1 c2 :
    covers U ic a off w1 c1 -> covers U ic b (off + length w1) w2 c2 ->
    covers U ic (Seq a b) off (w1 ++ w2) (c2 ++ c1)
| covers_alt_l a b off w c :
    covers U ic a off w c -> covers U ic (Alt a b) off w c
| covers_alt_r a b off w c :
    covers U ic b off w c -> covers U ic (Alt a b) off w c
| covers_rep cs lo hi off w :
    Forall (fun c => cs_match U ic cs c = true) w ->
    (lo <= length w)%nat ->
    match hi with Some h => (length w <= h)%nat | None => True end ->
    covers U ic (Rep cs lo hi) off w []
| covers_opt_some a off w c :
    covers U ic a off w c -> covers U ic (Opt a) off w c
| covers_opt_none a off : covers U ic (Opt a) off [] []
| covers_group n a off w c :
    covers U ic a off w c ->
    covers U ic (Group n a) off w ((n, (off, off + length w)%nat) :: c)
| covers_wordb off : covers U ic WordB off [] []
| covers_bol off : covers U ic Bol off [] [].

(** The least number of characters a match of the pattern covers. *)
Fixpoint min_len (r : regex) : nat :=
  match r with
  | Eps | WordB | Bol | Opt _ => 0
  | Atom _ => 1
  | Seq a b => min_len a + min_len b
  | Alt a b => Nat.min (min_len a) (min_len b)
  | Rep _ lo _ => lo
  | Group _ a => min_len a
  end.

(** Replacing every run of two or more characters of a class by one
    space, written as a scan from left to right; [inside] tells that the
    scan is inside a run it has already replaced. *)
Fixpoint squeeze (p : char -> bool) (inside : bool) (s : text) : text :=
  match s with
  | [] => []
  | c :: t =>
      if p c then
        if inside then squeeze p true t
        else match t with
             | d :: _ => if p d then 32 :: squeeze p true t else c :: squeeze p false t
             | [] => [c]
             end
      else c :: squeeze p false t
  end.

(** Two neighbours of the class somewhere in the text. *)
Fixpoint has_pair (p : char -> bool) (s : text) : bool :=
  match s with
  | a :: (b :: _) as t => (p a && p b) || has_pair p t
  | _ => false
  end.

(** No character of the class at the head of the text. *)
Definition head_free (p : char -> bool) (s : text) : Prop :=
  match s with c :: _ => p c = false | [] => True end.

(** A field that needs neither transliteration nor sanitizing. *)
Definition plain_field (U : tables) (f : text) : Prop :=
  f <> [] /\ unidecode U f = f /\ sanitize_filename U f = f.

(** The characters of [[A-Z0-9/\-]]. *)
Definition invoice_no_char (c : char) : bool :=
  ascii_upper_letter c || ascii_digit c || (c =? 47) || (c =? 45).

(** Patterns with a group in them. *)
Fixpoint has_group (r : regex) : bool :=
  match r with
  | Group _ _ => true
  | Seq a b | Alt a b => has_group a || has_group b
  | Opt a => has_group a
  | _ => false
  end.

(** [m'] is [m] up to the case of its letters, as [re.IGNORECASE] sees
    it. *)
Definition same_letters (U : tables) (m' m : text) : Prop :=
  Forall2 (fun c x => In x (case_variants U c)) m' m.

(** The literal texts of [COMPANY_MARKERS]. *)
Definition marker_texts : list text :=
  [str "s.r.o."; str "a.s."; str "sro"; str "as"; str "se"; str "gmbh"; str "kg";
   str "spol."; str "inc."; str "ltd"].

(** Where a line begins in the joined lines, when the lines [before]
    stand before it: each of them takes its length and one line feed. *)
Definition line_start (before : list text) : nat :=
  length (flat_map (fun b => b ++ [10]) before).

(** The lines that can be candidates: those of three characters or
    more. *)
Definition long_enough (l : text) : bool := (3 <=? length l)%nat.

(** The files of a tree, without their paths. *)
Definition files_of {file : Type} (fs : gmap text file) : list file :=
  (map_to_list fs).*2.

(** Collaborators for the examples: every document has a page, nothing
    is read on it, and paths are joined with a slash. *)
Definition plain_collaborators : collaborators := {|
  image := unit;
  render_first_page_as_image := fun _ => Ok (Some tt);
  preprocess := fun i => Ok i;
  ocr_image := fun _ => [];
  os_path_join := fun d f => d ++ str "/" ++ f
|}.

(** A row of the log for the file [name] with the proposed name
    [proposed]. *)
Definition ok_row (name proposed : text) : row :=
  Row name (Some (str "2025-09-12")) (Some (str "ACME")) (Some (str "7")) proposed STATUS_OK.

(** The paths that the loop of lines 252 to 256 can settle on for the
    target [dst]: the target itself, or the target with a disambiguator
    from 2 on put before its extension. *)
Definition settled_on (os_sep : char) (os_altsep : option char) (dst p : text) : Prop :=
  p = dst \/
  exists k, (2 <= k)%nat /\
    p = variant (fst (splitext os_sep os_altsep dst)) (snd (splitext os_sep os_altsep dst)) k.

(** ** Vocabulary of the amended claims *)

(** The texts that [extract_date] hands to [normalize_date], in the
    order of lines 119 to 128: the lines after the date hints, the
    fragments that the date patterns find in the text, the whole text. *)
Definition date_candidates (U : tables) (t : text) : list text :=
  find_first_by_hints U t DATE_HINT_WORDS
  ++ map m_text (flat_map (fun rgx => re_finditer U true rgx t) DATE_REGEXES)
  ++ [t].

(** The texts that can reach the fallback parser: [normalize_date] asks
    it about a candidate, stripped, only when the numeric patterns find
    no valid date there, and no candidate is looked at after one that
    they settle. *)
Fixpoint parser_inputs (U : tables) (cands : list text) : list text :=
  match cands with
  | [] => []
  | c :: rest =>
      match numeric_date U DATE_REGEXES (strip U c) with
      | Some _ => []
      | None => strip U c :: parser_inputs U rest
      end
  end.






(** * Properties *)

(** ** File names *)

(** C8: with the three fields missing, [build_new_name] yields the three
    sentinel tokens joined by spaces and followed by [.pdf]; the tokens
    are pairwise distinct, the name holds no reserved character and it
    ends in [.pdf]. *)
Theorem build_new_name_all_missing (U : tables) :
  build_new_name U None None None
    = NO_DATE ++ str " " ++ NO_SUPPLIER ++ str " " ++ NO_INVOICE_NO ++ str ".pdf"
  /\ build_new_name U None None None = str "0000-00-00 Neznamy-dodavatel Bez-cisla.pdf"
  /\ NO_DATE <> NO_SUPPLIER /\ NO_DATE <> NO_INVOICE_NO /\ NO_SUPPLIER <> NO_INVOICE_NO
  /\ Forall (fun c => ~ In c FS_RESERVED) (build_new_name U None None None)
  /\ endswith (build_new_name U None None None) (str ".pdf") = true.
Proof.
  assert (E : build_new_name U None None None
              = str "0000-00-00 Neznamy-dodavatel Bez-cisla.pdf")
    by (vm_compute; reflexivity).
  rewrite E. repeat split; try reflexivity; try discriminate.
  apply Forall_forall. intros c Hc Hr.
  apply list_elem_of_In in Hc.
  vm_compute in Hc, Hr.
  repeat (destruct Hr as [Hr | Hr]; [subst c; repeat (destruct Hc as [Hc | Hc]; [discriminate Hc |]); exact Hc |]).
  exact Hr.
Qed.

(** ** Invoice numbers *)

(** C2: on the text of the claim the labelled patterns do not deliver the
    number.  The third pattern wants [no.] with a dot, so its optional
    label is skipped and its group takes [No], which is too short; the
    fourth pattern then reads [inv] inside [Invoice] and captures the
    rest of the word. *)
Theorem extract_invoice_no_label_with_colon (U : tables) :
  extract_invoice_no U (str "Invoice No: FA-2025/0099") = Some (str "OICE")
  /\ extract_invoice_no U (str "Invoice No: FA-2025/0099") <> Some (str "FA-2025/0099")
  /\ extract_invoice_no U (str "Invoice No. FA-2025/0099") = Some (str "FA-2025/0099").
Proof.
  repeat split; try (vm_compute; reflexivity).
  vm_compute. discriminate.
Qed.

(** ** Collision resolution *)

Lemma text_of_uint_inj d1 d2 : text_of_uint d1 = text_of_uint d2 -> d1 = d2.
Proof.
  revert d2. induction d1; intros [] H; simpl in H; try discriminate;
    try reflexivity; f_equal; apply IHd1; congruence.
Qed.

Lemma str_of_nat_inj i j : str_of_nat i = str_of_nat j -> i = j.
Proof.
  intros H. apply text_of_uint_inj in H.
  rewrite <- (Unsigned.of_to i), <- (Unsigned.of_to j). now rewrite H.
Qed.

Section ResolverFacts.
Context (os_sep : char) (os_altsep : option char).

Lemma splitext_app p base ext :
  splitext os_sep os_altsep p = (base, ext) -> base ++ ext = p.
Proof.
  unfold splitext. destruct (_ && _); intros [= <- <-].
  - apply take_drop.
  - apply app_nil_r.
Qed.

Lemma variant_inj base ext i j : variant base ext i = variant base ext j -> i = j.
Proof.
  unfold variant. intros H. apply app_inv_head in H. apply app_inv_head in H.
  rewrite !app_assoc in H. apply app_inv_tail in H. apply app_inv_tail in H.
  now apply str_of_nat_inj.
Qed.

Lemma variant_longer base ext i : variant base ext i <> base ++ ext.
Proof.
  intros H. apply (f_equal length) in H. unfold variant in H.
  rewrite !length_app in H. simpl in H. lia.
Qed.

Lemma resolve_loop_some existing base ext fuel :
  forall dst i r,
    resolve_loop fuel existing base ext dst i = Some r ->
    (r ∉ existing) /\
    (((dst ∉ existing) /\ r = dst) \/
     ((dst ∈ existing) /\
      exists k, (i <= k)%nat /\ r = variant base ext k /\
                forall j, (i <= j)%nat /\ (j < k)%nat -> variant base ext j ∈ existing)).
Proof.
  induction fuel as [|fuel IH]; intros dst i r H; simpl in H; [discriminate|].
  case_bool_decide as Hin.
  - apply IH in H as [Hr [[Hv ->] | [Hv (k & Hk & -> & Hall)]]].
    + split; [assumption|]. right. split; [assumption|].
      exists i. split; [lia|]. split; [reflexivity|]. intros j Hj. lia.
    + split; [assumption|]. right. split; [assumption|].
      exists k. split; [lia|]. split; [reflexivity|].
      intros j Hj. destruct (decide (j = i)) as [->|]; [assumption|].
      apply Hall. lia.
  - injection H as <-. split; [assumption|]. left; split; [assumption | reflexivity].
Qed.

Lemma resolve_loop_none existing base ext fuel :
  forall dst i,
    resolve_loop (S fuel) existing base ext dst i = None ->
    (dst ∈ existing) /\
    forall j, (i <= j)%nat /\ (j < i + fuel)%nat -> variant base ext j ∈ existing.
Proof.
  induction fuel as [|fuel IH]; intros dst i H.
  - simpl in H. case_bool_decide; [|discriminate]. split; [assumption|]. intros j Hj; lia.
  - cbn [resolve_loop] in H. case_bool_decide as Hin; [|discriminate].
    apply IH in H as [Hv Hall]. split; [assumption|].
    intros j Hj. destruct (decide (j = i)) as [->|]; [assumption|].
    apply Hall. lia.
Qed.

(** The loop cannot use up its fuel: the names it tries are pairwise
    different, and there is one more of them than existing paths. *)
Lemma resolve_loop_total (existing : gset text) base ext :
  is_Some (resolve_loop (S (size existing)) existing base ext (base ++ ext) 2).
Proof.
  destruct (resolve_loop _ _ _ _ _ _) as [r|] eqn:E; [eauto|].
  apply resolve_loop_none in E as [Hd Hall]. exfalso.
  set (n := size existing) in *.
  set (l := (base ++ ext) :: map (variant base ext) (List.seq 2 n)).
  assert (Hnd : NoDup l).
  { unfold l. apply NoDup_cons. split.
    - intros Hin. apply list_elem_of_fmap in Hin as (j & Hj & _).
      symmetry in Hj. now apply variant_longer in Hj.
    - apply (NoDup_fmap_2_strong (variant base ext)).
      + intros i j _ _. apply variant_inj.
      + apply NoDup_ListNoDup, List.seq_NoDup. }
  assert (Hsub : list_to_set l ⊆ existing).
  { intros x Hx. apply elem_of_list_to_set in Hx. unfold l in Hx.
    apply elem_of_cons in Hx as [-> | Hx]; [assumption|].
    apply list_elem_of_fmap in Hx as (j & -> & Hj).
    apply list_elem_of_In, List.in_seq in Hj. apply Hall. lia. }
  apply subseteq_size in Hsub. rewrite size_list_to_set in Hsub by assumption.
  unfold l in Hsub. simpl in Hsub. rewrite length_map, List.length_seq in Hsub.
  fold n in Hsub. lia.
Qed.

(** C5: the resolver always returns a name, and that name does not
    exist.  A free proposed name is returned unchanged.  Otherwise the
    result is the proposed name with [ (k)] put before its extension, for
    the least [k] from 2 on whose name is free.  In particular, when only
    the proposed name and its variant 2 exist, the result is variant 3. *)
Theorem resolve_collision_first_free (existing : gset text) (dst : text) :
  let base := fst (splitext os_sep os_altsep dst) in
  let ext := snd (splitext os_sep os_altsep dst) in
  base ++ ext = dst /\
  exists r,
    resolve_collision os_sep os_altsep existing dst = Some r /\
    (r ∉ existing) /\
    (dst ∉ existing -> r = dst) /\
    (dst ∈ existing ->
       exists k, (2 <= k)%nat /\ r = base ++ str " (" ++ str_of_nat k ++ str ")" ++ ext /\
         forall j, (2 <= j)%nat /\ (j < k)%nat ->
           base ++ str " (" ++ str_of_nat j ++ str ")" ++ ext ∈ existing) /\
    (existing = {[dst; base ++ str " (2)" ++ ext]} ->
       r = base ++ str " (3)" ++ ext).
Proof.
  intros base ext. unfold resolve_collision.
  destruct (splitext os_sep os_altsep dst) as [b e] eqn:Es.
  subst base ext. simpl fst; simpl snd.
  pose proof (splitext_app _ _ _ Es) as Hbe. split; [assumption|].
  destruct (resolve_loop_total existing b e) as [r Hr]. rewrite Hbe in Hr.
  exists r. split; [assumption|].
  apply resolve_loop_some in Hr as [Hfree Hcases].
  split; [assumption|].
  assert (Hk : dst ∈ existing ->
               exists k, (2 <= k)%nat /\ r = variant b e k /\
                 forall j, (2 <= j)%nat /\ (j < k)%nat -> variant b e j ∈ existing).
  { intros Hin. destruct Hcases as [[Hn _] | [_ Hk]]; [contradiction | exact Hk]. }
  split; [|split].
  - intros Hn. destruct Hcases as [[_ ->] | [Hin _]]; [reflexivity | contradiction].
  - exact Hk.
  - intros ->. destruct Hk as (k & Hk2 & -> & Hall);
      [apply elem_of_union_l, elem_of_singleton; reflexivity|].
    change (b ++ str " (3)" ++ e) with (variant b e 3).
    change (b ++ str " (2)" ++ e) with (variant b e 2) in *.
    assert (k = 3%nat) as ->; [|reflexivity].
    destruct (decide (k = 2%nat)) as [->|];
      [exfalso; apply Hfree, elem_of_union_r, elem_of_singleton; reflexivity|].
    destruct (decide (k = 3%nat)) as [->|]; [reflexivity|].
    exfalso. assert (H3 : variant b e 3 ∈ ({[dst; variant b e 2]} : gset text))
      by (apply Hall; lia).
    apply elem_of_union in H3 as [H3 | H3]; apply elem_of_singleton in H3.
    + rewrite <- Hbe in H3. now apply variant_longer in H3.
    + apply variant_inj in H3. discriminate.
Qed.

End ResolverFacts.

(** ** The batch *)

Section BatchFacts.
Context (U : tables).
Context (dparser_parse : datetime -> text -> option datetime).
Context (today : datetime).
Context (E : collaborators).

Lemma process_pdf_status path date sup inv st :
  process_pdf U dparser_parse today E path = Ok (date, sup, inv, st) ->
  st = STATUS_OK \/ st = STATUS_NO_PAGE.
Proof.
  unfold process_pdf, mbind, result_bind.
  destruct (render_first_page_as_image E path) as [[img|]|]; [| |discriminate].
  - destruct (preprocess E img); [|discriminate]. intros [= _ _ _ <-]. now left.
  - intros [= _ _ _ <-]. now right.
Qed.

Lemma row_for_file in_dir f :
  original_file (row_for U dparser_parse today E in_dir f) = f.
Proof.
  unfold row_for. destruct (process_pdf _ _ _ _ _) as [[[[d s] i] st]|]; reflexivity.
Qed.

Lemma row_for_status in_dir f :
  status (row_for U dparser_parse today E in_dir f) = STATUS_OK \/
  status (row_for U dparser_parse today E in_dir f) = STATUS_NO_PAGE \/
  exists msg,
    process_pdf U dparser_parse today E (os_path_join E in_dir f) = Raise msg /\
    status (row_for U dparser_parse today E in_dir f) = status_error msg.
Proof.
  unfold row_for.
  destruct (process_pdf _ _ _ _ _) as [[[[d s] i] st]|msg] eqn:He.
  - apply process_pdf_status in He as [-> | ->]; [left | right; left]; reflexivity.
  - right; right. exists msg. split; reflexivity.
Qed.

Lemma main_loop_rows in_dir pdfs :
  forall rows,
    main_loop U dparser_parse today E in_dir pdfs rows
    = rows ++ map (row_for U dparser_parse today E in_dir) pdfs.
Proof.
  induction pdfs as [|f pdfs IH]; intros rows; simpl.
  - now rewrite app_nil_r.
  - rewrite IH, <- app_assoc. reflexivity.
Qed.

(** C6: the loop appends exactly one row per document, in order, and the
    row of a document depends on that document alone, so a failure does
    not stop the batch.  A document whose processing raises gets the row
    with empty fields and status [ERROR:] followed by the message.  Every
    status is [OK], [NO_PAGE] or [ERROR:<message>]. *)
Theorem batch_one_row_per_document (in_dir : text) (pdfs : list text) :
  length (main_loop U dparser_parse today E in_dir pdfs []) = length pdfs
  /\ map original_file (main_loop U dparser_parse today E in_dir pdfs []) = pdfs
  /\ (forall i f, pdfs !! i = Some f ->
        main_loop U dparser_parse today E in_dir pdfs [] !! i
        = Some (row_for U dparser_parse today E in_dir f))
  /\ (forall f msg,
        process_pdf U dparser_parse today E (os_path_join E in_dir f) = Raise msg ->
        row_for U dparser_parse today E in_dir f
        = Row f (Some []) (Some []) (Some []) [] (str "ERROR:" ++ msg))
  /\ Forall (fun r => status r = str "OK" \/ status r = str "NO_PAGE" \/
                      exists msg, status r = str "ERROR:" ++ msg)
       (main_loop U dparser_parse today E in_dir pdfs []).
Proof.
  rewrite main_loop_rows. simpl.
  split; [apply length_map|].
  split; [rewrite map_map; erewrite map_ext; [apply map_id | apply row_for_file]|].
  split; [intros i f Hi; change (map ?g ?l) with (g <$> l);
          rewrite list_lookup_fmap, Hi; reflexivity|].
  split; [intros f msg He; unfold row_for; rewrite He; reflexivity|].
  apply Forall_forall. intros r Hr.
  change (map ?g ?l) with (g <$> l) in Hr.
  apply list_elem_of_fmap in Hr as (f & -> & _).
  destruct (row_for_status in_dir f) as [H | [H | (msg & _ & H)]].
  - left. exact H.
  - right; left. exact H.
  - right; right. exists msg. exact H.
Qed.

End BatchFacts.

(** ** Facts about the matcher *)

Lemma ascii_enum (c : char) : c < 128 -> In c (map N.of_nat (List.seq 0 128)).
Proof.
  intros H. apply List.in_map_iff. exists (N.to_nat c). split; [apply N2Nat.id|].
  apply List.in_seq. lia.
Qed.

(** A property of characters that a computation confirms on the 128
    ASCII characters holds of every ASCII character. *)
Lemma ascii_forall (P : char -> bool) :
  forallb P (map N.of_nat (List.seq 0 128)) = true ->
  forall c, c < 128 -> P c = true.
Proof.
  intros H c Hc. rewrite List.forallb_forall in H. apply H, ascii_enum, Hc.
Qed.

Lemma ascii_alnum_ascii c : ascii_alnum c = true -> c < 128.
Proof.
  unfold ascii_alnum, ascii_digit, ascii_upper_letter, ascii_lower_letter.
  rewrite !orb_true_iff, !andb_true_iff, !N.leb_le. lia.
Qed.

Section MatcherFacts.
Context (U : tables).

Lemma alnum_is_word c : ascii_alnum c = true -> is_word U c = true.
Proof.
  intros H. pose proof (ascii_alnum_ascii c H) as Hc. revert H.
  apply (ascii_forall (fun c => implb (ascii_alnum c) (is_word U c))) in Hc;
    [|vm_compute; reflexivity].
  destruct (ascii_alnum c); [exact (fun _ => Hc) | discriminate].
Qed.

Lemma alnum_in_AZ09 c : ascii_alnum c = true -> cs_match U true alnum_AZ09 c = true.
Proof.
  intros H. pose proof (ascii_alnum_ascii c H) as Hc. revert H.
  apply (ascii_forall (fun c => implb (ascii_alnum c) (cs_match U true alnum_AZ09 c))) in Hc;
    [|vm_compute; reflexivity].
  destruct (ascii_alnum c); [exact (fun _ => Hc) | discriminate].
Qed.

(** A quantifier with no minimum succeeds wherever its continuation
    does: the empty repetition is its last resort. *)
Lemma rep_zero_some ic cs hi k prev off rest caps :
  is_Some (k (MState prev off rest caps)) ->
  is_Some (rep U ic cs 0 hi k prev off rest caps).
Proof.
  intros Hk. destruct rest as [|c t]; simpl; [exact Hk|].
  destruct (more_allowed hi && cs_match U ic cs c); [|exact Hk].
  destruct (rep U ic cs _ _ k (Some c) (S off) t caps); [eauto | exact Hk].
Qed.

(** An unbounded quantifier succeeds if the continuation succeeds after
    some run of matching characters that is long enough. *)
Lemma rep_run_some ic cs k caps post run :
  Forall (fun c => cs_match U ic cs c = true) run ->
  forall lo prev off,
    (lo <= length run)%nat ->
    is_Some (k (MState (prev_after prev run) (off + length run) post caps)) ->
    is_Some (rep U ic cs lo None k prev off (run ++ post) caps).
Proof.
  induction 1 as [|c run Hc Hrun IH]; intros lo prev off Hlo Hk.
  - simpl in *. assert (lo = 0%nat) as -> by lia.
    apply rep_zero_some. now rewrite Nat.add_0_r in Hk.
  - simpl. rewrite Hc. simpl.
    assert (Hin : is_Some (rep U ic cs (Nat.pred lo) None k (Some c) (S off)
                             (run ++ post) caps)).
    { apply IH; [simpl in Hlo; lia|].
      replace (prev_after (Some c) run) with (prev_after prev (c :: run));
        [|unfold prev_after; destruct run as [|x run'] using rev_ind;
          [reflexivity | rewrite app_comm_cons, !last_snoc; reflexivity]].
      replace (S off + length run)%nat with (off + length (c :: run))%nat
        by (simpl; lia).
      exact Hk. }
    destruct Hin as [r ->]. eauto.
Qed.

(** A match that exists at some position makes the search succeed. *)
Lemma search_from_reaches ic r pre rest :
  forall prev pos,
    is_Some (match_at U ic r (prev_after prev pre) (pos + length pre) rest) ->
    is_Some (search_from U ic r prev pos (pre ++ rest)).
Proof.
  induction pre as [|c pre IH]; intros prev pos H.
  - simpl in *. rewrite Nat.add_0_r in H. unfold prev_after in H. simpl in H.
    destruct rest; simpl; destruct H as [mo ->]; eauto.
  - simpl. destruct (match_at U ic r prev pos (c :: pre ++ rest)); [eauto|].
    apply IH.
    replace (prev_after (Some c) pre) with (prev_after prev (c :: pre));
      [|unfold prev_after; destruct pre as [|x pre'] using rev_ind;
        [reflexivity | rewrite app_comm_cons, !last_snoc; reflexivity]].
    replace (S pos + length pre)%nat with (pos + length (c :: pre))%nat
      by (simpl; lia).
    exact H.
Qed.

Lemma match_at_is_Some ic r prev pos s :
  is_Some (rmatch U ic r Some prev 0 s []) ->
  is_Some (match_at U ic r prev pos s).
Proof. unfold match_at. intros [e ->]. eauto. Qed.

End MatcherFacts.

(** ** The loose invoice-number pattern *)

Section LooseInvoiceNo.
Context (U : tables).

Lemma last_alnum_word run prev :
  run <> [] -> Forall (fun c => ascii_alnum c = true) run ->
  word_before U (prev_after prev run) = true.
Proof.
  intros Hne Hall. unfold prev_after.
  destruct run as [|x run'] using rev_ind; [contradiction|].
  rewrite last_snoc. simpl. apply alnum_is_word.
  apply Forall_app in Hall as [_ Hx]. now inversion Hx.
Qed.

(** The loose pattern matches at a word-delimited run of five or more
    ASCII letters and digits, through its third alternative if the first
    two fail. *)
Lemma loose_matches_run prev pos run post :
  Forall (fun c => ascii_alnum c = true) run ->
  (5 <= length run)%nat ->
  word_before U prev = false ->
  word_after U post = false ->
  is_Some (match_at U true INVOICE_NO_LOOSE prev pos (run ++ post)).
Proof.
  intros Hall Hlen Hprev Hpost. apply match_at_is_Some.
  assert (Hne : run <> []) by (destruct run; [simpl in Hlen; lia | discriminate]).
  unfold INVOICE_NO_LOOSE, seq, alts. cbn [fold_right rmatch].
  assert (Hb : at_boundary U prev (run ++ post) = true).
  { unfold at_boundary. rewrite Hprev. destruct run as [|c run']; [contradiction|].
    simpl. apply alnum_is_word. now inversion Hall. }
  rewrite Hb.
  match goal with
  | |- is_Some (match ?a with Some r => Some r | None => _ end) => destruct a; [eauto|]
  end.
  match goal with
  | |- is_Some (match ?a with Some r => Some r | None => _ end) => destruct a; [eauto|]
  end.
  apply rep_run_some.
  - eapply Forall_impl; [exact Hall|]. intros c Hc. now apply alnum_in_AZ09.
  - exact Hlen.
  - cbn [capture st_prev st_rest st_off st_caps].
    unfold at_boundary. rewrite (last_alnum_word run prev Hne Hall), Hpost.
    simpl. eauto.
Qed.

(** C10, as amended: a run of five or more ASCII letters and digits that
    stands between word boundaries makes [extract_invoice_no] return a
    value: the one a labelled pattern accepts, or else the upper-cased
    group of the leftmost match of the loose pattern, which exists. *)
Theorem extract_invoice_no_finds_word (t run : text) :
  word_delimited_run U t run ->
  (5 <= length run)%nat ->
  is_Some (extract_invoice_no U t) /\
  (labelled_invoice_no U INVOICE_NO_REGEXES t = None ->
   exists mo, re_search U true INVOICE_NO_LOOSE t = Some mo /\
              extract_invoice_no U t = Some (upper U (group mo 1))).
Proof.
  intros (pre & post & -> & Hall & Hprev & Hpost) Hlen.
  assert (Hs : is_Some (re_search U true INVOICE_NO_LOOSE (pre ++ run ++ post))).
  { unfold re_search. apply search_from_reaches, loose_matches_run; try assumption.
    unfold prev_after. destruct (last pre); [exact Hprev | reflexivity]. }
  destruct Hs as [mo Hmo]. unfold extract_invoice_no. rewrite Hmo. split.
  - destruct (labelled_invoice_no _ _ _); eauto.
  - intros ->. eauto.
Qed.

End LooseInvoiceNo.

(** The theorem at work: the second word of [ab hello.] is found. *)
Lemma extract_invoice_no_finds_word_witness :
  is_Some (extract_invoice_no ascii_only (str "ab hello.")).
Proof.
  refine (proj1 (extract_invoice_no_finds_word ascii_only (str "ab hello.") (str "hello") _ _)).
  - exists (str "ab "), (str "."). repeat split.
    repeat constructor.
  - simpl. lia.
Defined.

(** C10 fails as stated: in [hello_world] both words are maximal runs
    of five ASCII letters, but the underscore is a word character, so no
    word boundary separates them from it and nothing is found. *)
Lemma extract_invoice_no_misses_snake_case :
  maximal_alnum_run (str "hello_world") (str "hello")
  /\ (5 <= length (str "hello"))%nat
  /\ extract_invoice_no ascii_only (str "hello_world") = None.
Proof.
  split; [|split].
  - exists [], (str "_world"). repeat split. repeat constructor.
  - simpl. lia.
  - vm_compute. reflexivity.
Qed.

(** ** Company names *)

Section CompanyNames.
Context (U : tables).



End CompanyNames.


(** ** Dates returned by [normalize_date] *)

Lemma days_in_month_le_31 y m : (days_in_month y m <= 31)%Z.
Proof.
  unfold days_in_month.
  destruct (m =? 2)%Z; [destruct (is_leap y); lia|].
  destruct (_ || _); lia.
Qed.

Lemma valid_ymd_bounds y m d :
  valid_ymd y m d = true ->
  (1 <= y <= 9999)%Z /\ (1 <= m <= 12)%Z /\ (1 <= d <= 31)%Z.
Proof.
  unfold valid_ymd. rewrite !andb_true_iff, !Z.leb_le.
  pose proof (days_in_month_le_31 y m). lia.
Qed.

Lemma datetime_new_Some y m d dt :
  datetime_new y m d = Some dt ->
  dt_year dt = y /\ dt_month dt = m /\ dt_day dt = d.
Proof.
  unfold datetime_new. destruct (decide _); [|discriminate].
  intros [= <-]. auto.
Qed.

Lemma datetime_new_valid y m d :
  valid_ymd y m d = true -> exists dt, datetime_new y m d = Some dt.
Proof. unfold datetime_new. intros H. destruct (decide _); [eauto | contradiction]. Qed.

Lemma datetime_new_invalid y m d :
  valid_ymd y m d = false -> datetime_new y m d = None.
Proof. unfold datetime_new. intros H. destruct (decide _); [congruence | reflexivity]. Qed.

Section DateFacts.
Context (U : tables).

Lemma strftime_new y m d :
  valid_ymd y m d = true ->
  option_map (strftime U) (datetime_new y m d) = Some (isoformat U y m d).
Proof.
  intros H. destruct (datetime_new_valid y m d H) as [dt Hdt]. rewrite Hdt.
  apply datetime_new_Some in Hdt as (Hy & Hm & Hd). simpl. unfold strftime.
  now rewrite Hy, Hm, Hd.
Qed.

Lemma date_of_match_datetime mo r :
  date_of_match U mo = Some r -> exists dt, r = strftime U dt.
Proof.
  unfold date_of_match. destruct (order_groups _ _ _ _) as [[y mn] d].
  destruct (datetime_new y mn d) as [dt|]; [|discriminate].
  intros [= <-]. eauto.
Qed.

Lemma numeric_date_datetime rs s r :
  numeric_date U rs s = Some r -> exists dt, r = strftime U dt.
Proof.
  induction rs as [|rgx rs IH]; simpl; [discriminate|].
  destruct (re_search U true rgx s) as [mo|]; [|exact IH].
  destruct (date_of_match U mo) as [r'|] eqn:E; [|exact IH].
  intros [= <-]. eapply date_of_match_datetime, E.
Qed.

Context (dparser_parse : datetime -> text -> option datetime).
Context (today : datetime).

Lemma normalize_date_datetime s r :
  normalize_date U dparser_parse today s = Some r -> exists dt, r = strftime U dt.
Proof.
  unfold normalize_date, fallback_date.
  destruct (numeric_date U DATE_REGEXES (strip U s)) as [r'|] eqn:E.
  - intros [= <-]. eapply numeric_date_datetime, E.
  - destruct (dparser_parse today (strip U s)) as [dt|]; [|discriminate].
    intros [= <-]. eauto.
Qed.

(** C4, as amended: every text [normalize_date] returns is the rendering
    of a real calendar date with year 1 to 9999, month 1 to 12 and day 1
    to 31; from year 1000 on it is the ten characters [YYYY-MM-DD]. *)
Theorem normalize_date_returns_calendar_date (s r : text) :
  normalize_date U dparser_parse today s = Some r ->
  exists y m d : Z,
    r = isoformat U y m d /\
    valid_ymd y m d = true /\
    (1 <= y <= 9999)%Z /\ (1 <= m <= 12)%Z /\ (1 <= d <= 31)%Z /\
    ((1000 <= y)%Z ->
       r = four_digits y ++ str "-" ++ two_digits m ++ str "-" ++ two_digits d /\
       length r = 10%nat).
Proof.
  intros H. apply normalize_date_datetime in H as [[y m d Hv] ->].
  exists y, m, d. split; [reflexivity|]. split; [exact Hv|].
  destruct (valid_ymd_bounds y m d Hv) as (Hy & Hm & Hd).
  repeat (split; [assumption|]).
  intros H1000. unfold strftime, isoformat, fmt_year. simpl.
  destruct (Z.leb_spec 1000 y); [|lia]. split; reflexivity.
Qed.

End DateFacts.

(** The theorem at work on [1-1-1899]. *)
Lemma normalize_date_returns_calendar_date_witness :
  exists y m d : Z,
    str "1899-01-01" = isoformat ascii_only y m d /\
    valid_ymd y m d = true /\
    (1 <= y <= 9999)%Z /\ (1 <= m <= 12)%Z /\ (1 <= d <= 31)%Z /\
    ((1000 <= y)%Z ->
       str "1899-01-01"
       = four_digits y ++ str "-" ++ two_digits m ++ str "-" ++ two_digits d /\
       length (str "1899-01-01") = 10%nat).
Proof.
  apply (normalize_date_returns_calendar_date ascii_only dateutil_fragment
           day_2026_11_03 (str "1-1-1899")).
  vm_compute. reflexivity.
Defined.

Lemma digit_char_inv v n : digit_char v = n -> (v mod 10 = Z.of_N n - 48)%Z.
Proof.
  unfold digit_char. intros <-. pose proof (Z.mod_pos_bound v 10).
  rewrite Z2N.id; lia.
Qed.

Lemma four_digits_1899 y :
  (1000 <= y <= 9999)%Z -> four_digits y = str "1899" -> y = 1899%Z.
Proof.
  intros Hy H. unfold four_digits in H. simpl in H.
  injection H as H1 H2 H3 H4.
  apply digit_char_inv in H1, H2, H3, H4. simpl in H1, H2, H3, H4.
  Z.div_mod_to_equations. lia.
Qed.

(** C4 fails as stated: a fragment with the year 1899 is accepted, and
    its date is below the year 1900 of the invariant.  A three-digit
    year is accepted as well, and where the C library does not pad small
    years the text is not even of fixed width. *)
Lemma normalize_date_accepts_1899 :
  normalize_date ascii_only dateutil_fragment day_2026_11_03 (str "1-1-1899")
    = Some (str "1899-01-01")
  /\ ~ calendar_date_text ascii_only 1900 (str "1899-01-01")
  /\ normalize_date ascii_only dateutil_fragment day_2026_11_03 (str "12.09.202")
    = Some (str "202-09-12").
Proof.
  split; [vm_compute; reflexivity|]. split; [|vm_compute; reflexivity].
  intros (y & m & d & Hr & _ & Hy & _ & _ & Hv).
  apply valid_ymd_bounds in Hv as (Hy' & _ & _).
  unfold isoformat, fmt_year in Hr.
  destruct (Z.leb_spec 1000 y); [|lia].
  assert (E : four_digits y = str "1899").
  { change (str "1899-01-01") with ([49; 56; 57; 57] ++ str "-01-01") in Hr.
    unfold four_digits in *. cbn [app] in Hr.
    injection Hr as H1 H2 H3 H4 _. now rewrite <- H1, <- H2, <- H3, <- H4. }
  apply four_digits_1899 in E; lia.
Qed.

(** ** Dependence on the current date *)

Lemma first_truthy_app {A : Type} (f : A -> option text) (l1 l2 : list A) :
  first_truthy f (l1 ++ l2)
  = match first_truthy f l1 with
    | Some r => Some r
    | None => first_truthy f l2
    end.
Proof.
  induction l1 as [|x l1 IH]; [reflexivity|]. simpl.
  destruct (f x) as [[|c r]|]; simpl; try exact IH. reflexivity.
Qed.

Lemma first_truthy_map {A B : Type} (g : A -> B) (f : B -> option text) (l : list A) :
  first_truthy f (map g l) = first_truthy (fun x => f (g x)) l.
Proof. induction l as [|x l IH]; simpl; [reflexivity|]. now rewrite IH. Qed.

Section ClockFacts.
Context (U : tables).
Context (dparser_parse : datetime -> text -> option datetime).

Lemma isoformat_nonempty y m d : isoformat U y m d <> [].
Proof.
  unfold isoformat. intros H. apply app_eq_nil in H as [_ H]. discriminate.
Qed.

(** What [normalize_date] returns is never the empty text, so Python
    takes every result for true. *)
Lemma normalize_date_truthy_or_none today s :
  truthy (normalize_date U dparser_parse today s) = false ->
  normalize_date U dparser_parse today s = None.
Proof.
  destruct (normalize_date U dparser_parse today s) as [r|] eqn:E; [|reflexivity].
  apply normalize_date_datetime in E as [dt ->].
  pose proof (isoformat_nonempty (dt_year dt) (dt_month dt) (dt_day dt)) as Hne.
  unfold strftime. destruct (isoformat U _ _ _); [contradiction | discriminate].
Qed.

(** [extract_date] is [normalize_date] on the first candidate that gives
    a date. *)
Lemma extract_date_candidates today t :
  extract_date U dparser_parse today t
  = first_truthy (normalize_date U dparser_parse today) (date_candidates U t).
Proof.
  unfold extract_date, date_candidates.
  rewrite !first_truthy_app, first_truthy_map.
  destruct (first_truthy _ (find_first_by_hints U t DATE_HINT_WORDS)); [reflexivity|].
  destruct (first_truthy _ (flat_map _ DATE_REGEXES)); [reflexivity|].
  cbn [first_truthy].
  destruct (truthy (normalize_date U dparser_parse today t)) eqn:E; [reflexivity|].
  now apply normalize_date_truthy_or_none.
Qed.

Lemma numeric_date_nonempty rs s r : numeric_date U rs s = Some r -> r <> [].
Proof.
  intros H. apply numeric_date_datetime in H as [dt ->]. apply isoformat_nonempty.
Qed.

Lemma first_truthy_parser_inputs d1 d2 cands :
  Forall (fun s => dparser_parse d1 s = dparser_parse d2 s) (parser_inputs U cands) ->
  first_truthy (normalize_date U dparser_parse d1) cands
  = first_truthy (normalize_date U dparser_parse d2) cands.
Proof.
  induction cands as [|c cands IH]; [reflexivity|].
  cbn [parser_inputs first_truthy]. unfold normalize_date at 1 2 4 5.
  destruct (numeric_date U DATE_REGEXES (strip U c)) as [r|] eqn:E.
  - intros _. apply numeric_date_nonempty in E. now destruct r.
  - intros H. inversion H as [|? ? Hc Hrest]; subst.
    unfold fallback_date. rewrite Hc.
    destruct (truthy _); [reflexivity | now apply IH].
Qed.

(** C9, as amended: the current date reaches [extract_date] through the
    fallback parser and nowhere else, and the parser is asked only about
    candidates in which the numeric patterns find no valid date, up to
    the first candidate that they settle.  So two evaluations on
    different days return equal results whenever the parser answers
    alike on the two days for these texts; if there is none of them, the
    result is the same on every day. *)
Theorem extract_date_same_on_two_days (d1 d2 : datetime) (t : text) :
  Forall (fun s => dparser_parse d1 s = dparser_parse d2 s)
         (parser_inputs U (date_candidates U t)) ->
  extract_date U dparser_parse d1 t = extract_date U dparser_parse d2 t.
Proof.
  intros H. rewrite !extract_date_candidates.
  now apply first_truthy_parser_inputs.
Qed.

End ClockFacts.

(** The theorem at work on two different days, on a text whose
    candidates all go to the parser: [12.13.2025] is no date for the
    numeric patterns, and [dateutil] reads it as the 13th of December
    2025 on either day. *)
Lemma extract_date_same_on_two_days_witness :
  extract_date ascii_only dateutil_fragment day_2026_11_03 (str "12.13.2025")
  = extract_date ascii_only dateutil_fragment day_2026_12_03 (str "12.13.2025").
Proof.
  apply (extract_date_same_on_two_days ascii_only dateutil_fragment
           day_2026_11_03 day_2026_12_03 (str "12.13.2025")).
  assert (E : parser_inputs ascii_only (date_candidates ascii_only (str "12.13.2025"))
              = [str "12.13.2025"; str "12.13.2025"; str "12.13.2025"])
    by (vm_compute; reflexivity).
  rewrite E. repeat (apply List.Forall_cons; [reflexivity|]). apply List.Forall_nil.
Defined.

(** C9 fails as stated: a text that only gives a day of the month gets
    its month and year from the day the program runs. *)
Lemma extract_date_depends_on_today :
  extract_date ascii_only dateutil_fragment day_2026_11_03 (str "14")
    = Some (str "2026-11-14")
  /\ extract_date ascii_only dateutil_fragment day_2026_12_03 (str "14")
    = Some (str "2026-12-14")
  /\ extract_date ascii_only dateutil_fragment day_2026_11_03 (str "14")
     <> extract_date ascii_only dateutil_fragment day_2026_12_03 (str "14").
Proof.
  split; [vm_compute; reflexivity|]. split; [vm_compute; reflexivity|].
  vm_compute. discriminate.
Qed.

(** ** Patterns that need digits *)

Section DigitFacts.
Context (U : tables).

Lemma digit_set_match ic cs c :
  is_digit_set cs = true -> cs_match U ic cs c = is_digit U c.
Proof.
  destruct cs as [[|[] [|? ?]]| |]; try discriminate. intros _. simpl. apply orb_false_r.
Qed.

Lemma rep_fail_k ic cs k :
  (forall st, digit_free U (st_rest st) -> k st = None) ->
  forall rest lo hi prev off caps,
    digit_free U rest -> rep U ic cs lo hi k prev off rest caps = None.
Proof.
  intros Hk. induction rest as [|c t IH]; intros lo hi prev off caps Hf; simpl.
  - destruct lo; [apply Hk; exact Hf | reflexivity].
  - assert (Hstop : match lo with
                    | 0%nat => k (MState prev off (c :: t) caps)
                    | S _ => None
                    end = None)
      by (destruct lo; [apply Hk; exact Hf | reflexivity]).
    destruct (more_allowed hi && cs_match U ic cs c); [|exact Hstop].
    rewrite IH; [exact Hstop | now inversion Hf].
Qed.

(** Whatever a pattern reads of a text without digits, a text without
    digits remains. *)
Lemma rmatch_fail_k ic r :
  forall k, (forall st, digit_free U (st_rest st) -> k st = None) ->
  forall prev off rest caps,
    digit_free U rest -> rmatch U ic r k prev off rest caps = None.
Proof.
  induction r; intros k Hk prev off rest caps Hf; simpl.
  - apply Hk, Hf.
  - destruct rest as [|c t]; [reflexivity|].
    destruct (cs_match U ic cs c); [|reflexivity]. apply Hk. simpl. now inversion Hf.
  - apply IHr1; [|exact Hf]. intros st Hst. now apply IHr2.
  - rewrite IHr1 by assumption. now apply IHr2.
  - now apply rep_fail_k.
  - rewrite IHr by assumption. apply Hk, Hf.
  - apply IHr; [|exact Hf]. intros st Hst. apply Hk. exact Hst.
  - destruct (at_boundary U prev rest); [apply Hk, Hf | reflexivity].
  - destruct prev; [reflexivity | apply Hk, Hf].
Qed.

Lemma rep_digit_fail ic cs lo hi k prev off rest caps :
  is_digit_set cs = true ->
  match rest with c :: _ => is_digit U c = false | [] => True end ->
  rep U ic cs (S lo) hi k prev off rest caps = None.
Proof.
  intros Hcs Hf. destruct rest as [|c t]; [reflexivity|]. simpl.
  rewrite (digit_set_match _ _ _ Hcs), Hf, andb_false_r. reflexivity.
Qed.

Lemma digit_free_head rest :
  digit_free U rest -> match rest with c :: _ => is_digit U c = false | [] => True end.
Proof. intros Hf. destruct rest; [exact I | now inversion Hf]. Qed.

Lemma rmatch_needs_digit ic r :
  needs_digit r = true ->
  forall k prev off rest caps,
    digit_free U rest -> rmatch U ic r k prev off rest caps = None.
Proof.
  induction r; intros Hn k prev off rest caps Hf; simpl in Hn; try discriminate; simpl.
  - destruct rest as [|c t]; [reflexivity|]. rewrite (digit_set_match _ _ _ Hn).
    inversion Hf as [|? ? Hc _]; subst. now rewrite Hc.
  - apply orb_true_iff in Hn as [Hn | Hn].
    + now apply IHr1.
    + apply rmatch_fail_k; [|exact Hf]. intros st Hst. now apply IHr2.
  - apply andb_true_iff in Hn as [Hn1 Hn2]. rewrite IHr1 by assumption. now apply IHr2.
  - destruct lo; [discriminate|]. apply rep_digit_fail; [exact Hn | now apply digit_free_head].
  - now apply IHr.
Qed.

Lemma rmatch_digit_led ic r :
  digit_led r = true ->
  forall k prev off rest caps,
    match rest with c :: _ => is_digit U c = false | [] => True end ->
    rmatch U ic r k prev off rest caps = None.
Proof.
  induction r; intros Hn k prev off rest caps Hf; simpl in Hn; try discriminate; simpl.
  - destruct rest as [|c t]; [reflexivity|]. rewrite (digit_set_match _ _ _ Hn).
    now rewrite Hf.
  - destruct r1; try (now apply IHr1).
    simpl. destruct (at_boundary U prev rest); [|reflexivity]. now apply IHr2.
  - apply andb_true_iff in Hn as [Hn1 Hn2]. rewrite IHr1 by assumption. now apply IHr2.
  - destruct lo; [discriminate|]. now apply rep_digit_fail.
  - now apply IHr.
Qed.

Lemma match_at_digit_led ic r prev pos s :
  digit_led r = true ->
  match s with c :: _ => is_digit U c = false | [] => True end ->
  match_at U ic r prev pos s = None.
Proof. intros Hr Hs. unfold match_at. now rewrite rmatch_digit_led. Qed.

(** The search passes over characters that are not digits. *)
Lemma search_skip ic r pre rest :
  digit_led r = true -> digit_free U pre ->
  forall prev pos,
    search_from U ic r prev pos (pre ++ rest)
    = search_from U ic r (prev_after prev pre) (pos + length pre) rest.
Proof.
  intros Hr. induction pre as [|c pre IH]; intros Hf prev pos.
  - simpl. now rewrite Nat.add_0_r.
  - inversion Hf as [|? ? Hc Hf']; subst. cbn [app search_from].
    rewrite match_at_digit_led by assumption. rewrite IH by assumption.
    f_equal.
    + unfold prev_after. destruct pre as [|x pre'] using rev_ind;
        [reflexivity | rewrite app_comm_cons, !last_snoc; reflexivity].
    + simpl. lia.
Qed.

Lemma search_digit_free ic r s :
  digit_led r = true -> digit_free U s ->
  forall prev pos, search_from U ic r prev pos s = None.
Proof.
  intros Hr. induction s as [|c s IH]; intros Hf prev pos; cbn [search_from].
  - now rewrite match_at_digit_led.
  - inversion Hf; subst. rewrite match_at_digit_led by assumption. now apply IH.
Qed.

Lemma rep_digit_stop ic cs hi k prev off rest caps :
  is_digit_set cs = true -> digit_free U rest ->
  rep U ic cs 0 hi k prev off rest caps = k (MState prev off rest caps).
Proof.
  intros Hcs Hf. destruct rest as [|c t]; [reflexivity|]. simpl.
  rewrite (digit_set_match _ _ _ Hcs). inversion Hf as [|? ? Hc _]; subst.
  rewrite Hc, andb_false_r. reflexivity.
Qed.

Lemma rep_exhausted ic cs k prev off rest caps :
  rep U ic cs 0 (Some 0%nat) k prev off rest caps = k (MState prev off rest caps).
Proof. destruct rest; reflexivity. Qed.

Lemma rmatch_Seq ic a b k prev off rest caps :
  rmatch U ic (Seq a b) k prev off rest caps
  = rmatch U ic a
      (fun st => rmatch U ic b k (st_prev st) (st_off st) (st_rest st) (st_caps st))
      prev off rest caps.
Proof. reflexivity. Qed.

Lemma rmatch_WordB ic k prev off rest caps :
  rmatch U ic WordB k prev off rest caps
  = if xorb (word_before U prev) (word_after U rest)
    then k (MState prev off rest caps) else None.
Proof. reflexivity. Qed.

Lemma rmatch_Eps ic k prev off rest caps :
  rmatch U ic Eps k prev off rest caps = k (MState prev off rest caps).
Proof. reflexivity. Qed.

Lemma search_from_cons ic r prev pos c t :
  search_from U ic r prev pos (c :: t)
  = match match_at U ic r prev pos (c :: t) with
    | Some mo => Some mo
    | None => search_from U ic r (Some c) (S pos) t
    end.
Proof. reflexivity. Qed.

End DigitFacts.

(** ** The matcher sees a text through its tests

    Two texts whose characters answer alike to the sets of a pattern and
    to [\w] get matches of the same shape. *)

Section Alike.
Context (U : tables) (ic : bool) (rel : char -> char -> Prop).
Context (rel_word : forall c c', rel c c' -> is_word U c = is_word U c').

Lemma at_boundary_alike prev prev' rest rest' :
  option_Forall2 rel prev prev' -> Forall2 rel rest rest' ->
  at_boundary U prev rest = at_boundary U prev' rest'.
Proof.
  intros Hp Hr. unfold at_boundary. f_equal.
  - destruct Hp; simpl; [now apply rel_word | reflexivity].
  - destruct Hr; simpl; [reflexivity | now apply rel_word].
Qed.

Lemma rep_alike cs k k' :
  (forall c c', rel c c' -> cs_match U ic cs c = cs_match U ic cs c') ->
  (forall st st', alike_state rel st st' ->
                  option_Forall2 (alike_state rel) (k st) (k' st')) ->
  forall rest rest', Forall2 rel rest rest' ->
  forall lo hi prev prev' off caps,
    option_Forall2 rel prev prev' ->
    option_Forall2 (alike_state rel)
      (rep U ic cs lo hi k prev off rest caps)
      (rep U ic cs lo hi k' prev' off rest' caps).
Proof.
  intros Hcs Hk rest rest' Hr.
  induction Hr as [|c c' t t' Hc Ht IH]; intros lo hi prev prev' off caps Hp.
  - simpl. destruct lo; [|constructor].
    apply Hk. repeat split; simpl; auto.
  - assert (Hstop : option_Forall2 (alike_state rel)
              match lo with
              | 0%nat => k (MState prev off (c :: t) caps)
              | S _ => None
              end
              match lo with
              | 0%nat => k' (MState prev' off (c' :: t') caps)
              | S _ => None
              end).
    { destruct lo; [|constructor]. apply Hk. repeat split; simpl; auto. }
    simpl. rewrite (Hcs c c' Hc).
    destruct (more_allowed hi && cs_match U ic cs c'); [|exact Hstop].
    specialize (IH (Nat.pred lo) (option_map Nat.pred hi) (Some c) (Some c') (S off) caps
                  (Some_Forall2 _ _ _ Hc)).
    destruct IH; [constructor; assumption | exact Hstop].
Qed.

Lemma rmatch_alike r :
  tests_alike U ic rel r ->
  forall k k',
    (forall st st', alike_state rel st st' ->
                    option_Forall2 (alike_state rel) (k st) (k' st')) ->
    forall prev prev' off rest rest' caps,
      option_Forall2 rel prev prev' -> Forall2 rel rest rest' ->
      option_Forall2 (alike_state rel)
        (rmatch U ic r k prev off rest caps)
        (rmatch U ic r k' prev' off rest' caps).
Proof.
  induction r; intros Ht k k' Hk prev prev' off rest rest' caps Hp Hr; simpl.
  - apply Hk. repeat split; simpl; auto.
  - destruct Hr as [|c c' t t' Hc Hr]; [constructor|].
    rewrite (Ht cs (or_introl eq_refl) c c' Hc).
    destruct (cs_match U ic cs c'); [|constructor].
    apply Hk. repeat split; simpl; auto. now constructor.
  - apply IHr1; auto.
    + intros cs Hcs. apply Ht. simpl. apply List.in_or_app. now left.
    + intros st st' (Ho & Hc & Hp' & Hr'). rewrite Ho, Hc. apply IHr2; auto.
      intros cs Hcs. apply Ht. simpl. apply List.in_or_app. now right.
  - assert (H1 : option_Forall2 (alike_state rel)
                   (rmatch U ic r1 k prev off rest caps)
                   (rmatch U ic r1 k' prev' off rest' caps)).
    { apply IHr1; auto. intros cs Hcs. apply Ht. simpl. apply List.in_or_app. now left. }
    destruct H1; [constructor; assumption|].
    apply IHr2; auto. intros cs Hcs. apply Ht. simpl. apply List.in_or_app. now right.
  - apply rep_alike; auto. apply Ht. now left.
  - assert (H1 : option_Forall2 (alike_state rel)
                   (rmatch U ic r k prev off rest caps)
                   (rmatch U ic r k' prev' off rest' caps))
      by (apply IHr; auto).
    destruct H1; [constructor; assumption|].
    apply Hk. repeat split; simpl; auto.
  - apply IHr; auto.
    intros st st' (Ho & Hc & Hp' & Hr'). apply Hk.
    unfold capture. rewrite Ho, Hc. repeat split; simpl; auto.
  - rewrite (at_boundary_alike prev prev' rest rest' Hp Hr).
    destruct (at_boundary U prev' rest'); [|constructor].
    apply Hk. repeat split; simpl; auto.
  - destruct Hp; [constructor|]. apply Hk. repeat split; simpl; auto. constructor.
Qed.

Lemma match_at_alike r prev prev' pos s s' :
  tests_alike U ic rel r -> option_Forall2 rel prev prev' -> Forall2 rel s s' ->
  option_map m_shape (match_at U ic r prev pos s)
  = option_map m_shape (match_at U ic r prev' pos s').
Proof.
  intros Ht Hp Hs. unfold match_at.
  assert (H : option_Forall2 (alike_state rel)
                (rmatch U ic r Some prev 0 s []) (rmatch U ic r Some prev' 0 s' [])).
  { apply rmatch_alike; auto. intros st st' Hst. now constructor. }
  destruct H as [e e' (Ho & Hc & _ & _)|]; [|reflexivity].
  simpl. unfold m_shape. simpl. rewrite Ho, Hc.
  rewrite !length_take, (Forall2_length _ _ _ Hs). reflexivity.
Qed.

Lemma search_from_alike r s s' :
  tests_alike U ic rel r -> Forall2 rel s s' ->
  forall prev prev' pos,
    option_Forall2 rel prev prev' ->
    option_map m_shape (search_from U ic r prev pos s)
    = option_map m_shape (search_from U ic r prev' pos s').
Proof.
  intros Ht Hs. induction Hs as [|c c' t t' Hc Hs IH]; intros prev prev' pos Hp.
  - simpl.
    assert (Hnil : Forall2 rel [] []) by constructor.
    pose proof (match_at_alike r prev prev' pos [] [] Ht Hp Hnil) as H.
    destruct (match_at U ic r prev pos []), (match_at U ic r prev' pos []);
      simpl in *; congruence.
  - simpl.
    assert (Hcons : Forall2 rel (c :: t) (c' :: t')) by (constructor; assumption).
    pose proof (match_at_alike r prev prev' pos (c :: t) (c' :: t') Ht Hp Hcons) as H.
    destruct (match_at U ic r prev pos (c :: t)),
             (match_at U ic r prev' pos (c' :: t')); simpl in H; try discriminate.
    + exact H.
    + apply IH. now constructor.
Qed.

End Alike.

Lemma take_length_take {A : Type} (n : nat) (l : list A) :
  take (length (take n l)) l = take n l.
Proof.
  revert n. induction l as [|x l IH]; intros [|n]; simpl; try reflexivity.
  now rewrite IH.
Qed.

Section MatchText.
Context (U : tables).

(** The text of a match found from position [pos] on is the part of the
    text that begins where the match starts. *)
Lemma search_from_text ic r s :
  forall prev pos mo,
    search_from U ic r prev pos s = Some mo ->
    (pos <= m_start mo)%nat /\
    m_text mo = take (length (m_text mo)) (drop (m_start mo - pos) s).
Proof.
  induction s as [|c s IH]; intros prev pos mo; simpl.
  - unfold match_at. destruct (rmatch U ic r Some prev 0 [] []); [|discriminate].
    intros [= <-]. cbn [m_start m_text]. split; [lia|].
    rewrite Nat.sub_diag. cbn [drop]. now rewrite take_length_take.
  - unfold match_at at 1. destruct (rmatch U ic r Some prev 0 (c :: s) []) as [e|].
    + intros [= <-]. cbn [m_start m_text]. split; [lia|].
      rewrite Nat.sub_diag. cbn [drop]. now rewrite take_length_take.
    + intros H. apply IH in H as [Hle Ht]. split; [lia|].
      replace (m_start mo - pos)%nat with (S (m_start mo - S pos)) by lia.
      exact Ht.
Qed.

End MatchText.

(** ** The date patterns on date fragments

    The date patterns test a character for four sets and for [\w].  A
    fragment of given widths is therefore matched like the fragment of
    the same widths written with zeros, which a computation settles. *)

Section DateClasses.
Context (U : tables).

Lemma same_class_refl c : same_class U c c.
Proof. split; [repeat constructor | reflexivity]. Qed.

Lemma same_class_word c c' : same_class U c c' -> is_word U c = is_word U c'.
Proof. now intros [_ H]. Qed.

Lemma date_tests_alike r :
  In r DATE_REGEXES -> tests_alike U true (same_class U) r.
Proof.
  intros Hr cs Hcs c c' [Hall _].
  rewrite Forall_forall in Hall. apply Hall. apply list_elem_of_In.
  simpl in Hr. destruct Hr as [<- | [<- | [<- | []]]]; simpl in Hcs;
    repeat (destruct Hcs as [<- | Hcs]; [simpl; tauto|]); destruct Hcs.
Qed.

(** An ASCII digit is like [0], a dash or a slash is like [-]. *)
Lemma digit_class c : ascii_digit c = true -> same_class U c 48.
Proof.
  intros H. pose proof H as H'. unfold ascii_digit in H'.
  apply andb_true_iff in H' as [H1 H2]. apply N.leb_le in H1, H2.
  assert (Hc : c < 128) by lia.
  apply (ascii_forall (fun c => implb (ascii_digit c)
           (eqb (cs_match U true digit c) (cs_match U true digit 48) &&
            eqb (cs_match U true date_sep c) (cs_match U true date_sep 48) &&
            eqb (cs_match U true space c) (cs_match U true space 48) &&
            eqb (cs_match U true dot c) (cs_match U true dot 48) &&
            eqb (is_word U c) (is_word U 48)))) in Hc;
    [|vm_compute; reflexivity].
  rewrite H in Hc. simpl in Hc.
  apply andb_true_iff in Hc as [Hc H5]. apply andb_true_iff in Hc as [Hc H4].
  apply andb_true_iff in Hc as [Hc H3]. apply andb_true_iff in Hc as [Hc H2'].
  apply eqb_prop in Hc, H2', H3, H4, H5.
  split; [repeat constructor; assumption | assumption].
Qed.

Lemma other_sep_class c : other_sep c -> same_class U c 45.
Proof. intros [-> | ->]; (split; [repeat constructor | reflexivity]). Qed.

Lemma sep_cases c : is_date_sep c -> c = 46 \/ other_sep c.
Proof. unfold other_sep. intros [-> | [-> | ->]]; auto. Qed.

Lemma Forall2_same_refl s : Forall2 (same_class U) s s.
Proof. induction s; constructor; auto using same_class_refl. Qed.

Lemma option_same_refl p : option_Forall2 (same_class U) p p.
Proof. destruct p; constructor. apply same_class_refl. Qed.

Lemma search_transport_none r prev pos s s' :
  In r DATE_REGEXES -> Forall2 (same_class U) s s' ->
  search_from U true r prev pos s' = None ->
  search_from U true r prev pos s = None.
Proof.
  intros Hr Hs H.
  pose proof (search_from_alike U true (same_class U) same_class_word r s s'
                (date_tests_alike r Hr) Hs prev prev pos (option_same_refl prev)) as Ha.
  rewrite H in Ha. destruct (search_from U true r prev pos s); [discriminate | reflexivity].
Qed.

Lemma search_transport_some r prev pos s s' n spans :
  In r DATE_REGEXES -> Forall2 (same_class U) s s' ->
  search_from U true r prev pos s' = Some (MatchObj pos (take n s') spans) ->
  (n <= length s')%nat ->
  search_from U true r prev pos s = Some (MatchObj pos (take n s) spans).
Proof.
  intros Hr Hs H Hn.
  pose proof (search_from_alike U true (same_class U) same_class_word r s s'
                (date_tests_alike r Hr) Hs prev prev pos (option_same_refl prev)) as Ha.
  rewrite H in Ha. destruct (search_from U true r prev pos s) as [mo|] eqn:E; [|discriminate].
  apply search_from_text in E as [_ Ht].
  destruct mo as [st tx sp]. unfold m_shape in Ha. simpl in *.
  injection Ha as -> Hl ->. rewrite Nat.sub_diag in Ht. simpl in Ht.
  rewrite Hl, length_take, Nat.min_l in Ht by lia. now rewrite Ht.
Qed.

Lemma fragment_transport_none r prev pos frag frag' post :
  In r DATE_REGEXES -> Forall2 (same_class U) frag frag' ->
  search_from U true r prev pos (frag' ++ post) = None ->
  search_from U true r prev pos (frag ++ post) = None.
Proof.
  intros Hr Hf. apply search_transport_none; [exact Hr|].
  apply Forall2_app; [exact Hf | apply Forall2_same_refl].
Qed.

Lemma fragment_transport_some r prev pos frag frag' post spans :
  In r DATE_REGEXES -> Forall2 (same_class U) frag frag' ->
  search_from U true r prev pos (frag' ++ post) = Some (MatchObj pos frag' spans) ->
  search_from U true r prev pos (frag ++ post) = Some (MatchObj pos frag spans).
Proof.
  intros Hr Hf H.
  pose proof (Forall2_length _ _ _ Hf) as Hl.
  replace (MatchObj pos frag spans)
    with (MatchObj pos (take (length frag') (frag ++ post)) spans)
    by (now rewrite <- Hl, take_app_length).
  apply (search_transport_some r prev pos _ (frag' ++ post)); [exact Hr | | | ].
  - apply Forall2_app; [exact Hf | apply Forall2_same_refl].
  - now rewrite take_app_length.
  - rewrite length_app. lia.
Qed.

End DateClasses.

(** From here on the matcher is unfolded only on a text whose next
    character is known, so that what is left to match on an unknown rest
    stays in a form the lemmas on digit-free texts apply to. *)
#[local] Arguments rmatch U ic !r k prev off !rest caps /.
#[local] Arguments rep U ic cs lo hi k prev off !rest caps /.
#[local] Arguments word_after U !rest /.
#[local] Arguments word_before U !prev /.

Section DatePatterns.
Context (U : tables).

(** A continuation fails on digit-free texts when what it still has to
    match needs a digit. *)
Ltac solve_k :=
  let st := fresh "st" in let Hst := fresh "Hst" in
  intros st Hst; cbn beta;
  first [ reflexivity
        | apply rmatch_needs_digit; [reflexivity | exact Hst] ].

(** Settle the terms a computation cannot: the boundary tests next to the
    fragment and the matcher on the rest after the fragment. *)
Ltac stuck_terms :=
  repeat match goal with
  | H : word_before U ?p = _ |- context [word_before U ?p] => rewrite H
  | H : word_after U ?p = _ |- context [word_after U ?p] => rewrite H
  | |- context [rep U ?ic ?cs 0 (Some 0%nat) ?k ?p ?o ?r ?c] => rewrite (rep_exhausted U ic cs k p o r c)
  | H : digit_free U ?r |- context [rep U ?ic ?cs 0 ?hi ?k ?p ?o ?r ?c] =>
      rewrite (rep_digit_stop U ic cs hi k p o r c eq_refl H)
  | H : digit_free U ?r |- context [rep U ?ic ?cs (S ?lo) ?hi ?k ?p ?o ?r ?c] =>
      rewrite (rep_digit_fail U ic cs lo hi k p o r c eq_refl (digit_free_head U r H))
  | H : digit_free U ?r |- context [rep U ?ic ?cs ?lo ?hi ?k ?p ?o ?r ?c] =>
      rewrite (rep_fail_k U ic cs k ltac:(solve_k) r lo hi p o c H)
  | H : digit_free U ?r |- context [rmatch U ?ic ?rx ?k ?p ?o ?r ?c] =>
      first [ rewrite (rmatch_needs_digit U ic rx eq_refl k p o r c H)
            | rewrite (rmatch_fail_k U ic rx k ltac:(solve_k) p o r c H)
            | rewrite (rmatch_Seq U ic _ _ k p o r c)
            | rewrite (rmatch_WordB U ic k p o r c)
            | rewrite (rmatch_Eps U ic k p o r c) ]
  | H : digit_free U ?r |- context [search_from U ?ic ?rx ?p ?o ?r] =>
      rewrite (search_digit_free U ic rx r eq_refl H p o)
  end.

(** Run the matcher on a fragment written out, followed by a rest. *)
Ltac run_matcher := repeat (progress (unfold at_boundary, match_at; cbn; rewrite ?take_0; stuck_terms)).


(** The lists of digits of the widths that [digits_of_width] allows. *)
Ltac shape g :=
  match goal with
  | H : digits_of_width _ _ g |- _ =>
      let Hall := fresh "Hall" in let Hlo := fresh "Hlo" in let Hhi := fresh "Hhi" in
      destruct H as (Hall & Hlo & Hhi);
      destruct g as [|? [|? [|? [|? [|? ?]]]]]; simpl in Hlo, Hhi; try lia;
      clear Hlo Hhi
  end.

(** Character by character, the fragment is like the one written with
    [0] for every digit and [-] for a dash or a slash. *)
Ltac alike_fragment :=
  repeat first
    [ apply List.Forall2_nil
    | apply List.Forall2_cons;
        [ first [ apply digit_class;
                  match goal with
                  | H : Forall _ ?l |- _ =>
                      let H' := fresh in
                      pose proof (proj1 (Forall_forall _ l) H) as H';
                      apply H'; apply list_elem_of_In; simpl; tauto
                  end
                | apply other_sep_class; assumption
                | apply same_class_refl ] | ] ].

(** Settle a search on a fragment by the search on its representative. *)
Ltac by_class_some :=
  eapply fragment_transport_some;
    [ simpl; tauto
    | unfold date_fragment; cbn [app]; alike_fragment
    | cbn [seq fold_right app star]; run_matcher; reflexivity ].

Ltac by_class_none :=
  eapply fragment_transport_none;
    [ simpl; tauto
    | unfold date_fragment; cbn [app]; alike_fragment
    | cbn [seq fold_right app star]; run_matcher; reflexivity ].

Ltac sep_split s Hs :=
  let Ho := fresh "Ho" in
  destruct (sep_cases s Hs) as [-> | Ho].

Lemma dmy_on_day_first f g1 g2 g3 s1 s2 prev pos post :
  day_first f -> well_formed f g1 g2 g3 -> is_date_sep s1 -> is_date_sep s2 ->
  word_before U prev = false -> word_after U post = false -> digit_free U post ->
  search_from U true DATE_DMY prev pos (date_fragment g1 s1 g2 s2 g3 ++ post)
  = Some (MatchObj pos (date_fragment g1 s1 g2 s2 g3) (date_spans g1 g2 g3)).
Proof.
  intros Hf Hwf Hs1 Hs2 Hprev Hpost Hdf.
  sep_split s1 Hs1; sep_split s2 Hs2;
  destruct Hf as [-> | ->]; destruct Hwf as (H1 & H2 & H3);
    shape g1; shape g2; shape g3;
    unfold date_spans, DATE_DMY; cbn [length Nat.add]; by_class_some.
Qed.

Lemma dmy_on_year_first g1 g2 g3 s1 s2 prev pos post :
  well_formed YMD g1 g2 g3 -> is_date_sep s1 -> is_date_sep s2 ->
  word_before U prev = false -> word_after U post = false -> digit_free U post ->
  search_from U true DATE_DMY prev pos (date_fragment g1 s1 g2 s2 g3 ++ post) = None.
Proof.
  intros Hwf Hs1 Hs2 Hprev Hpost Hdf.
  sep_split s1 Hs1; sep_split s2 Hs2;
  destruct Hwf as (H1 & H2 & H3);
    shape g1; shape g2; shape g3;
    unfold DATE_DMY; by_class_none.
Qed.

Lemma ymd_on_year_first g1 g2 g3 s1 s2 prev pos post :
  well_formed YMD g1 g2 g3 -> is_date_sep s1 -> is_date_sep s2 ->
  word_before U prev = false -> word_after U post = false -> digit_free U post ->
  search_from U true DATE_YMD prev pos (date_fragment g1 s1 g2 s2 g3 ++ post)
  = Some (MatchObj pos (date_fragment g1 s1 g2 s2 g3) (date_spans g1 g2 g3)).
Proof.
  intros Hwf Hs1 Hs2 Hprev Hpost Hdf.
  sep_split s1 Hs1; sep_split s2 Hs2;
  destruct Hwf as (H1 & H2 & H3);
    shape g1; shape g2; shape g3;
    unfold date_spans, DATE_YMD; cbn [length Nat.add]; by_class_some.
Qed.

Lemma ymd_on_day_first f g1 g2 g3 s1 s2 prev pos post :
  day_first f -> well_formed f g1 g2 g3 -> is_date_sep s1 -> is_date_sep s2 ->
  word_before U prev = false -> word_after U post = false -> digit_free U post ->
  search_from U true DATE_YMD prev pos (date_fragment g1 s1 g2 s2 g3 ++ post) = None.
Proof.
  intros Hf Hwf Hs1 Hs2 Hprev Hpost Hdf.
  sep_split s1 Hs1; sep_split s2 Hs2;
  destruct Hf as [-> | ->]; destruct Hwf as (H1 & H2 & H3);
    shape g1; shape g2; shape g3;
    unfold DATE_YMD; by_class_none.
Qed.

Lemma spaced_on_day_first f g1 g2 g3 s1 s2 prev pos post :
  day_first f -> well_formed f g1 g2 g3 -> is_date_sep s1 -> is_date_sep s2 ->
  word_before U prev = false -> word_after U post = false -> digit_free U post ->
  search_from U true DATE_DMY_SPACED prev pos (date_fragment g1 s1 g2 s2 g3 ++ post) = None \/
  search_from U true DATE_DMY_SPACED prev pos (date_fragment g1 s1 g2 s2 g3 ++ post)
  = Some (MatchObj pos (date_fragment g1 s1 g2 s2 g3) (date_spans g1 g2 g3)).
Proof.
  intros Hf Hwf Hs1 Hs2 Hprev Hpost Hdf.
  sep_split s1 Hs1; sep_split s2 Hs2;
  destruct Hf as [-> | ->]; destruct Hwf as (H1 & H2 & H3);
    shape g1; shape g2; shape g3;
    unfold date_spans, DATE_DMY_SPACED; cbn [length Nat.add];
    first [ left; by_class_none | right; by_class_some ].
Qed.

Lemma spaced_on_year_first g1 g2 g3 s1 s2 prev pos post :
  well_formed YMD g1 g2 g3 -> is_date_sep s1 -> is_date_sep s2 ->
  word_before U prev = false -> word_after U post = false -> digit_free U post ->
  search_from U true DATE_DMY_SPACED prev pos (date_fragment g1 s1 g2 s2 g3 ++ post) = None.
Proof.
  intros Hwf Hs1 Hs2 Hprev Hpost Hdf.
  sep_split s1 Hs1; sep_split s2 Hs2;
  destruct Hwf as (H1 & H2 & H3);
    shape g1; shape g2; shape g3;
    unfold DATE_DMY_SPACED; by_class_none.
Qed.

End DatePatterns.

(** ** Numeric dates in their context *)

Lemma lstrip_by_app p pre x rest :
  p x = false -> lstrip_by p (pre ++ x :: rest) = lstrip_by p pre ++ x :: rest.
Proof.
  intros Hx. induction pre as [|c pre IH]; simpl.
  - now rewrite Hx.
  - destruct (p c); [exact IH | reflexivity].
Qed.

Lemma lstrip_by_suffix p s : exists l, s = l ++ lstrip_by p s.
Proof.
  induction s as [|c s [l IH]]; simpl.
  - now exists [].
  - destruct (p c).
    + exists (c :: l). simpl. now rewrite <- IH.
    + now exists [].
Qed.

Lemma rstrip_by_app p pre x post :
  p x = false -> rstrip_by p (pre ++ x :: post) = pre ++ x :: rstrip_by p post.
Proof.
  intros Hx. unfold rstrip_by.
  rewrite rev_app_distr. simpl. rewrite <- app_assoc. simpl.
  rewrite lstrip_by_app by exact Hx.
  rewrite rev_app_distr. simpl. rewrite rev_involutive, <- app_assoc. reflexivity.
Qed.

Lemma rstrip_by_prefix p s : exists l, s = rstrip_by p s ++ l.
Proof.
  unfold rstrip_by. destruct (lstrip_by_suffix p (rev s)) as [l Hl].
  exists (rev l). rewrite <- rev_app_distr, <- Hl. now rewrite rev_involutive.
Qed.

Section NumericDates.
Context (U : tables).

Lemma digit_not_space c : ascii_digit c = true -> is_space U c = false.
Proof.
  intros H. pose proof H as H'. unfold ascii_digit in H'.
  apply andb_true_iff in H' as [H1 H2]. apply N.leb_le in H1, H2.
  assert (Hc : c < 128) by lia.
  apply (ascii_forall (fun c => implb (ascii_digit c) (negb (is_space U c)))) in Hc;
    [|vm_compute; reflexivity].
  rewrite H in Hc. now apply negb_true_iff in Hc.
Qed.

Lemma digit_value_ascii c :
  ascii_digit c = true ->
  exists v, digit_value U c = Some v /\ (0 <= v <= 9)%Z.
Proof.
  intros H. unfold digit_value. pose proof H as H'. unfold ascii_digit in H'.
  apply andb_true_iff in H' as [H1 H2]. apply N.leb_le in H1, H2.
  unfold is_ascii. destruct (N.ltb_spec c 128); [|lia]. rewrite H.
  eexists. split; [reflexivity | lia].
Qed.

(** Stripping a text around a fragment that begins and ends with a
    digit strips the surroundings only, and keeps them quiet. *)
Lemma strip_around x mid z pre post :
  ascii_digit x = true -> ascii_digit z = true ->
  quiet_context U pre post ->
  exists pre' post',
    strip U (pre ++ (x :: mid ++ [z]) ++ post) = pre' ++ (x :: mid ++ [z]) ++ post'
    /\ quiet_context U pre' post'.
Proof.
  intros Hx Hz (Hpre & Hpost & Hb & Ha).
  exists (lstrip_by (is_space U) pre), (rstrip_by (is_space U) post). split.
  - unfold strip, strip_by.
    change (pre ++ (x :: mid ++ [z]) ++ post)
      with (pre ++ x :: ((mid ++ [z]) ++ post)).
    rewrite lstrip_by_app by now apply digit_not_space.
    set (L := lstrip_by (is_space U) pre).
    assert (E1 : L ++ x :: (mid ++ [z]) ++ post = (L ++ x :: mid) ++ z :: post)
      by (repeat (rewrite <- ?app_assoc; cbn [app]); reflexivity).
    rewrite E1, rstrip_by_app by now apply digit_not_space.
    repeat (rewrite <- ?app_assoc; cbn [app]). reflexivity.
  - destruct (lstrip_by_suffix (is_space U) pre) as [l Hl].
    destruct (rstrip_by_prefix (is_space U) post) as [l' Hl'].
    repeat split.
    + unfold digit_free in *. rewrite Hl in Hpre. now apply Forall_app in Hpre as [_ ?].
    + unfold digit_free in *. rewrite Hl' in Hpost. now apply Forall_app in Hpost as [? _].
    + destruct (lstrip_by (is_space U) pre) as [|c t] eqn:E; [reflexivity|].
      rewrite Hl in Hb. rewrite <- E in *.
      destruct (lstrip_by (is_space U) pre) as [|c' t'] using rev_ind; [discriminate|].
      rewrite app_assoc, last_snoc in Hb. now rewrite last_snoc.
    + destruct (rstrip_by (is_space U) post) as [|c t] eqn:E; [reflexivity|].
      rewrite Hl' in Ha. exact Ha.
Qed.

Lemma well_formed_ends f g1 g2 g3 s1 s2 :
  well_formed f g1 g2 g3 ->
  exists x mid z,
    date_fragment g1 s1 g2 s2 g3 = x :: mid ++ [z] /\
    ascii_digit x = true /\ ascii_digit z = true.
Proof.
  intros Hwf.
  assert (H : (Forall (fun c => ascii_digit c = true) g1 /\ (1 <= length g1)%nat) /\
              (Forall (fun c => ascii_digit c = true) g3 /\ (1 <= length g3)%nat)).
  { destruct f; destruct Hwf as ((?&?&?) & (?&?&?) & (?&?&?)); repeat split; auto; lia. }
  destruct H as [[H1 L1] [H3 L3]].
  destruct g1 as [|x g1']; [simpl in L1; lia|].
  destruct g3 as [|z g3'] using rev_ind; [simpl in L3; lia|].
  exists x, (g1' ++ s1 :: g2 ++ s2 :: g3'), z. unfold date_fragment. split.
  - repeat (rewrite <- ?app_assoc; cbn [app]). reflexivity.
  - split; [now inversion H1|]. apply Forall_app in H3 as [_ H3]. now inversion H3.
Qed.

(** The groups of a match with the spans of a fragment are the groups
    of the fragment. *)
Lemma group_of_fragment pos g1 s1 g2 s2 g3 :
  let mo := MatchObj pos (date_fragment g1 s1 g2 s2 g3) (date_spans g1 g2 g3) in
  group mo 1 = g1 /\ group mo 2 = g2 /\ group mo 3 = g3.
Proof.
  unfold group, date_spans, date_fragment. cbn [m_spans m_text assoc Nat.eqb].
  split; [|split].
  - rewrite Nat.sub_0_r. cbn [drop]. apply take_app_length.
  - replace (length g1 + 1 + length g2 - (length g1 + 1))%nat with (length g2) by lia.
    replace (g1 ++ s1 :: g2 ++ s2 :: g3) with ((g1 ++ [s1]) ++ g2 ++ s2 :: g3)
      by (repeat (rewrite <- ?app_assoc; cbn [app]); reflexivity).
    rewrite drop_app_length' by (rewrite ?length_app; cbn [length]; lia).
    apply take_app_length.
  - replace (length g1 + 1 + length g2 + 1 + length g3
             - (length g1 + 1 + length g2 + 1))%nat with (length g3) by lia.
    replace (g1 ++ s1 :: g2 ++ s2 :: g3) with ((g1 ++ [s1] ++ g2 ++ [s2]) ++ g3)
      by (repeat (rewrite <- ?app_assoc; cbn [app]); reflexivity).
    rewrite drop_app_length' by (rewrite ?length_app; cbn [length app]; rewrite ?length_app; cbn [length]; lia).
    apply take_ge. lia.
Qed.

Lemma int_of_two_digits g :
  digits_of_width 2 2 g -> (int_of_text U g < 100)%Z.
Proof.
  intros (Hall & Hlo & Hhi).
  destruct g as [|a [|b [|? ?]]]; simpl in Hlo, Hhi; try lia.
  inversion Hall as [|? ? Ha Hall']; subst. inversion Hall' as [|? ? Hb _]; subst.
  destruct (digit_value_ascii a Ha) as (va & Ea & Hva).
  destruct (digit_value_ascii b Hb) as (vb & Eb & Hvb).
  unfold int_of_text. simpl. rewrite Ea, Eb. lia.
Qed.

(** The order the code gives the groups by their widths is the reading
    of the form. *)
Lemma order_groups_reading f g1 g2 g3 :
  well_formed f g1 g2 g3 -> order_groups U g1 g2 g3 = reading U f g1 g2 g3.
Proof.
  unfold order_groups, reading.
  destruct f; intros ((A1 & L1 & H1) & (A2 & L2 & H2) & (A3 & L3 & H3)).
  - replace (length g1) with 4%nat by lia. reflexivity.
  - destruct (Nat.eqb_spec (length g1) 4); [lia|].
    replace (length g3) with 4%nat by lia. reflexivity.
  - destruct (Nat.eqb_spec (length g1) 4); [lia|].
    destruct (Nat.eqb_spec (length g3) 4); [lia|].
    pose proof (int_of_two_digits g3 (conj A3 (conj L3 H3))) as Hlt.
    destruct (Z.ltb_spec (int_of_text U g3) 100); [reflexivity | lia].
Qed.

Lemma date_of_match_fragment f pos g1 s1 g2 s2 g3 y m d :
  well_formed f g1 g2 g3 -> reading U f g1 g2 g3 = (y, m, d) ->
  date_of_match U (MatchObj pos (date_fragment g1 s1 g2 s2 g3) (date_spans g1 g2 g3))
  = option_map (strftime U) (datetime_new y m d).
Proof.
  intros Hwf Hr. unfold date_of_match.
  destruct (group_of_fragment pos g1 s1 g2 s2 g3) as (-> & -> & ->).
  now rewrite (order_groups_reading f), Hr.
Qed.

(** [re.search] with a date pattern on a fragment in a quiet context is
    the search at the fragment. *)
Lemma re_search_in_context r pre rest :
  digit_led r = true -> digit_free U pre ->
  re_search U true r (pre ++ rest)
  = search_from U true r (last pre) (length pre) rest.
Proof.
  intros Hr Hpre. unfold re_search. rewrite search_skip by assumption.
  f_equal. unfold prev_after. now destruct (last pre).
Qed.

End NumericDates.

Section NumericResults.
Context (U : tables).

Lemma numeric_date_valid f g1 s1 g2 s2 g3 pre post y m d :
  well_formed f g1 g2 g3 -> is_date_sep s1 -> is_date_sep s2 ->
  quiet_context U pre post ->
  reading U f g1 g2 g3 = (y, m, d) -> valid_ymd y m d = true ->
  numeric_date U DATE_REGEXES (pre ++ date_fragment g1 s1 g2 s2 g3 ++ post)
  = Some (isoformat U y m d).
Proof.
  intros Hwf Hs1 Hs2 (Hpre & Hpost & Hb & Ha) Hr Hv.
  unfold DATE_REGEXES. cbn [numeric_date].
  destruct f.
  - rewrite re_search_in_context by (reflexivity || assumption).
    rewrite dmy_on_year_first by assumption.
    rewrite re_search_in_context by (reflexivity || assumption).
    rewrite ymd_on_year_first by assumption.
    rewrite (date_of_match_fragment U YMD _ _ _ _ _ _ y m d Hwf Hr).
    now rewrite strftime_new.
  - rewrite re_search_in_context by (reflexivity || assumption).
    rewrite (dmy_on_day_first U DMY) by (assumption || (left; reflexivity)).
    rewrite (date_of_match_fragment U DMY _ _ _ _ _ _ y m d Hwf Hr).
    now rewrite strftime_new.
  - rewrite re_search_in_context by (reflexivity || assumption).
    rewrite (dmy_on_day_first U DMY2) by (assumption || (right; reflexivity)).
    rewrite (date_of_match_fragment U DMY2 _ _ _ _ _ _ y m d Hwf Hr).
    now rewrite strftime_new.
Qed.

Lemma numeric_date_invalid f g1 s1 g2 s2 g3 pre post y m d :
  well_formed f g1 g2 g3 -> is_date_sep s1 -> is_date_sep s2 ->
  quiet_context U pre post ->
  reading U f g1 g2 g3 = (y, m, d) -> valid_ymd y m d = false ->
  numeric_date U DATE_REGEXES (pre ++ date_fragment g1 s1 g2 s2 g3 ++ post) = None.
Proof.
  intros Hwf Hs1 Hs2 (Hpre & Hpost & Hb & Ha) Hr Hv.
  assert (Hd : forall pos,
             date_of_match U (MatchObj pos (date_fragment g1 s1 g2 s2 g3)
                                (date_spans g1 g2 g3)) = None).
  { intros pos. rewrite (date_of_match_fragment U f _ _ _ _ _ _ y m d Hwf Hr).
    now rewrite datetime_new_invalid. }
  unfold DATE_REGEXES. cbn [numeric_date].
  rewrite !re_search_in_context by (reflexivity || assumption).
  destruct f.
  - rewrite dmy_on_year_first, ymd_on_year_first, Hd, spaced_on_year_first by assumption.
    reflexivity.
  - rewrite (dmy_on_day_first U DMY), Hd, (ymd_on_day_first U DMY)
      by (assumption || (left; reflexivity)).
    destruct (spaced_on_day_first U DMY g1 g2 g3 s1 s2 (last pre) (length pre) post)
      as [-> | ->]; try assumption; [left; reflexivity | reflexivity | now rewrite Hd].
  - rewrite (dmy_on_day_first U DMY2), Hd, (ymd_on_day_first U DMY2)
      by (assumption || (right; reflexivity)).
    destruct (spaced_on_day_first U DMY2 g1 g2 g3 s1 s2 (last pre) (length pre) post)
      as [-> | ->]; try assumption; [right; reflexivity | reflexivity | now rewrite Hd].
Qed.

Context (dparser_parse : datetime -> text -> option datetime).
Context (today : datetime).

Lemma strip_fragment f g1 s1 g2 s2 g3 pre post :
  well_formed f g1 g2 g3 -> quiet_context U pre post ->
  exists pre' post',
    strip U (pre ++ date_fragment g1 s1 g2 s2 g3 ++ post)
    = pre' ++ date_fragment g1 s1 g2 s2 g3 ++ post'
    /\ quiet_context U pre' post'.
Proof.
  intros Hwf Hq.
  destruct (well_formed_ends f g1 g2 g3 s1 s2 Hwf) as (x & mid & z & -> & Hx & Hz).
  now apply strip_around.
Qed.

(** C1, as amended: a text that holds a valid numeric date written
    year-month-day, day-month-year or day-month-year with a two-digit
    year, between word boundaries and with no other digit around it, is
    normalized to that date: its groups are read by their widths, a
    two-digit year [v] as [2000 + v], and the result is the [strftime]
    text of the date, which from the year 1000 on is [YYYY-MM-DD].  The
    three examples of the specification follow by computation. *)
Theorem normalize_date_numeric_fragment :
  (forall f g1 s1 g2 s2 g3 pre post y m d,
      well_formed f g1 g2 g3 -> is_date_sep s1 -> is_date_sep s2 ->
      quiet_context U pre post ->
      reading U f g1 g2 g3 = (y, m, d) ->
      valid_ymd y m d = true ->
      normalize_date U dparser_parse today (pre ++ date_fragment g1 s1 g2 s2 g3 ++ post)
      = Some (isoformat U y m d)
      /\ ((1000 <= y)%Z ->
          isoformat U y m d
          = four_digits y ++ str "-" ++ two_digits m ++ str "-" ++ two_digits d))
  /\ normalize_date U dparser_parse today (str "2025-09-12") = Some (str "2025-09-12")
  /\ normalize_date U dparser_parse today (str "12.09.2025") = Some (str "2025-09-12")
  /\ normalize_date U dparser_parse today (str "12/9/25") = Some (str "2025-09-12").
Proof.
  split; [|repeat split; vm_compute; reflexivity].
  intros f g1 s1 g2 s2 g3 pre post y m d Hwf Hs1 Hs2 Hq Hr Hv.
  destruct (strip_fragment f g1 s1 g2 s2 g3 pre post Hwf Hq) as (pre' & post' & E & Hq').
  split.
  - unfold normalize_date. rewrite E.
    now rewrite (numeric_date_valid f g1 s1 g2 s2 g3 pre' post' y m d).
  - intros Hy. unfold isoformat, fmt_year.
    destruct (Z.leb_spec 1000 y); [reflexivity | lia].
Qed.

(** C3, as amended: when the numeric date of such a text is not a real
    calendar date, no error arises and the numeric patterns yield
    nothing: the result is what the fallback parser makes of the stripped
    text, absence if it finds no date. *)
Theorem normalize_date_invalid_falls_back f g1 s1 g2 s2 g3 pre post y m d :
  well_formed f g1 g2 g3 -> is_date_sep s1 -> is_date_sep s2 ->
  quiet_context U pre post ->
  reading U f g1 g2 g3 = (y, m, d) ->
  valid_ymd y m d = false ->
  normalize_date U dparser_parse today (pre ++ date_fragment g1 s1 g2 s2 g3 ++ post)
  = fallback_date U dparser_parse today
      (strip U (pre ++ date_fragment g1 s1 g2 s2 g3 ++ post))
  /\ (dparser_parse today (strip U (pre ++ date_fragment g1 s1 g2 s2 g3 ++ post)) = None ->
      normalize_date U dparser_parse today (pre ++ date_fragment g1 s1 g2 s2 g3 ++ post)
      = None).
Proof.
  intros Hwf Hs1 Hs2 Hq Hr Hv.
  destruct (strip_fragment f g1 s1 g2 s2 g3 pre post Hwf Hq) as (pre' & post' & E & Hq').
  assert (Hn : normalize_date U dparser_parse today
                 (pre ++ date_fragment g1 s1 g2 s2 g3 ++ post)
               = fallback_date U dparser_parse today
                   (strip U (pre ++ date_fragment g1 s1 g2 s2 g3 ++ post))).
  { unfold normalize_date. rewrite E.
    now rewrite (numeric_date_invalid f g1 s1 g2 s2 g3 pre' post' y m d). }
  split; [exact Hn|]. intros Hp. rewrite Hn. unfold fallback_date. now rewrite Hp.
Qed.

End NumericResults.

(** The theorem at work on a date inside a sentence. *)
Lemma normalize_date_numeric_fragment_witness :
  normalize_date ascii_only dateutil_fragment day_2026_11_03
    (str "Date: 12.09.2025 thanks")
  = Some (str "2025-09-12").
Proof.
  refine (proj1 (proj1 (normalize_date_numeric_fragment ascii_only dateutil_fragment
                          day_2026_11_03)
                   DMY (str "12") (chr ".") (str "09") (chr ".") (str "2025")
                   (str "Date: ") (str " thanks") 2025%Z 9%Z 12%Z _ _ _ _ _ _)).
  - repeat split; repeat constructor.
  - left; reflexivity.
  - left; reflexivity.
  - repeat split; repeat constructor.
  - reflexivity.
  - reflexivity.
Defined.

(** C1 fails as stated.  The text [1.1.202 2025-09-12] holds the valid
    date [2025-09-12], written year first, but the first pattern finds
    [1.1.202] before it, and the result is the first of January of the
    year 202.  And the valid date [0001-01-01] is read as the year 1,
    which [strftime] does not render as [YYYY-MM-DD] where the C library
    leaves small years unpadded. *)
Lemma normalize_date_other_match_first :
  well_formed YMD (str "2025") (str "09") (str "12")
  /\ reading ascii_only YMD (str "2025") (str "09") (str "12") = (2025, 9, 12)%Z
  /\ valid_ymd 2025 9 12 = true
  /\ str "1.1.202 2025-09-12"
     = str "1.1.202 " ++ date_fragment (str "2025") (chr "-") (str "09") (chr "-") (str "12")
  /\ normalize_date ascii_only dateutil_fragment day_2026_11_03 (str "1.1.202 2025-09-12")
     = Some (str "202-01-01")
  /\ well_formed YMD (str "0001") (str "01") (str "01")
  /\ reading ascii_only YMD (str "0001") (str "01") (str "01") = (1, 1, 1)%Z
  /\ valid_ymd 1 1 1 = true
  /\ str "0001-01-01"
     = date_fragment (str "0001") (chr "-") (str "01") (chr "-") (str "01")
  /\ normalize_date ascii_only dateutil_fragment day_2026_11_03 (str "0001-01-01")
     = Some (str "1-01-01").
Proof.
  split; [repeat split; repeat constructor|].
  split; [reflexivity|]. split; [reflexivity|]. split; [reflexivity|].
  split; [vm_compute; reflexivity|].
  split; [repeat split; repeat constructor|].
  repeat split; vm_compute; reflexivity.
Qed.

(** The theorem at work on the thirtieth of February. *)
Lemma normalize_date_invalid_falls_back_witness :
  normalize_date ascii_only dateutil_fragment day_2026_11_03 (str "30.02.2025") = None.
Proof.
  refine (proj2 (normalize_date_invalid_falls_back ascii_only dateutil_fragment
                   day_2026_11_03 DMY (str "30") (chr ".") (str "02") (chr ".")
                   (str "2025") [] [] 2025%Z 2%Z 30%Z _ _ _ _ _ _) _).
  - repeat split; repeat constructor.
  - left; reflexivity.
  - left; reflexivity.
  - repeat split; repeat constructor.
  - reflexivity.
  - reflexivity.
  - reflexivity.
Defined.

(** C3 fails as stated: [12.13.2025] matches the first pattern with day
    12 and month 13, which is no date, and the fallback parser then reads
    it with month and day exchanged, so a date comes back.  The
    thirtieth of February does give absence. *)
Lemma normalize_date_month_13_swapped :
  well_formed DMY (str "12") (str "13") (str "2025")
  /\ reading ascii_only DMY (str "12") (str "13") (str "2025") = (2025, 13, 12)%Z
  /\ valid_ymd 2025 13 12 = false
  /\ normalize_date ascii_only dateutil_fragment day_2026_11_03 (str "12.13.2025")
     = Some (str "2025-12-13")
  /\ normalize_date ascii_only dateutil_fragment day_2026_11_03 (str "30.02.2025")
     = None.
Proof.
  split; [repeat split; repeat constructor|].
  repeat split; vm_compute; reflexivity.
Qed.

(** * Further properties

    Properties of the functions beyond the claims above: what the
    functions return on every input, and how they work together. *)

(** The lemmas below are about the matcher on any text, so it is
    unfolded the usual way again. *)
#[local] Arguments rmatch U ic r k prev off rest caps : clear simpl.
#[local] Arguments rep U ic cs lo hi k prev off rest caps : clear simpl.
#[local] Arguments word_after U rest : clear simpl.
#[local] Arguments word_before U prev : clear simpl.

(** ** What a match covers

    The matcher is sound for a reading of patterns that forgets the
    context: whatever it matches is a text that the pattern covers. *)

Lemma prev_after_cons prev c w : prev_after prev (c :: w) = prev_after (Some c) w.
Proof.
  unfold prev_after. destruct w as [|x w'] using rev_ind; [reflexivity|].
  now rewrite app_comm_cons, !last_snoc.
Qed.

Lemma prev_after_app prev a b : prev_after prev (a ++ b) = prev_after (prev_after prev a) b.
Proof.
  revert prev. induction a as [|c a IH]; intros prev; [reflexivity|].
  simpl. now rewrite !prev_after_cons, IH.
Qed.

Section Covers.
Context (U : tables).

Lemma rep_covers ic cs k e rest :
  forall lo hi prev off caps,
    rep U ic cs lo hi k prev off rest caps = Some e ->
    exists w rest',
      rest = w ++ rest' /\
      covers U ic (Rep cs lo hi) off w [] /\
      k (MState (prev_after prev w) (off + length w) rest' caps) = Some e.
Proof.
  induction rest as [|c t IH]; intros lo hi prev off caps H.
  - simpl in H. destruct lo; [|discriminate].
    exists [], []. split; [reflexivity|]. split.
    + constructor; [constructor | simpl; lia | destruct hi; simpl; [lia | exact I]].
    + unfold prev_after; simpl; rewrite Nat.add_0_r; exact H.
  - assert (Hstop : match lo with
                    | O => k (MState prev off (c :: t) caps)
                    | S _ => None
                    end = Some e ->
                    exists w rest', c :: t = w ++ rest' /\
                      covers U ic (Rep cs lo hi) off w [] /\
                      k (MState (prev_after prev w) (off + length w) rest' caps) = Some e).
    { intros Hs. destruct lo; [|discriminate].
      exists [], (c :: t). split; [reflexivity|]. split.
      - constructor; [constructor | simpl; lia | destruct hi; simpl; [lia | exact I]].
      - unfold prev_after; simpl; rewrite Nat.add_0_r; exact Hs. }
    simpl in H.
    destruct (more_allowed hi && cs_match U ic cs c) eqn:Hc; [|exact (Hstop H)].
    apply andb_true_iff in Hc as [Hm Hc].
    destruct (rep U ic cs (Nat.pred lo) (option_map Nat.pred hi) k (Some c) (S off) t caps)
      as [r|] eqn:Hr; [|exact (Hstop H)].
    injection H as ->.
    apply IH in Hr as (w & rest' & -> & Hcov & Hk).
    exists (c :: w), rest'. split; [reflexivity|]. split.
    + inversion Hcov as [| | | | |cs' lo' hi' off' w' Hall Hlo Hhi| | | | |]; subst.
      constructor; [constructor; assumption | simpl; lia |].
      destruct hi as [[|h]|]; simpl in *; [discriminate | lia | exact I].
    + rewrite prev_after_cons. simpl. now rewrite <- Nat.add_succ_comm.
Qed.

Lemma rmatch_covers ic r :
  forall k e prev off rest caps,
    rmatch U ic r k prev off rest caps = Some e ->
    exists w cn rest',
      rest = w ++ rest' /\
      covers U ic r off w cn /\
      k (MState (prev_after prev w) (off + length w) rest' (cn ++ caps)) = Some e.
Proof.
  induction r as [|cs|a IHa b IHb|a IHa b IHb|cs lo hi|a IHa|n a IHa| |];
    intros k e prev off rest caps H; simpl in H.
  - exists [], [], rest. split; [reflexivity|]. split; [constructor|].
    unfold prev_after; simpl; rewrite Nat.add_0_r; exact H.
  - destruct rest as [|c t]; [discriminate|].
    destruct (cs_match U ic cs c) eqn:Hc; [|discriminate].
    exists [c], [], t. split; [reflexivity|]. split; [now constructor|].
    unfold prev_after; simpl; rewrite Nat.add_1_r; exact H.
  - apply IHa in H as (w1 & c1 & rest1 & -> & Ha & H). simpl in H.
    apply IHb in H as (w2 & c2 & rest2 & -> & Hb & H).
    exists (w1 ++ w2), (c2 ++ c1), rest2.
    split; [now rewrite app_assoc|]. split; [now constructor|].
    now rewrite prev_after_app, length_app, Nat.add_assoc, <- app_assoc.
  - destruct (rmatch U ic a k prev off rest caps) as [r|] eqn:Ha.
    + injection H as ->. apply IHa in Ha as (w & cn & rest' & -> & Hc & Hk).
      exists w, cn, rest'. split; [reflexivity|]. split; [now apply covers_alt_l | exact Hk].
    + apply IHb in H as (w & cn & rest' & -> & Hc & Hk).
      exists w, cn, rest'. split; [reflexivity|]. split; [now apply covers_alt_r | exact Hk].
  - apply rep_covers in H as (w & rest' & -> & Hc & Hk).
    exists w, [], rest'. split; [reflexivity|]. split; assumption.
  - destruct (rmatch U ic a k prev off rest caps) as [r|] eqn:Ha.
    + injection H as ->. apply IHa in Ha as (w & cn & rest' & -> & Hc & Hk).
      exists w, cn, rest'. split; [reflexivity|]. split; [now apply covers_opt_some | exact Hk].
    + exists [], [], rest. split; [reflexivity|]. split; [apply covers_opt_none|].
      unfold prev_after; simpl; rewrite Nat.add_0_r; exact H.
  - apply IHa in H as (w & cn & rest' & -> & Hc & Hk).
    exists w, ((n, (off, off + length w)%nat) :: cn), rest'.
    split; [reflexivity|]. split; [now constructor|].
    unfold capture in Hk. simpl in Hk. exact Hk.
  - destruct (at_boundary U prev rest); [|discriminate].
    exists [], [], rest. split; [reflexivity|]. split; [constructor|].
    unfold prev_after; simpl; rewrite Nat.add_0_r; exact H.
  - destruct prev; [discriminate|].
    exists [], [], rest. split; [reflexivity|]. split; [constructor|].
    unfold prev_after; simpl; rewrite Nat.add_0_r; exact H.
Qed.

(** A match found at a position covers a prefix of the text there. *)
Lemma match_at_covers ic r prev pos s mo :
  match_at U ic r prev pos s = Some mo ->
  m_start mo = pos /\
  covers U ic r 0 (m_text mo) (m_spans mo) /\
  exists rest, s = m_text mo ++ rest.
Proof.
  unfold match_at. destruct (rmatch U ic r Some prev 0 s []) as [e|] eqn:H; [|discriminate].
  intros [= <-]. simpl.
  apply rmatch_covers in H as (w & cn & rest' & -> & Hc & [= <-]). simpl.
  rewrite app_nil_r, take_app_length. split; [reflexivity|]. split; [exact Hc|]. eauto.
Qed.

Lemma search_from_covers ic r s :
  forall prev pos mo,
    search_from U ic r prev pos s = Some mo ->
    covers U ic r 0 (m_text mo) (m_spans mo) /\
    exists pre rest, s = pre ++ m_text mo ++ rest /\ m_start mo = (pos + length pre)%nat.
Proof.
  induction s as [|c t IH]; intros prev pos mo H; simpl in H.
  - destruct (match_at U ic r prev pos []) as [mo'|] eqn:Hm; [|discriminate].
    injection H as ->. apply match_at_covers in Hm as (Hs & Hc & rest & Hr).
    split; [exact Hc|]. exists [], rest. simpl. split; [exact Hr | lia].
  - destruct (match_at U ic r prev pos (c :: t)) as [mo'|] eqn:Hm.
    + injection H as ->. apply match_at_covers in Hm as (Hs & Hc & rest & Hr).
      split; [exact Hc|]. exists [], rest. simpl. split; [exact Hr | lia].
    + apply IH in H as (Hc & pre & rest & -> & Hs). split; [exact Hc|].
      exists (c :: pre), rest. split; [reflexivity | simpl; lia].
Qed.

Lemma re_search_covers ic r s mo :
  re_search U ic r s = Some mo ->
  covers U ic r 0 (m_text mo) (m_spans mo) /\
  exists pre rest, s = pre ++ m_text mo ++ rest /\ m_start mo = length pre.
Proof. unfold re_search. intros H. now apply search_from_covers in H. Qed.

Lemma covers_min_len ic r off w cn : covers U ic r off w cn -> (min_len r <= length w)%nat.
Proof.
  induction 1; simpl; rewrite ?length_app; try lia.
Qed.

(** A text shorter than the least match holds no match. *)
Lemma re_search_short ic r s :
  (length s < min_len r)%nat -> re_search U ic r s = None.
Proof.
  intros H. destruct (re_search U ic r s) as [mo|] eqn:E; [|reflexivity].
  apply re_search_covers in E as (Hc & pre & rest & -> & _).
  apply covers_min_len in Hc. rewrite !length_app in H. lia.
Qed.

End Covers.

(** ** Stripping, and squeezing white space *)

Lemma lstrip_by_head_free p s : head_free p (lstrip_by p s).
Proof.
  induction s as [|c t IH]; simpl; [exact I|].
  destruct (p c) eqn:E; [exact IH | exact E].
Qed.

Lemma lstrip_by_fixed p s : head_free p s -> lstrip_by p s = s.
Proof. destruct s as [|c t]; simpl; [reflexivity|]. now intros ->. Qed.

Lemma rstrip_by_last_free p s : head_free p (rev (rstrip_by p s)).
Proof. unfold rstrip_by. rewrite rev_involutive. apply lstrip_by_head_free. Qed.

Lemma rstrip_by_fixed p s : head_free p (rev s) -> rstrip_by p s = s.
Proof. unfold rstrip_by. intros H. now rewrite lstrip_by_fixed, rev_involutive. Qed.

Lemma lstrip_by_infix p s : exists a, s = a ++ lstrip_by p s /\ Forall (fun c => p c = true) a.
Proof.
  induction s as [|c t (a & Ha & Hall)]; simpl.
  - exists []. split; [reflexivity | constructor].
  - destruct (p c) eqn:E.
    + exists (c :: a). split; [simpl; now rewrite <- Ha | now constructor].
    + exists []. split; [reflexivity | constructor].
Qed.

Lemma rstrip_by_infix p s : exists b, s = rstrip_by p s ++ b /\ Forall (fun c => p c = true) b.
Proof.
  unfold rstrip_by. destruct (lstrip_by_infix p (rev s)) as (a & Ha & Hall).
  exists (rev a). split.
  - rewrite <- rev_app_distr, <- Ha. now rewrite rev_involutive.
  - apply Forall_forall. intros x Hx. rewrite Forall_forall in Hall. apply Hall.
    apply list_elem_of_In. apply list_elem_of_In in Hx. now apply List.in_rev.
Qed.

(** Stripping keeps a contiguous part of the text. *)
Lemma strip_by_infix p s :
  exists a b, s = a ++ strip_by p s ++ b /\
    Forall (fun c => p c = true) a /\ Forall (fun c => p c = true) b.
Proof.
  unfold strip_by. destruct (lstrip_by_infix p s) as (a & Ha & Hall).
  destruct (rstrip_by_infix p (lstrip_by p s)) as (b & Hb & Hbll).
  exists a, b. split; [|split; assumption]. rewrite <- Hb. exact Ha.
Qed.

Lemma rstrip_by_head_free p s : head_free p s -> head_free p (rstrip_by p s).
Proof.
  intros H. destruct (rstrip_by_infix p s) as (b & Hb & Hall).
  destruct (rstrip_by p s) as [|c t] eqn:E; [exact I|].
  rewrite Hb in H. exact H.
Qed.

(** What is left after stripping neither begins nor ends with a
    character of the class. *)
Lemma strip_by_ends p s :
  head_free p (strip_by p s) /\ head_free p (rev (strip_by p s)).
Proof.
  unfold strip_by. split.
  - apply rstrip_by_head_free, lstrip_by_head_free.
  - apply rstrip_by_last_free.
Qed.

Lemma strip_by_fixed p s :
  head_free p s -> head_free p (rev s) -> strip_by p s = s.
Proof.
  intros H1 H2. unfold strip_by. rewrite (lstrip_by_fixed p s H1).
  now apply rstrip_by_fixed.
Qed.

Lemma has_pair_app_l p a b : has_pair p (a ++ b) = false -> has_pair p a = false.
Proof.
  induction a as [|x a IH]; [reflexivity|]. destruct a as [|y a]; [reflexivity|].
  simpl. intros H. apply orb_false_iff in H as [H1 H2].
  rewrite H1. simpl. apply IH, H2.
Qed.

Lemma has_pair_app_r p a b : has_pair p (a ++ b) = false -> has_pair p b = false.
Proof.
  induction a as [|x a IH]; [auto|]. intros H. apply IH.
  simpl in H. destruct (a ++ b) as [|y l]; [reflexivity|].
  now apply orb_false_iff in H as [_ H].
Qed.

Lemma has_pair_cons2 p a b l :
  has_pair p (a :: b :: l) = (p a && p b) || has_pair p (b :: l).
Proof. reflexivity. Qed.

Lemma has_pair_cons_free p c s :
  p c = false -> has_pair p (c :: s) = has_pair p s.
Proof. intros H. destruct s; simpl; [reflexivity|]. now rewrite H. Qed.

(** Joining two texts without pairs makes no pair when one of the two
    characters that meet is not of the class. *)
Lemma has_pair_app p a b :
  has_pair p a = false -> has_pair p b = false ->
  head_free p (rev a) \/ head_free p b ->
  has_pair p (a ++ b) = false.
Proof.
  induction a as [|x a IH]; intros Ha Hb Hm; [exact Hb|].
  destruct a as [|y a].
  - simpl. destruct b as [|z b]; [reflexivity|].
    rewrite Hb, orb_false_r. destruct Hm as [Hm | Hm]; simpl in Hm; rewrite Hm;
      [reflexivity | apply andb_false_r].
  - change ((x :: y :: a) ++ b) with (x :: (y :: a) ++ b).
    simpl in Ha. apply orb_false_iff in Ha as [Hxy Ha].
    change (has_pair p (x :: (y :: a) ++ b)) with
      ((p x && p y) || has_pair p ((y :: a) ++ b)).
    rewrite Hxy. simpl orb. apply IH; [exact Ha | exact Hb |].
    destruct Hm as [Hm | Hm]; [left | right; exact Hm].
    change (rev (x :: y :: a)) with (rev (y :: a) ++ [x]) in Hm.
    destruct (rev (y :: a)) as [|z l] eqn:E; [|exact Hm].
    apply (f_equal (@length _)) in E. rewrite length_rev in E. discriminate.
Qed.

Section Squeeze.
Context (p : char -> bool).

Lemma squeeze_inside_free s : head_free p s -> squeeze p true s = squeeze p false s.
Proof. destruct s as [|c t]; simpl; [reflexivity|]. now intros ->. Qed.

(** The characters of the result are characters of the text, or the
    space. *)
Lemma squeeze_Forall (P : char -> Prop) s :
  P 32 -> Forall P s -> forall b, Forall P (squeeze p b s).
Proof.
  intros H32. induction 1 as [|c t Hc Ht IH]; intros b; simpl; [constructor|].
  destruct (p c); [|constructor; auto].
  destruct b; [apply IH|].
  destruct t as [|d t']; [repeat constructor; exact Hc|].
  destruct (p d); constructor; auto.
Qed.

Lemma squeeze_inside_head s : head_free p (squeeze p true s).
Proof.
  induction s as [|c t IH]; simpl; [exact I|].
  destruct (p c) eqn:E; [exact IH | exact E].
Qed.

Lemma squeeze_no_pair s :
  has_pair p (squeeze p true s) = false /\ has_pair p (squeeze p false s) = false.
Proof.
  induction s as [|c t [IH1 IH2]]; [split; reflexivity|].
  cbn [squeeze]. destruct (p c) eqn:E.
  - split; [exact IH1|].
    destruct t as [|d t']; [reflexivity|].
    destruct (p d) eqn:Ed.
    + pose proof (squeeze_inside_head (d :: t')) as Hh.
      destruct (squeeze p true (d :: t')) as [|x l] eqn:Es; [reflexivity|].
      rewrite has_pair_cons2. simpl in Hh. rewrite Hh, andb_false_r. exact IH1.
    + cbn [squeeze] in IH2 |- *. rewrite Ed in IH2 |- *.
      rewrite has_pair_cons2, Ed, andb_false_r. exact IH2.
  - rewrite has_pair_cons_free by exact E. split; exact IH2.
Qed.

(** A text without pairs is left as it is. *)
Lemma squeeze_fixed s : has_pair p s = false -> squeeze p false s = s.
Proof.
  induction s as [|c t IH]; [reflexivity|]. intros H. simpl.
  destruct t as [|d t'].
  - now destruct (p c).
  - simpl in H. apply orb_false_iff in H as [Hcd H]. specialize (IH H).
    destruct (p c) eqn:Ec.
    + simpl in Hcd. rewrite Hcd. now rewrite IH.
    + now rewrite IH.
Qed.

(** An ending that holds no character of the class stays in place. *)
Lemma squeeze_ending e :
  e <> [] -> Forall (fun c => p c = false) e ->
  forall s b, squeeze p b (s ++ e) = squeeze p b s ++ e.
Proof.
  intros Hne He.
  assert (Hb : forall b, squeeze p b e = e).
  { clear Hne. induction He as [|x e Hx _ IH]; intros b; simpl; [reflexivity|].
    now rewrite Hx, IH. }
  induction s as [|c t IH]; intros b; [apply Hb|].
  change ((c :: t) ++ e) with (c :: (t ++ e)). cbn [squeeze].
  destruct (p c) eqn:Ec; [|now rewrite IH].
  destruct b; [apply IH|].
  destruct t as [|d t'].
  - cbn [app]. destruct e as [|x e']; [contradiction|].
    inversion He as [|? ? Hx _]; subst. rewrite Hx. now rewrite Hb.
  - cbn [app]. destruct (p d);
      change (d :: t' ++ e) with ((d :: t') ++ e); now rewrite IH.
Qed.

End Squeeze.

Section SubFacts.
Context (U : tables).

(** Substituting a pattern of one character set treats each character
    on its own. *)
Lemma scan_sub_atom ic cs repl s :
  forall prev pos,
    scan_sub U ic (Atom cs) repl prev pos s 0
    = flat_map (fun c => if cs_match U ic cs c then repl else [c]) s.
Proof.
  induction s as [|c t IH]; intros prev pos; [reflexivity|].
  simpl. unfold match_at. simpl. destruct (cs_match U ic cs c); simpl; now rewrite IH.
Qed.

Lemma re_sub_atom ic cs repl s :
  re_sub U ic (Atom cs) repl s
  = flat_map (fun c => if cs_match U ic cs c then repl else [c]) s.
Proof. apply scan_sub_atom. Qed.

(** A greedy unbounded quantifier at the end of a pattern takes the
    whole run. *)
Lemma rep_greedy ic cs run rest caps :
  Forall (fun c => cs_match U ic cs c = true) run ->
  head_free (cs_match U ic cs) rest ->
  forall lo prev off,
    (lo <= length run)%nat ->
    rep U ic cs lo None Some prev off (run ++ rest) caps
    = Some (MState (prev_after prev run) (off + length run) rest caps).
Proof.
  intros Hrun Hrest. induction Hrun as [|c run Hc _ IH]; intros lo prev off Hlo.
  - simpl in Hlo. assert (lo = 0%nat) as -> by lia. unfold prev_after. simpl.
    rewrite Nat.add_0_r. destruct rest as [|x rest']; [reflexivity|].
    simpl in Hrest |- *. now rewrite Hrest.
  - simpl. rewrite Hc. simpl. rewrite IH by (simpl in Hlo; lia).
    rewrite prev_after_cons. now rewrite <- Nat.add_succ_comm.
Qed.

Lemma span_run (q : char -> bool) s :
  exists run rest, s = run ++ rest /\ Forall (fun c => q c = true) run /\ head_free q rest.
Proof.
  induction s as [|c t (run & rest & -> & Hrun & Hrest)].
  - exists [], []. repeat split; constructor.
  - destruct (q c) eqn:E.
    + exists (c :: run), rest. repeat split; [constructor; assumption | assumption].
    + exists [], (c :: run ++ rest). repeat split; [constructor | exact E].
Qed.

Lemma scan_sub_spaces s :
  forall prev pos,
    scan_sub U false SPACES (str " ") prev pos s 0 = squeeze (is_space U) false s
    /\ forall run rest,
         s = run ++ rest -> Forall (fun c => is_space U c = true) run ->
         head_free (is_space U) rest ->
         scan_sub U false SPACES (str " ") prev pos s (length run)
         = squeeze (is_space U) true s.
Proof.
  assert (Hcs : forall c, cs_match U false space c = is_space U c)
    by (intros c; simpl; apply orb_false_r).
  induction s as [|c t IH]; intros prev pos.
  - split; [reflexivity|]. intros run rest E _ _.
    symmetry in E. apply app_eq_nil in E as [-> ->]. reflexivity.
  - assert (H0 : scan_sub U false SPACES (str " ") prev pos (c :: t) 0
                 = squeeze (is_space U) false (c :: t)).
    { cbn [scan_sub squeeze]. unfold match_at, SPACES. cbn [rmatch rep].
      rewrite Hcs. cbn [more_allowed andb Nat.pred option_map].
      destruct (is_space U c) eqn:Ec.
      - destruct t as [|d t']; [reflexivity|].
        cbn [rep]. rewrite Hcs. cbn [more_allowed andb Nat.pred option_map].
        destruct (is_space U d) eqn:Ed.
        + destruct (span_run (is_space U) t') as (run & rest & -> & Hrun & Hrest).
          rewrite (rep_greedy false space run rest []); [|
            eapply Forall_impl; [exact Hrun | intros x Hx; now rewrite Hcs] |
            destruct rest; simpl in *; [exact I | now rewrite orb_false_r] | lia].
          cbn [st_off m_text length].
          replace (take (2 + length run) (c :: d :: run ++ rest)) with (c :: d :: run)
            by (simpl; now rewrite take_app_length).
          cbn [length]. cbn [app str].
          f_equal.
          destruct (IH (Some c) (S pos)) as [_ IH2].
          apply (IH2 (d :: run) rest); [reflexivity | constructor; assumption | assumption].
        + f_equal. apply IH.
      - f_equal. apply IH. }
    split; [exact H0|]. intros run rest E Hrun Hrest.
    destruct run as [|x run].
    + simpl in E. subst rest. simpl length. rewrite H0.
      symmetry. now apply squeeze_inside_free.
    + simpl in E. injection E as <- ->. inversion Hrun as [|? ? Hx Hrun']; subst.
      cbn [length scan_sub squeeze]. rewrite Hx.
      destruct (IH (Some c) (S pos)) as [_ IH2].
      apply (IH2 run rest); [reflexivity | assumption | assumption].
Qed.

(** [re.sub(r"\s{2,}", " ", s)] is the scan of [squeeze]. *)
Lemma re_sub_spaces s :
  re_sub U false SPACES (str " ") s = squeeze (is_space U) false s.
Proof. exact (proj1 (scan_sub_spaces s None 0%nat)). Qed.

Lemma replace_char_Forall (P : char -> Prop) old new s :
  Forall P new -> Forall P s -> Forall P (replace_char old new s).
Proof.
  intros Hn. induction 1 as [|c t Hc _ IH]; simpl; [constructor|].
  destruct (c =? old); [apply Forall_app; split; assumption | now constructor].
Qed.

Lemma replace_char_gone old new s :
  Forall (fun c => c <> old) new -> Forall (fun c => c <> old) (replace_char old new s).
Proof.
  intros Hn. induction s as [|c t IH]; simpl; [constructor|].
  destruct (N.eqb_spec c old); [apply Forall_app; split; assumption | now constructor].
Qed.

Lemma replace_char_fixed old new s :
  Forall (fun c => c <> old) s -> replace_char old new s = s.
Proof.
  induction 1 as [|c t Hc _ IH]; simpl; [reflexivity|].
  destruct (N.eqb_spec c old); [contradiction | now rewrite IH].
Qed.

End SubFacts.

(** ** File names, whatever the fields *)

Lemma strip_by_Forall (P : char -> Prop) p s : Forall P s -> Forall P (strip_by p s).
Proof.
  intros H. destruct (strip_by_infix p s) as (a & b & E & _ & _).
  rewrite E in H. apply Forall_app in H as [_ H]. now apply Forall_app in H as [H _].
Qed.

Lemma strip_by_no_pair p q s : has_pair q s = false -> has_pair q (strip_by p s) = false.
Proof.
  intros H. destruct (strip_by_infix p s) as (a & b & E & _ & _).
  rewrite E in H. apply has_pair_app_r in H. now apply has_pair_app_l in H.
Qed.

Lemma flat_map_fixed (f : char -> text) s :
  Forall (fun c => f c = [c]) s -> flat_map f s = s.
Proof. induction 1 as [|c t Hc _ IH]; simpl; [reflexivity|]. now rewrite Hc, IH. Qed.

Section FileNames.
Context (U : tables).

Lemma reserved_unmatched c :
  c <> 47 -> c <> 92 ->
  cs_match U false (CSet (map CLit [58; 42; 63; 34; 60; 62; 124])) c = false ->
  ~ In c FS_RESERVED.
Proof.
  intros H1 H2 H. simpl in H. rewrite !orb_false_iff, !N.eqb_neq in H.
  unfold FS_RESERVED. simpl. intuition congruence.
Qed.

Lemma unreserved_unmatched c :
  ~ In c FS_RESERVED ->
  cs_match U false (CSet (map CLit [58; 42; 63; 34; 60; 62; 124])) c = false.
Proof.
  unfold FS_RESERVED. simpl. intros H. rewrite !orb_false_iff, !N.eqb_neq.
  repeat split; try (intros ->; apply H; tauto).
Qed.

Lemma sanitize_filename_steps s :
  sanitize_filename U s
  = strip U (squeeze (is_space U) false
       (flat_map (fun c => if cs_match U false
                                (CSet (map CLit [58; 42; 63; 34; 60; 62; 124])) c
                           then str "-" else [c])
          (replace_char 92 (str "-") (replace_char 47 (str "-") s)))).
Proof.
  unfold sanitize_filename. rewrite re_sub_spaces. unfold RESERVED.
  rewrite re_sub_atom. reflexivity.
Qed.

Lemma sanitize_filename_unreserved s :
  Forall (fun c => ~ In c FS_RESERVED) (sanitize_filename U s).
Proof.
  rewrite sanitize_filename_steps.
  apply strip_by_Forall, squeeze_Forall;
    [unfold FS_RESERVED; simpl; intuition discriminate|].
  assert (H1 : Forall (fun c => c <> 47 /\ c <> 92)
                 (replace_char 92 (str "-") (replace_char 47 (str "-") s))).
  { apply Forall_and. split.
    - apply replace_char_Forall; [repeat constructor; discriminate|].
      apply replace_char_gone. repeat constructor; discriminate.
    - apply replace_char_gone. repeat constructor; discriminate. }
  induction H1 as [|c t [Hc1 Hc2] _ IH]; [constructor|].
  cbn [flat_map]. apply Forall_app. split; [|exact IH].
  destruct (cs_match U false (CSet (map CLit [58; 42; 63; 34; 60; 62; 124])) c) eqn:E.
  - repeat constructor. unfold FS_RESERVED. simpl. intuition discriminate.
  - repeat constructor. exact (reserved_unmatched c Hc1 Hc2 E).
Qed.

Lemma sanitize_filename_tidy s :
  head_free (is_space U) (sanitize_filename U s) /\
  head_free (is_space U) (rev (sanitize_filename U s)) /\
  has_pair (is_space U) (sanitize_filename U s) = false.
Proof.
  rewrite sanitize_filename_steps. unfold strip.
  split; [apply strip_by_ends|]. split; [apply strip_by_ends|].
  apply strip_by_no_pair, squeeze_no_pair.
Qed.

(** A text without reserved characters, without two white-space
    characters in a row and without white space at its ends is left as
    it is. *)
Lemma sanitize_filename_fixed s :
  Forall (fun c => ~ In c FS_RESERVED) s ->
  has_pair (is_space U) s = false ->
  head_free (is_space U) s -> head_free (is_space U) (rev s) ->
  sanitize_filename U s = s.
Proof.
  intros Hr Hp Hh Hl. rewrite sanitize_filename_steps.
  assert (H47 : Forall (fun c => c <> 47) s).
  { eapply Forall_impl; [exact Hr|]. intros c Hc ->. apply Hc.
    unfold FS_RESERVED; simpl; tauto. }
  assert (H92 : Forall (fun c => c <> 92) s).
  { eapply Forall_impl; [exact Hr|]. intros c Hc ->. apply Hc.
    unfold FS_RESERVED; simpl; tauto. }
  rewrite (replace_char_fixed 47 _ s H47), (replace_char_fixed 92 _ s H92).
  rewrite flat_map_fixed.
  - rewrite squeeze_fixed by assumption. now apply strip_by_fixed.
  - eapply Forall_impl; [exact Hr|]. intros c Hc. cbv beta.
    now rewrite (unreserved_unmatched c Hc).
Qed.

End FileNames.

Lemma text_eqb_refl s : text_eqb s s = true.
Proof. induction s as [|c t IH]; simpl; [reflexivity|]. now rewrite N.eqb_refl, IH. Qed.

Lemma endswith_app z e : endswith (z ++ e) e = true.
Proof.
  unfold endswith. rewrite length_app.
  replace (length z + length e - length e)%nat with (length z) by lia.
  rewrite drop_app_length. apply text_eqb_refl.
Qed.

Lemma head_free_app_l p a b : a <> [] -> head_free p a -> head_free p (a ++ b).
Proof. destruct a; [contradiction | simpl; auto]. Qed.

Lemma last_free_app p a b : b <> [] -> head_free p (rev b) -> head_free p (rev (a ++ b)).
Proof.
  intros Hne H. rewrite rev_app_distr. apply head_free_app_l; [|exact H].
  intros E. apply Hne. apply (f_equal (@rev _)) in E. now rewrite rev_involutive in E.
Qed.

Lemma lstrip_by_ending p z e :
  e <> [] -> head_free p e -> lstrip_by p (z ++ e) = lstrip_by p z ++ e.
Proof.
  intros Hne He. induction z as [|c z IH]; simpl.
  - now apply lstrip_by_fixed.
  - destruct (p c); [exact IH | reflexivity].
Qed.

Lemma replace_char_app old new a b :
  replace_char old new (a ++ b) = replace_char old new a ++ replace_char old new b.
Proof. apply flat_map_app. Qed.

Section FileNameEndings.
Context (U : tables).

(** An ending without white space and without reserved characters
    survives sanitizing. *)
Lemma sanitize_filename_ending y e :
  e <> [] ->
  Forall (fun c => is_space U c = false /\ ~ In c FS_RESERVED) e ->
  exists z, sanitize_filename U (y ++ e) = z ++ e.
Proof.
  intros Hne He. apply Forall_and in He as [Hs Hr].
  rewrite sanitize_filename_steps.
  assert (H47 : Forall (fun c => c <> 47) e).
  { eapply Forall_impl; [exact Hr|]. intros c Hc ->. apply Hc.
    unfold FS_RESERVED; simpl; tauto. }
  assert (H92 : Forall (fun c => c <> 92) e).
  { eapply Forall_impl; [exact Hr|]. intros c Hc ->. apply Hc.
    unfold FS_RESERVED; simpl; tauto. }
  rewrite !replace_char_app, (replace_char_fixed 47 _ e H47),
    (replace_char_fixed 92 _ e H92), flat_map_app.
  rewrite (flat_map_fixed _ e).
  2:{ eapply Forall_impl; [exact Hr|]. intros c Hc. cbv beta.
      now rewrite (unreserved_unmatched U c Hc). }
  rewrite squeeze_ending by assumption.
  unfold strip, strip_by. rewrite lstrip_by_ending;
    [|assumption | destruct e; [contradiction | now inversion Hs]].
  rewrite rstrip_by_fixed; [eauto|].
  apply last_free_app; [assumption|].
  destruct e as [|x e'] using rev_ind; [contradiction|].
  rewrite rev_app_distr. simpl. apply Forall_app in Hs as [_ Hs]. now inversion Hs.
Qed.

Lemma unidecode_app a b : unidecode U (a ++ b) = unidecode U a ++ unidecode U b.
Proof. apply flat_map_app. Qed.

Lemma build_new_name_ending d s i :
  exists z, build_new_name U d s i = z ++ str ".pdf".
Proof.
  unfold build_new_name. rewrite unidecode_app.
  change (unidecode U (str ".pdf")) with (str ".pdf").
  apply sanitize_filename_ending; [discriminate|].
  repeat constructor; try reflexivity; unfold FS_RESERVED; simpl; intuition discriminate.
Qed.

End FileNameEndings.



Section FileNameResults.
Context (U : tables).

(** X1: Whatever it is given, [sanitize_filename] returns a text with none
    of the characters [/ \ : * ? < > |] and the double quote, with no
    white space at either end and with no two white-space characters in
    a row. *)
Theorem sanitize_filename_result (s : text) :
  (forall c, In c (sanitize_filename U s) -> ~ In c FS_RESERVED)
  /\ head_free (is_space U) (sanitize_filename U s)
  /\ head_free (is_space U) (rev (sanitize_filename U s))
  /\ has_pair (is_space U) (sanitize_filename U s) = false.
Proof.
  split; [|apply sanitize_filename_tidy].
  intros c Hc. pose proof (sanitize_filename_unreserved U s) as H.
  rewrite Forall_forall in H. apply H. now apply list_elem_of_In.
Qed.

(** X2: Sanitizing twice is sanitizing once. *)
Theorem sanitize_filename_idempotent (s : text) :
  sanitize_filename U (sanitize_filename U s) = sanitize_filename U s.
Proof.
  destruct (sanitize_filename_tidy U s) as (Hh & Hl & Hp).
  apply sanitize_filename_fixed; try assumption. apply sanitize_filename_unreserved.
Qed.

(** X3: Every name that [build_new_name] returns, whatever the three fields
    are, ends in [.pdf], holds no reserved character, and is left
    unchanged by [sanitize_filename]. *)
Theorem build_new_name_safe (date_str supplier invno : option text) :
  endswith (build_new_name U date_str supplier invno) (str ".pdf") = true
  /\ (4 <= length (build_new_name U date_str supplier invno))%nat
  /\ Forall (fun c => ~ In c FS_RESERVED) (build_new_name U date_str supplier invno)
  /\ sanitize_filename U (build_new_name U date_str supplier invno)
     = build_new_name U date_str supplier invno.
Proof.
  destruct (build_new_name_ending U date_str supplier invno) as [z Hz].
  split; [rewrite Hz; apply endswith_app|].
  split; [rewrite Hz, length_app; simpl; lia|].
  unfold build_new_name.
  split; [apply sanitize_filename_unreserved|].
  destruct (sanitize_filename_tidy U
              (unidecode U (join (str " ")
                 [or_else date_str NO_DATE; or_else supplier NO_SUPPLIER;
                  or_else invno NO_INVOICE_NO] ++ str ".pdf"))) as (Hh & Hl & Hp).
  apply sanitize_filename_fixed; try assumption. apply sanitize_filename_unreserved.
Qed.

(** X4: When the three fields, or the tokens that stand for the missing
    ones, need neither transliteration nor sanitizing, the name is the
    three of them separated by single spaces and followed by [.pdf]. *)
Theorem build_new_name_plain (date_str supplier invno : option text) :
  plain_field U (or_else date_str NO_DATE) ->
  plain_field U (or_else supplier NO_SUPPLIER) ->
  plain_field U (or_else invno NO_INVOICE_NO) ->
  build_new_name U date_str supplier invno
  = or_else date_str NO_DATE ++ str " " ++ or_else supplier NO_SUPPLIER ++ str " "
    ++ or_else invno NO_INVOICE_NO ++ str ".pdf".
Proof.
  unfold build_new_name.
  generalize (or_else date_str NO_DATE) (or_else supplier NO_SUPPLIER)
    (or_else invno NO_INVOICE_NO).
  intros d s i (Hd0 & Hd1 & Hd2) (Hs0 & Hs1 & Hs2) (Hi0 & Hi1 & Hi2).
  assert (Hfacts : forall f, f <> [] -> sanitize_filename U f = f ->
            Forall (fun c => ~ In c FS_RESERVED) f /\
            head_free (is_space U) f /\ head_free (is_space U) (rev f) /\
            has_pair (is_space U) f = false).
  { intros f _ Hf. rewrite <- Hf. split; [apply sanitize_filename_unreserved|].
    apply sanitize_filename_tidy. }
  destruct (Hfacts d Hd0 Hd2) as (Rd & Hd & Ld & Pd).
  destruct (Hfacts s Hs0 Hs2) as (Rs & Hs & Ls & Ps).
  destruct (Hfacts i Hi0 Hi2) as (Ri & Hi & Li & Pi).
  replace (join (str " ") [d; s; i] ++ str ".pdf")
    with (d ++ str " " ++ s ++ str " " ++ i ++ str ".pdf")
    by (cbn [join]; now rewrite <- !app_assoc).
  rewrite !unidecode_app, Hd1, Hs1, Hi1.
  change (unidecode U (str " ")) with (str " ").
  change (unidecode U (str ".pdf")) with (str ".pdf").
  assert (Hsp : Forall (fun c => ~ In c FS_RESERVED) (str " "))
    by (repeat constructor; unfold FS_RESERVED; simpl; intuition discriminate).
  assert (Hpdf : Forall (fun c => ~ In c FS_RESERVED) (str ".pdf"))
    by (repeat constructor; unfold FS_RESERVED; simpl; intuition discriminate).
  apply sanitize_filename_fixed.
  - repeat (apply Forall_app; split; [assumption|]). assumption.
  - apply has_pair_app; [assumption | | left; assumption].
    apply has_pair_app; [reflexivity | | right].
    2:{ apply head_free_app_l; assumption. }
    apply has_pair_app; [assumption | | left; assumption].
    apply has_pair_app; [reflexivity | | right].
    2:{ apply head_free_app_l; assumption. }
    apply has_pair_app; [assumption | reflexivity | right; reflexivity].
  - apply head_free_app_l; assumption.
  - rewrite !app_assoc. apply last_free_app; [discriminate | reflexivity].
Qed.

End FileNameResults.

(** The theorem at work on an invoice of ACME. *)
Lemma build_new_name_plain_witness :
  build_new_name ascii_only (Some (str "2025-09-12")) (Some (str "ACME")) None
  = str "2025-09-12 ACME Bez-cisla.pdf".
Proof.
  apply (build_new_name_plain ascii_only (Some (str "2025-09-12")) (Some (str "ACME")) None);
    (split; [discriminate | split; vm_compute; reflexivity]).
Defined.

(** ** Invoice numbers: their characters and their length *)

Ltac inv_covers :=
  repeat match goal with
    | H : covers _ _ Eps _ _ _ |- _ => inversion H; clear H; subst
    | H : covers _ _ WordB _ _ _ |- _ => inversion H; clear H; subst
    | H : covers _ _ Bol _ _ _ |- _ => inversion H; clear H; subst
    | H : covers _ _ (Atom _) _ _ _ |- _ => inversion H; clear H; subst
    | H : covers _ _ (Seq _ _) _ _ _ |- _ => inversion H; clear H; subst
    | H : covers _ _ (Group _ _) _ _ _ |- _ => inversion H; clear H; subst
    end.

Section CoversFacts.
Context (U : tables).

(** Every character a match covers passed one of the sets of the
    pattern. *)
Lemma covers_chars ic r off w cn :
  covers U ic r off w cn ->
  Forall (fun c => exists cs, In cs (csets_of r) /\ cs_match U ic cs c = true) w.
Proof.
  assert (Hup : forall (l l' : list cset) (w : text),
            (forall cs, In cs l -> In cs l') ->
            Forall (fun c => exists cs, In cs l /\ cs_match U ic cs c = true) w ->
            Forall (fun c => exists cs, In cs l' /\ cs_match U ic cs c = true) w).
  { intros l l' w' Hsub Hall. eapply Forall_impl; [exact Hall|].
    intros x (cs & Hin & Hm). exists cs. split; [apply Hsub, Hin | exact Hm]. }
  induction 1 as [off | cs c off Hc | a b off w1 w2 c1 c2 Ha IHa Hb IHb
                 | a b off w c Ha IH | a b off w c Hb IH
                 | cs lo hi off w Hall Hlo Hhi | a off w c Ha IH | a off
                 | n a off w c Ha IH | off | off]; cbn [csets_of].
  - constructor.
  - repeat constructor. exists cs. split; [now left | assumption].
  - apply Forall_app. split;
      [eapply Hup; [|exact IHa] | eapply Hup; [|exact IHb]];
      intros cs Hin; apply List.in_or_app; [left | right]; exact Hin.
  - eapply Hup; [|exact IH]. intros cs Hin; apply List.in_or_app; left; exact Hin.
  - eapply Hup; [|exact IH]. intros cs Hin; apply List.in_or_app; right; exact Hin.
  - eapply Forall_impl; [exact Hall|].
    intros x Hx. exists cs. split; [now left | exact Hx].
  - exact IH.
  - constructor.
  - exact IH.
  - constructor.
  - constructor.
Qed.

(** In a pattern of the shape [\b(...)\b], group 1 is the whole match. *)
Lemma group_between_boundaries ic body st w cn :
  covers U ic (seq [WordB; Group 1 body; WordB]) 0 w cn ->
  group (MatchObj st w cn) 1 = w /\ exists cb, covers U ic body 0 w cb.
Proof.
  cbn [seq fold_right]. intros H. inv_covers.
  cbn [app length Nat.add] in *. rewrite !app_nil_r in *.
  split; [|eauto].
  unfold group. cbn [m_spans m_text assoc Nat.eqb].
  rewrite Nat.sub_0_r, drop_0. apply firstn_all.
Qed.

Lemma upper_ascii w :
  Forall (fun c => is_ascii c = true) w -> upper U w = map to_upper_ascii w.
Proof.
  induction 1 as [|c w Hc _ IH]; [reflexivity|].
  unfold upper in *. cbn [flat_map map]. unfold upper_char at 1. rewrite Hc.
  now rewrite IH.
Qed.

Lemma not_invno_char c :
  cs_match U false (CNot invno_chars) c = negb (invoice_no_char c).
Proof.
  unfold invoice_no_char, ascii_upper_letter, ascii_digit. cbn.
  now rewrite orb_false_r, !orb_assoc.
Qed.

Lemma clean_invoice_no_alphabet g :
  Forall (fun c => invoice_no_char c = true) (clean_invoice_no U g).
Proof.
  unfold clean_invoice_no, NOT_INVNO_CHAR. rewrite re_sub_atom.
  induction (upper U (strip U g)) as [|c l IH]; [constructor|].
  cbn [flat_map]. rewrite not_invno_char.
  destruct (invoice_no_char c) eqn:E; simpl; [constructor; assumption | assumption].
Qed.

Lemma labelled_invoice_no_alphabet rs t r :
  labelled_invoice_no U rs t = Some r ->
  (3 <= length r)%nat /\ Forall (fun c => invoice_no_char c = true) r.
Proof.
  induction rs as [|rgx rs IH]; cbn [labelled_invoice_no]; [discriminate|].
  destruct (re_search U true rgx t) as [mo|]; [|exact IH].
  destruct (3 <=? length (clean_invoice_no U (group mo 1)))%nat eqn:E; [|exact IH].
  apply Nat.leb_le in E.
  intros [= <-]. split; [assumption | apply clean_invoice_no_alphabet].
Qed.

(** What the sets of the loose pattern let through is, once in upper
    case, a character of an invoice number. *)
Lemma loose_chars_upper c cs :
  is_ascii c = true ->
  In cs [upper_AZ; dash_slash; digit; digit_09; CSet [CLit (chr "/")]; alnum_AZ09] ->
  cs_match U true cs c = true ->
  invoice_no_char (to_upper_ascii c) = true.
Proof.
  intros Hc Hin Hm. unfold is_ascii in Hc. apply N.ltb_lt in Hc.
  assert (Hall : forallb (fun c => forallb (fun cs => implb (cs_match U true cs c)
                                              (invoice_no_char (to_upper_ascii c)))
                            [upper_AZ; dash_slash; digit; digit_09;
                             CSet [CLit (chr "/")]; alnum_AZ09])
                   (map N.of_nat (List.seq 0 128)) = true)
    by (vm_compute; reflexivity).
  pose proof (ascii_forall _ Hall c Hc) as H. cbv beta in H.
  rewrite List.forallb_forall in H. specialize (H cs Hin).
  rewrite Hm in H. exact H.
Qed.

Lemma labelled_invoice_no_short rs t :
  Forall (fun rgx => (length t < min_len rgx)%nat) rs ->
  labelled_invoice_no U rs t = None.
Proof.
  induction 1 as [|rgx rs H _ IH]; cbn [labelled_invoice_no]; [reflexivity|].
  now rewrite (re_search_short U true rgx t H).
Qed.

End CoversFacts.



Section InvoiceNoResults.
Context (U : tables).

(** X5: On a text of ASCII characters, whatever [extract_invoice_no] returns
    has at least three characters, all of them capital letters, digits,
    slashes or hyphens. *)
Theorem extract_invoice_no_alphabet (t r : text) :
  Forall (fun c => is_ascii c = true) t ->
  extract_invoice_no U t = Some r ->
  (3 <= length r)%nat /\ Forall (fun c => invoice_no_char c = true) r.
Proof.
  intros Hascii. unfold extract_invoice_no.
  destruct (labelled_invoice_no U INVOICE_NO_REGEXES t) as [raw|] eqn:El.
  - intros [= <-]. eapply labelled_invoice_no_alphabet, El.
  - destruct (re_search U true INVOICE_NO_LOOSE t) as [[st w cn]|] eqn:Es; [|discriminate].
    intros [= <-].
    apply re_search_covers in Es as (Hc & pre & rest & -> & _). simpl in Hc.
    apply group_between_boundaries with (st := st) in Hc as (-> & cb & Hb).
    assert (Hw : Forall (fun c => is_ascii c = true) w).
    { apply Forall_app in Hascii as [_ Hascii]. now apply Forall_app in Hascii as [Hascii _]. }
    rewrite (upper_ascii U w Hw). rewrite length_map. split.
    + apply covers_min_len in Hb. cbn in Hb. lia.
    + apply covers_chars in Hb. apply Forall_map.
      rewrite Forall_forall in Hb, Hw |- *. intros c Hin.
      destruct (Hb c Hin) as (cs & Hcs & Hm). specialize (Hw c Hin).
      apply (loose_chars_upper U c cs); [exact Hw | | exact Hm].
      cbn in Hcs. cbn. intuition (subst; auto).
Qed.

(** X6: A text of fewer than five characters yields no invoice number: no
    pattern can match that little.  Five characters can be enough. *)
Theorem extract_invoice_no_short (t : text) :
  ((length t < 5)%nat -> extract_invoice_no U t = None)
  /\ extract_invoice_no U (str "vs123") = Some (str "123").
Proof.
  split; [|vm_compute; reflexivity].
  intros H. unfold extract_invoice_no.
  rewrite labelled_invoice_no_short.
  - rewrite re_search_short; [reflexivity|].
    eapply Nat.lt_le_trans; [exact H|]. vm_compute. lia.
  - unfold INVOICE_NO_REGEXES.
    repeat (apply List.Forall_cons;
            [eapply Nat.lt_le_trans; [exact H|]; vm_compute; lia|]).
    apply List.Forall_nil.
Qed.

End InvoiceNoResults.

(** The theorem at work on a labelled number written in small letters. *)
Lemma extract_invoice_no_alphabet_witness :
  (3 <= length (str "FA-2025/0099"))%nat
  /\ Forall (fun c => invoice_no_char c = true) (str "FA-2025/0099").
Proof.
  apply (extract_invoice_no_alphabet ascii_only (str "Invoice No. fa-2025/0099")).
  - repeat constructor.
  - vm_compute. reflexivity.
Defined.

(** The theorem at work on a text of four characters. *)
Lemma extract_invoice_no_short_witness :
  extract_invoice_no ascii_only (str "A-12") = None.
Proof.
  apply (proj1 (extract_invoice_no_short ascii_only (str "A-12"))). simpl. lia.
Defined.

(** ** Company names and suppliers *)

Lemma rstrip_by_keeps_head p q s : head_free q s -> head_free q (rstrip_by p s).
Proof.
  intros H. destruct (rstrip_by_infix p s) as (b & Hb & _).
  destruct (rstrip_by p s) as [|c t] eqn:E; [exact I|].
  rewrite Hb in H. exact H.
Qed.

Lemma rstrip_by_length p s : (length (rstrip_by p s) <= length s)%nat.
Proof.
  destruct (rstrip_by_infix p s) as (b & Hb & _).
  rewrite Hb at 2. rewrite length_app. lia.
Qed.

Lemma head_free_weaken (p q : char -> bool) s :
  (forall c, q c = true -> p c = true) -> head_free p s -> head_free q s.
Proof.
  destruct s as [|c t]; simpl; [auto|]. intros Himp H.
  destruct (q c) eqn:E; [|reflexivity]. apply Himp in E. congruence.
Qed.

Lemma take_keeps_head q n (s : text) : head_free q s -> head_free q (take n s).
Proof. destruct s, n; simpl; auto. Qed.

Section CompanyFacts.
Context (U : tables).

Lemma covers_no_group ic r off w cn :
  has_group r = false -> covers U ic r off w cn -> cn = [].
Proof.
  intros Hg H. induction H; simpl in Hg; try reflexivity; try discriminate;
    try (apply orb_false_iff in Hg as [Hg1 Hg2]); auto.
  now rewrite IHcovers1, IHcovers2.
Qed.

(** Group 1 of a match of the domain pattern is not empty. *)
Lemma domain_group st w cn :
  covers U true DOMAIN 0 w cn -> group (MatchObj st w cn) 1 <> [].
Proof.
  unfold DOMAIN. cbn [seq fold_right]. intros H. inv_covers.
  match goal with
  | H : covers _ _ (Alt _ _) _ _ _ |- _ =>
      apply covers_no_group in H; [subst | reflexivity]
  end.
  match goal with
  | H : covers _ _ (plus _) _ ?w1 _ |- _ =>
      inversion H as [| | | | |cs lo hi off w' Hall Hlo Hhi| | | | |]; subst;
      destruct w1 as [|x w1]; [simpl in Hlo; lia|]
  end.
  unfold group. cbn. discriminate.
Qed.

Lemma cs_match_variant x c :
  In x (case_variants U c) -> cs_match U true (CSet [CLit x]) c = true.
Proof.
  intros H. cbn. rewrite orb_false_r. apply List.existsb_exists.
  exists x. split; [exact H | apply N.eqb_refl].
Qed.

(** A literal pattern matches its text, in any letter case when the
    flag is set. *)
Lemma lit_text_matches m' m :
  same_letters U m' m ->
  forall b k prev off rest caps,
    rmatch U true (fold_right Seq b (map (fun c => Atom (CSet [CLit c])) m))
      k prev off (m' ++ rest) caps
    = rmatch U true b k (prev_after prev m') (off + length m') rest caps.
Proof.
  induction 1 as [|c x m' m Hx _ IH]; intros b k prev off rest caps.
  - unfold prev_after. simpl. now rewrite Nat.add_0_r.
  - cbn [map fold_right app rmatch st_prev st_off st_rest st_caps].
    rewrite (cs_match_variant x c Hx). rewrite IH.
    rewrite prev_after_cons. simpl length. now rewrite <- Nat.add_succ_comm.
Qed.

Lemma lit_reaches m m' k prev off rest caps :
  same_letters U m' m ->
  (forall st, is_Some (k st)) ->
  is_Some (rmatch U true (lit_text m) k prev off (m' ++ rest) caps).
Proof.
  intros Hm Hk. unfold lit_text, seq. rewrite (lit_text_matches m' m Hm). apply Hk.
Qed.

Lemma lit_found m m' pre post :
  same_letters U m' m ->
  is_Some (re_search U true (lit_text m) (pre ++ m' ++ post)).
Proof.
  intros Hm. unfold re_search. apply search_from_reaches, match_at_is_Some.
  apply lit_reaches; [exact Hm | eauto].
Qed.

Lemma ltd_found m' pre post :
  same_letters U m' (str "ltd") ->
  is_Some (re_search U true (seq [lit "ltd"; opt1 dot]) (pre ++ m' ++ post)).
Proof.
  intros Hm. unfold re_search. apply search_from_reaches, match_at_is_Some.
  cbn [seq fold_right rmatch]. apply lit_reaches; [exact Hm|].
  intros st. unfold opt1. apply rep_zero_some. simpl. eauto.
Qed.

Lemma marker_found m m' pre post :
  In m marker_texts -> same_letters U m' m ->
  existsb (fun mk => match re_search U true mk (pre ++ m' ++ post) with
                     | Some _ => true
                     | None => false
                     end) COMPANY_MARKERS = true.
Proof.
  intros Hin Hm.
  assert (Hgen : forall mk,
             In mk COMPANY_MARKERS ->
             is_Some (re_search U true mk (pre ++ m' ++ post)) ->
             existsb (fun mk => match re_search U true mk (pre ++ m' ++ post) with
                                | Some _ => true
                                | None => false
                                end) COMPANY_MARKERS = true).
  { intros mk Hmk [mo Hmo]. apply List.existsb_exists.
    exists mk. split; [exact Hmk | now rewrite Hmo]. }
  unfold marker_texts in Hin. cbn [In] in Hin.
  repeat (destruct Hin as [<- | Hin];
          [first [ eapply Hgen; cycle 1;
                   [apply lit_found, Hm
                   | unfold COMPANY_MARKERS; solve [repeat first [left; reflexivity | right]] ]
                 | eapply Hgen; cycle 1;
                   [apply ltd_found, Hm
                   | unfold COMPANY_MARKERS; solve [repeat first [left; reflexivity | right]] ] ]
          |]).
  contradiction.
Qed.

Lemma clean_company_name_length s : (length (clean_company_name U s) <= 60)%nat.
Proof.
  unfold clean_company_name.
  destruct (Nat.ltb_spec 60 (length (strip_chars (str " .,-")
      (re_sub U false SPACES (str " ")
         (re_sub U true ADDRESS []
            (re_sub U false PHONE []
               (re_sub U false EMAIL []
                  (re_sub U false LEADING_JUNK [] (strip U s))))))))) as [H | H];
    [|exact H].
  unfold rstrip. etransitivity; [apply rstrip_by_length|].
  rewrite length_take. lia.
Qed.

Lemma first_clean_length l r :
  first_clean U l = Some r -> (3 <= length r <= 60)%nat.
Proof.
  induction l as [|x l IH]; cbn [first_clean]; [discriminate|].
  destruct (3 <=? length (clean_company_name U x))%nat eqn:E; [|exact IH].
  apply Nat.leb_le in E. intros [= <-]. split; [exact E | apply clean_company_name_length].
Qed.

End CompanyFacts.



Section CompanyResults.
Context (U : tables).

(** X7: A cleaned company name has at most 60 characters, does not begin
    with a space, a dot, a comma or a hyphen, and does not end with a
    space. *)
Theorem clean_company_name_bounds (s : text) :
  (length (clean_company_name U s) <= 60)%nat
  /\ head_free (char_in (str " .,-")) (clean_company_name U s)
  /\ head_free (N.eqb 32) (rev (clean_company_name U s)).
Proof.
  split; [apply (clean_company_name_length U)|].
  unfold clean_company_name.
  generalize (re_sub U false SPACES (str " ")
                (re_sub U true ADDRESS []
                   (re_sub U false PHONE []
                      (re_sub U false EMAIL []
                         (re_sub U false LEADING_JUNK [] (strip U s)))))).
  intros x. unfold strip_chars, rstrip.
  destruct (strip_by_ends (char_in (str " .,-")) x) as [Hh Hl].
  destruct (60 <? length (strip_by (char_in (str " .,-")) x))%nat.
  - split.
    + apply rstrip_by_keeps_head, take_keeps_head, Hh.
    + eapply head_free_weaken; [|apply rstrip_by_last_free].
      intros c Hc. apply N.eqb_eq in Hc. now subst c.
  - split; [exact Hh|].
    eapply head_free_weaken; [|exact Hl].
    intros c Hc. apply N.eqb_eq in Hc. now subst c.
Qed.

(** X8: The supplier that [extract_supplier] returns is either a cleaned
    line of 3 to 60 characters, or the capitalized first label of a
    domain name, which is not empty; so it is never the empty text when
    title-casing a character gives at least one character. *)
Theorem extract_supplier_result (t r : text) :
  extract_supplier U t = Some r ->
  ((3 <= length r <= 60)%nat \/
   exists mo, re_search U true DOMAIN t = Some mo /\ group mo 1 <> [] /\
              r = capitalize U (group mo 1))
  /\ ((forall c, u_title U c <> []) -> r <> []).
Proof.
  intros H.
  assert (Hcases : (3 <= length r <= 60)%nat \/
                   exists mo, re_search U true DOMAIN t = Some mo /\ group mo 1 <> [] /\
                              r = capitalize U (group mo 1)).
  { unfold extract_supplier in H.
    destruct (first_clean U (find_first_by_hints U t SUPPLIER_HINT_WORDS)) as [c1|] eqn:E1.
    - injection H as <-. left. exact (first_clean_length U _ _ E1).
    - destruct (first_clean U (filter (looks_like_company U) (take 12 (stripped_lines U t))))
        as [c2|] eqn:E2.
      + injection H as <-. left. exact (first_clean_length U _ _ E2).
      + destruct (re_search U true DOMAIN t) as [[st w cn]|] eqn:E3; [|discriminate].
        injection H as <-. right. exists (MatchObj st w cn).
        split; [reflexivity|]. split; [|reflexivity].
        apply re_search_covers in E3 as [Hc _]. now apply (domain_group U). }
  split; [exact Hcases|]. intros Htitle.
  destruct Hcases as [Hlen | (mo & _ & Hne & ->)].
  - intros ->. simpl in Hlen. lia.
  - destruct (group mo 1) as [|c g]; [contradiction|].
    unfold capitalize, title_char. intros E.
    apply app_eq_nil in E as [E _].
    destruct (is_ascii c); [discriminate | exact (Htitle c E)].
Qed.

(** X9: A line that holds one of the company markers anywhere, in any letter
    case, even inside a word, is taken for a company name. *)
Theorem looks_like_company_marker (m m' pre post : text) :
  In m marker_texts -> same_letters U m' m ->
  looks_like_company U (pre ++ m' ++ post) = true.
Proof.
  intros Hin Hm. unfold looks_like_company.
  now rewrite (marker_found U m m' pre post Hin Hm).
Qed.

End CompanyResults.

(** The theorem at work on a text that holds a domain name and nothing else. *)
Lemma extract_supplier_result_witness :
  extract_supplier ascii_only (str "acme.cz") = Some (str "Acme")
  /\ str "Acme" <> [].
Proof.
  assert (E : extract_supplier ascii_only (str "acme.cz") = Some (str "Acme"))
    by (vm_compute; reflexivity).
  split; [exact E|].
  apply (proj2 (extract_supplier_result ascii_only _ _ E)).
  intros c. discriminate.
Defined.

(** The theorem at work on a line that holds [SE] inside a word. *)
Lemma looks_like_company_marker_witness :
  looks_like_company ascii_only (str "PleaSE pay in time") = true.
Proof.
  apply (looks_like_company_marker ascii_only (str "se") (str "SE") (str "Plea")
           (str " pay in time")).
  - unfold marker_texts. simpl. tauto.
  - repeat constructor; simpl; tauto.
Defined.

(** ** Lines after a hint, and dates *)

Lemma map_nth_seq (l : list text) d n :
  forall a, (a + n <= length l)%nat ->
    map (fun j => nth j l d) (List.seq a n) = take n (drop a l).
Proof.
  induction n as [|n IH]; intros a Ha; [reflexivity|].
  cbn [List.seq map].
  destruct (lookup_lt_is_Some_2 l a) as [x Hx]; [lia|].
  rewrite (drop_S l x a Hx). cbn [take]. rewrite IH by lia.
  f_equal. now apply nth_lookup_Some.
Qed.

Lemma flat_map_singletons {A B : Type} (f : A -> B) (p : A -> bool) (q : B -> bool) l :
  (forall x, In x l -> p x = q (f x)) ->
  flat_map (fun x => if p x then [f x] else []) l = filter q (map f l).
Proof.
  induction l as [|x l IH]; intros H; [reflexivity|].
  cbn [flat_map map]. rewrite filter_cons, <- (H x) by now left.
  rewrite IH by (intros y Hy; apply H; now right).
  now destruct (p x).
Qed.

Lemma first_truthy_some {A : Type} (f : A -> option text) l r :
  first_truthy f l = Some r -> exists x, In x l /\ f x = Some r.
Proof.
  induction l as [|x l IH]; simpl; [discriminate|].
  destruct (truthy (f x)).
  - intros H. exists x. split; [now left | exact H].
  - intros H. apply IH in H as (y & Hy & Hf). exists y. split; [now right | exact Hf].
Qed.

Lemma lstrip_by_run p a s :
  Forall (fun c => p c = true) a -> lstrip_by p (a ++ s) = lstrip_by p s.
Proof. induction 1 as [|c a Hc _ IH]; simpl; [reflexivity|]. now rewrite Hc. Qed.

Lemma lstrip_by_all p a : Forall (fun c => p c = true) a -> lstrip_by p a = [].
Proof. induction 1 as [|c a Hc _ IH]; simpl; [reflexivity|]. now rewrite Hc. Qed.

Lemma rstrip_by_run p s b :
  Forall (fun c => p c = true) b -> rstrip_by p (s ++ b) = rstrip_by p s.
Proof.
  intros Hb. unfold rstrip_by. rewrite rev_app_distr, lstrip_by_run; [reflexivity|].
  apply Forall_forall. intros y Hy. rewrite Forall_forall in Hb. apply Hb.
  apply list_elem_of_In. apply list_elem_of_In in Hy. now apply List.in_rev.
Qed.

Lemma strip_by_padding p a s b :
  Forall (fun c => p c = true) a -> Forall (fun c => p c = true) b ->
  strip_by p (a ++ s ++ b) = strip_by p s.
Proof.
  intros Ha Hb. unfold strip_by. rewrite (lstrip_by_run p a _ Ha).
  destruct (lstrip_by_infix p s) as (a' & Hs & Ha').
  pose proof (lstrip_by_head_free p s) as Hx.
  destruct (lstrip_by p s) as [|x l] eqn:E.
  - rewrite app_nil_r in Hs. subst a'.
    rewrite lstrip_by_all by (apply Forall_app; split; assumption). reflexivity.
  - rewrite Hs at 1. rewrite <- app_assoc, (lstrip_by_run p a' _ Ha').
    simpl in Hx. cbn [app lstrip_by]. rewrite Hx.
    now rewrite app_comm_cons, rstrip_by_run.
Qed.

Section HintFacts.
Context (U : tables).

(** The loop of lines 111 to 113 takes the lines after the one at
    [idx], three at most, and keeps those that are long enough. *)
Lemma candidates_after_spec lines idx :
  candidates_after lines idx = filter long_enough (take 3 (drop (S idx) lines)).
Proof.
  unfold candidates_after.
  destruct (Nat.le_gt_cases (length lines) idx) as [Hle | Hgt].
  - replace (Nat.min (idx + 4) (length lines) - idx)%nat with 0%nat by lia.
    rewrite drop_ge by lia. reflexivity.
  - replace (Nat.min (idx + 4) (length lines) - idx)%nat
      with (S (Nat.min 3 (length lines - S idx))) by lia.
    cbn [List.seq flat_map]. rewrite Nat.eqb_refl. cbn [negb andb app].
    rewrite (flat_map_singletons (fun j => nth j lines []) _ long_enough).
    + rewrite map_nth_seq by lia. f_equal.
      rewrite <- (length_drop lines (S idx)).
      destruct (Nat.le_gt_cases 3 (length (drop (S idx) lines))).
      * now rewrite Nat.min_l by lia.
      * rewrite Nat.min_r by lia. rewrite firstn_all, take_ge by lia. reflexivity.
    + intros j Hj. apply List.in_seq in Hj.
      destruct (Nat.eqb_spec j idx); [lia | reflexivity].
Qed.

Lemma line_index_spec before l after pos :
  forall acc i,
    (acc + line_start before <= pos)%nat ->
    (pos <= acc + line_start before + length l)%nat ->
    line_index (before ++ l :: after) pos acc i = (i + length before)%nat.
Proof.
  unfold line_start.
  induction before as [|b before IH]; intros acc i H1 H2; cbn [app line_index].
  - simpl in H1, H2. destruct (Nat.ltb_spec pos (acc + (length l + 1))); simpl; lia.
  - cbn [flat_map] in H1, H2. rewrite !length_app in H1, H2. cbn [length] in H1, H2.
    destruct (Nat.ltb_spec pos (acc + (length b + 1))) as [H | H];
      unfold text, char in *; [lia|].
    rewrite IH by lia. simpl. lia.
Qed.

Lemma find_first_by_hints_app t hs1 hs2 :
  find_first_by_hints U t (hs1 ++ hs2)
  = find_first_by_hints U t hs1 ++ find_first_by_hints U t hs2.
Proof. unfold find_first_by_hints. apply flat_map_app. Qed.

Lemma find_first_by_hints_absent t hs :
  Forall (fun h => re_search U true h (join [10] (stripped_lines U t)) = None) hs ->
  find_first_by_hints U t hs = [].
Proof.
  unfold find_first_by_hints. induction 1 as [|h hs Hh _ IH]; [reflexivity|].
  cbn [flat_map]. now rewrite Hh, IH.
Qed.

(** The candidates of one hint word whose first occurrence lies in the
    line [l]. *)
Lemma find_first_by_hints_one t hw before l after mo :
  stripped_lines U t = before ++ l :: after ->
  re_search U true hw (join [10] (stripped_lines U t)) = Some mo ->
  (line_start before <= m_start mo <= line_start before + length l)%nat ->
  find_first_by_hints U t [hw] = filter long_enough (take 3 after).
Proof.
  intros Hl Hm [H1 H2]. unfold find_first_by_hints. cbn [flat_map].
  rewrite Hm, app_nil_r, candidates_after_spec, Hl.
  match goal with
  | |- context [line_index ?a ?b ?c ?d] =>
      replace (line_index a b c d) with (length before)
        by (symmetry; apply (line_index_spec before l after (m_start mo) 0 0);
            simpl; lia)
  end.
  f_equal. f_equal.
  replace (S (length before)) with (length before + 1)%nat by lia.
  rewrite <- drop_drop, drop_app_length. reflexivity.
Qed.

End HintFacts.



Section HintResults.
Context (U : tables).

(** X10: Every line that [find_first_by_hints] yields is a stripped line of
    the text with at least three characters; there are at most three
    lines for each hint word; and a text of one line yields nothing,
    since the hint's own line is never a candidate. *)
Theorem find_first_by_hints_candidates (t : text) (hint_words : list regex) :
  Forall (fun l => In l (stripped_lines U t) /\ (3 <= length l)%nat)
         (find_first_by_hints U t hint_words)
  /\ (length (find_first_by_hints U t hint_words) <= 3 * length hint_words)%nat
  /\ ((length (stripped_lines U t) <= 1)%nat -> find_first_by_hints U t hint_words = []).
Proof.
  unfold find_first_by_hints.
  generalize (join [10] (stripped_lines U t)). intros joined.
  induction hint_words as [|hw hs (IH1 & IH2 & IH3)].
  - repeat split; [constructor | simpl; lia].
  - cbn [flat_map].
    assert (Hc : forall idx,
               Forall (fun l => In l (stripped_lines U t) /\ (3 <= length l)%nat)
                      (candidates_after (stripped_lines U t) idx)
               /\ (length (candidates_after (stripped_lines U t) idx) <= 3)%nat
               /\ ((length (stripped_lines U t) <= 1)%nat ->
                   candidates_after (stripped_lines U t) idx = [])).
    { intros idx. rewrite candidates_after_spec. split; [|split].
      - apply Forall_forall. intros l Hl.
        apply list_elem_of_filter in Hl as [Hlen Hl].
        apply Is_true_true, Nat.leb_le in Hlen. split; [|exact Hlen].
        apply list_elem_of_In.
        eapply elem_of_sublist; [exact Hl|].
        etransitivity; [apply sublist_take | apply sublist_drop].
      - etransitivity; [apply length_filter|]. rewrite length_take. lia.
      - intros H1. rewrite drop_ge by lia. reflexivity. }
    destruct (re_search U true hw joined) as [mo|].
    + destruct (Hc (line_index (stripped_lines U t) (m_start mo) 0 0)) as (C1 & C2 & C3).
      split; [apply Forall_app; split; assumption|].
      split; [rewrite length_app; simpl; lia|].
      intros H1. now rewrite C3, IH3.
    + split; [exact IH1|]. split; [simpl; lia | exact IH3].
Qed.

(** X11: When the first occurrence of a hint word lies in the line [l], the
    candidates for that word are the lines after [l], three at most,
    that have at least three characters. *)
Theorem find_first_by_hints_after_hint (t : text) (hw : regex)
    (before : list text) (l : text) (after : list text) (mo : match_obj) :
  stripped_lines U t = before ++ l :: after ->
  re_search U true hw (join [10] (stripped_lines U t)) = Some mo ->
  (line_start before <= m_start mo <= line_start before + length l)%nat ->
  find_first_by_hints U t [hw] = filter long_enough (take 3 after).
Proof. apply find_first_by_hints_one. Qed.

End HintResults.

(** The theorem at work: the hint is in the second of four lines, and
    the third line is too short. *)
Lemma find_first_by_hints_after_hint_witness :
  find_first_by_hints ascii_only
    (str "Faktura 7" ++ [10] ++ str "Datum: 1.2.2025" ++ [10] ++ str "x" ++ [10]
     ++ str "Splatnost 15.2.2025") [lit "datum"]
  = [str "Splatnost 15.2.2025"].
Proof.
  eapply (find_first_by_hints_after_hint ascii_only _ (lit "datum")
            [str "Faktura 7"] (str "Datum: 1.2.2025")
            [str "x"; str "Splatnost 15.2.2025"]).
  - vm_compute. reflexivity.
  - vm_compute. reflexivity.
  - vm_compute. lia.
Defined.

Section DateResults.
Context (U : tables).
Context (dparser_parse : datetime -> text -> option datetime).
Context (today : datetime).

Lemma strftime_nonempty dt : strftime U dt <> [].
Proof.
  unfold strftime, isoformat. intros E.
  apply app_eq_nil in E as [_ E]. discriminate.
Qed.

Lemma normalize_date_truthy s r :
  normalize_date U dparser_parse today s = Some r ->
  truthy (normalize_date U dparser_parse today s) = true.
Proof.
  intros H. rewrite H. apply normalize_date_datetime in H as [dt ->].
  pose proof (strftime_nonempty dt). now destruct (strftime U dt).
Qed.

Lemma extract_date_datetime t r :
  extract_date U dparser_parse today t = Some r ->
  exists s, normalize_date U dparser_parse today s = Some r.
Proof.
  unfold extract_date.
  destruct (first_truthy _ (find_first_by_hints U t DATE_HINT_WORDS)) as [d1|] eqn:E1.
  - intros [= <-]. apply first_truthy_some in E1 as (x & _ & Hx). eauto.
  - destruct (first_truthy _ (flat_map _ DATE_REGEXES)) as [d2|] eqn:E2.
    + intros [= <-]. apply first_truthy_some in E2 as (x & _ & Hx). eauto.
    + eauto.
Qed.

(** X12: White space around a text does not change the date read from it. *)
Theorem normalize_date_ignores_outer_space (a s b : text) :
  Forall (fun c => is_space U c = true) a ->
  Forall (fun c => is_space U c = true) b ->
  normalize_date U dparser_parse today (a ++ s ++ b)
  = normalize_date U dparser_parse today s.
Proof.
  intros Ha Hb. unfold normalize_date, strip.
  now rewrite (strip_by_padding (is_space U) a s b Ha Hb).
Qed.

(** X13: A text without any digit gets nothing from the numeric patterns:
    its date is what the fallback parser reads in the stripped text. *)
Theorem normalize_date_without_digits (s : text) :
  digit_free U s ->
  normalize_date U dparser_parse today s
  = fallback_date U dparser_parse today (strip U s).
Proof.
  intros Hf. unfold normalize_date.
  assert (Hs : digit_free U (strip U s)) by (apply strip_by_Forall, Hf).
  unfold DATE_REGEXES. cbn [numeric_date]. unfold re_search.
  now rewrite !(search_digit_free U) by (reflexivity || assumption).
Qed.

(** X14: Whatever [extract_date] returns is the rendering of a real calendar
    date, a text that is not empty; and it returns a date whenever the
    fallback parser reads one in the whole text. *)
Theorem extract_date_returns_calendar_date (t : text) :
  (forall r, extract_date U dparser_parse today t = Some r ->
     r <> [] /\
     exists y m d : Z,
       r = isoformat U y m d /\ valid_ymd y m d = true /\
       (1 <= y <= 9999)%Z /\ (1 <= m <= 12)%Z /\ (1 <= d <= 31)%Z)
  /\ (extract_date U dparser_parse today t = None ->
      dparser_parse today (strip U t) = None).
Proof.
  split.
  - intros r H. apply extract_date_datetime in H as [s H].
    apply normalize_date_datetime in H as [[y m d Hv] ->].
    split; [apply strftime_nonempty|].
    exists y, m, d. split; [reflexivity|]. split; [exact Hv|].
    now apply valid_ymd_bounds.
  - unfold extract_date.
    destruct (first_truthy _ (find_first_by_hints U t DATE_HINT_WORDS)); [discriminate|].
    destruct (first_truthy _ (flat_map _ DATE_REGEXES)); [discriminate|].
    unfold normalize_date, fallback_date.
    destruct (numeric_date U DATE_REGEXES (strip U t)); [discriminate|].
    now destruct (dparser_parse today (strip U t)).
Qed.

(** X15: The date on the line after a hint wins: when the first hint word
    that occurs in the text lies in the line [l], and the next line has
    at least three characters and holds a date, [extract_date] returns
    that date, whatever the line [l] itself holds. *)
Theorem extract_date_line_after_hint (t : text) (hs1 : list regex) (hw : regex)
    (hs2 : list regex) (before : list text) (l nxt : text) (after : list text)
    (mo : match_obj) (d : text) :
  DATE_HINT_WORDS = hs1 ++ hw :: hs2 ->
  Forall (fun h => re_search U true h (join [10] (stripped_lines U t)) = None) hs1 ->
  stripped_lines U t = before ++ l :: nxt :: after ->
  re_search U true hw (join [10] (stripped_lines U t)) = Some mo ->
  (line_start before <= m_start mo <= line_start before + length l)%nat ->
  (3 <= length nxt)%nat ->
  normalize_date U dparser_parse today nxt = Some d ->
  extract_date U dparser_parse today t = Some d.
Proof.
  intros Hh Habs Hl Hm Hpos Hlen Hd. unfold extract_date. rewrite Hh.
  change (hs1 ++ hw :: hs2) with (hs1 ++ [hw] ++ hs2).
  rewrite !find_first_by_hints_app, (find_first_by_hints_absent U t hs1 Habs).
  rewrite (find_first_by_hints_one U t hw before l (nxt :: after) mo Hl Hm Hpos).
  cbn [app take]. rewrite filter_cons.
  rewrite decide_True by (apply Is_true_true, Nat.leb_le; exact Hlen).
  cbn [app first_truthy]. rewrite (normalize_date_truthy nxt d Hd), Hd. reflexivity.
Qed.

End DateResults.

(** The theorem at work on a date between spaces and a line feed. *)
Lemma normalize_date_ignores_outer_space_witness :
  normalize_date ascii_only (fun _ _ => None) day_2026_11_03
    (str "  " ++ str "12.09.2025" ++ [10])
  = normalize_date ascii_only (fun _ _ => None) day_2026_11_03 (str "12.09.2025").
Proof.
  apply (normalize_date_ignores_outer_space ascii_only (fun _ _ => None) day_2026_11_03
           (str "  ") (str "12.09.2025") [10]); repeat constructor.
Defined.

(** The theorem at work on a text without digits. *)
Lemma normalize_date_without_digits_witness :
  normalize_date ascii_only dateutil_fragment day_2026_11_03 (str "no date here")
  = fallback_date ascii_only dateutil_fragment day_2026_11_03
      (strip ascii_only (str "no date here")).
Proof.
  apply (normalize_date_without_digits ascii_only dateutil_fragment day_2026_11_03).
  repeat constructor.
Defined.

(** The theorem at work on a date inside a sentence. *)
Lemma extract_date_returns_calendar_date_witness :
  str "2025-09-12" <> [].
Proof.
  apply (proj1 (extract_date_returns_calendar_date ascii_only (fun _ _ => None)
                  day_2026_11_03 (str "due 12.09.2025"))
               (str "2025-09-12")).
  vm_compute. reflexivity.
Defined.

(** The theorem at work: the hint line holds the first of February, the
    line after it the fifteenth. *)
Lemma extract_date_line_after_hint_witness :
  extract_date ascii_only (fun _ _ => None) day_2026_11_03
    (str "Datum: 1.2.2025" ++ [10] ++ str "Splatnost 15.2.2025")
  = Some (str "2025-02-15").
Proof.
  eapply (extract_date_line_after_hint ascii_only (fun _ _ => None) day_2026_11_03 _
            (firstn 4 DATE_HINT_WORDS) (lit "datum") [lit "date"]
            [] (str "Datum: 1.2.2025") (str "Splatnost 15.2.2025") []).
  - reflexivity.
  - repeat constructor.
  - vm_compute. reflexivity.
  - vm_compute. reflexivity.
  - vm_compute. lia.
  - vm_compute. lia.
  - vm_compute. reflexivity.
Defined.

(** ** The names in the log, and the renaming *)

Section RenamingFacts.
Context (os_sep : char) (os_altsep : option char).
Context (E : collaborators).
Context {file : Type}.
Context (permitted : gmap text file -> text -> text -> bool).

Lemma resolve_collision_free (existing : gset text) (dst : text) :
  exists r, resolve_collision os_sep os_altsep existing dst = Some r /\ r ∉ existing.
Proof.
  unfold resolve_collision.
  destruct (splitext os_sep os_altsep dst) as [b e] eqn:Es.
  pose proof (splitext_app _ _ _ _ _ Es) as Hbe.
  destruct (resolve_loop_total existing b e) as [r Hr]. rewrite Hbe in Hr.
  exists r. split; [exact Hr|]. now apply resolve_loop_some in Hr as [Hfree _].
Qed.

Lemma os_replace_files (fs fs' : gmap text file) (src dst : text) :
  dst ∉ dom fs -> os_replace permitted fs src dst = Some fs' ->
  files_of fs' ≡ₚ files_of fs.
Proof.
  unfold os_replace, files_of. intros Hd.
  destruct (fs !! src) as [f|] eqn:Hs; [|discriminate].
  destruct (permitted fs src dst); [|discriminate]. intros [= <-].
  apply not_elem_of_dom in Hd.
  rewrite map_to_list_insert by (rewrite lookup_delete_ne; [exact Hd | congruence]).
  rewrite <- (insert_delete_id fs src f Hs) at 2.
  rewrite map_to_list_insert by apply lookup_delete_eq.
  reflexivity.
Qed.

Lemma os_replace_other (fs fs' : gmap text file) (src dst p : text) (f : file) :
  dst ∉ dom fs -> src <> p -> fs !! p = Some f ->
  os_replace permitted fs src dst = Some fs' -> fs' !! p = Some f.
Proof.
  unfold os_replace. intros Hd Hsp Hp.
  destruct (fs !! src) as [g|]; [|discriminate].
  destruct (permitted fs src dst); [|discriminate]. intros [= <-].
  rewrite lookup_insert_ne, lookup_delete_ne; [exact Hp | exact Hsp |].
  intros ->. apply Hd. apply elem_of_dom. eauto.
Qed.

Lemma rename_row_files (in_dir : text) (fs : gmap text file) (w : list text) (r : row) :
  exists fs' w',
    rename_row os_sep os_altsep E permitted in_dir (fs, w) r = Some (fs', w') /\
    files_of fs' ≡ₚ files_of fs /\
    (forall p f, fs !! p = Some f ->
       (to_rename r = true -> os_path_join E in_dir (original_file r) <> p) ->
       fs' !! p = Some f).
Proof.
  unfold rename_row. cbn [fst snd].
  destruct (to_rename r); [|exists fs, w; repeat split; auto].
  destruct (resolve_collision_free (dom fs)
              (os_path_join E in_dir (proposed_name r))) as (dst' & -> & Hfree).
  destruct (os_replace permitted fs _ dst') as [fs'|] eqn:Hr.
  - exists fs', w. split; [reflexivity|]. split.
    + eapply os_replace_files; eassumption.
    + intros p f Hp Hsrc. eapply os_replace_other; eauto.
  - exists fs, (w ++ [original_file r]). repeat split; auto.
Qed.

Lemma rename_rows_files (in_dir : text) (rows : list row) :
  forall (fs : gmap text file) (w : list text),
  exists fs' w',
    rename_rows os_sep os_altsep E permitted in_dir rows (fs, w) = Some (fs', w') /\
    files_of fs' ≡ₚ files_of fs /\
    (forall p f, fs !! p = Some f ->
       Forall (fun r => to_rename r = true ->
                        os_path_join E in_dir (original_file r) <> p) rows ->
       fs' !! p = Some f).
Proof.
  induction rows as [|r rows IH]; intros fs w; cbn [rename_rows].
  - exists fs, w. repeat split; auto.
  - destruct (rename_row_files in_dir fs w r) as (fs1 & w1 & -> & Hf1 & Ho1).
    destruct (IH fs1 w1) as (fs2 & w2 & -> & Hf2 & Ho2).
    exists fs2, w2. split; [reflexivity|]. split; [now rewrite Hf2|].
    intros p f Hp Hall. inversion Hall as [|? ? Hr Hrest]; subst.
    apply Ho2; [|exact Hrest]. now apply Ho1.
Qed.

End RenamingFacts.

Section BatchNames.
Context (U : tables).
Context (dparser_parse : datetime -> text -> option datetime).
Context (today : datetime).
Context (E : collaborators).

Lemma status_error_not_ok msg : status_error msg <> STATUS_OK.
Proof. discriminate. Qed.

Lemma row_for_proposed in_dir f :
  let r := row_for U dparser_parse today E in_dir f in
  (status r = STATUS_OK /\
   exists date sup inv,
     proposed_name r = build_new_name U date sup inv)
  \/ (status r <> STATUS_OK /\ proposed_name r = []).
Proof.
  unfold row_for.
  destruct (process_pdf U dparser_parse today E (os_path_join E in_dir f))
    as [[[[d s] i] st]|msg] eqn:He.
  - apply process_pdf_status in He as [-> | ->]; cbn.
    + left. split; [reflexivity|]. eauto.
    + right. split; [discriminate | reflexivity].
  - right. split; [apply status_error_not_ok | reflexivity].
Qed.

End BatchNames.



Section BatchResults.
Context (U : tables).
Context (dparser_parse : datetime -> text -> option datetime).
Context (today : datetime).
Context (E : collaborators).

(** X16: In every row of the batch, the proposed name goes with the status:
    a row with status [OK] proposes a name that ends in [.pdf] and holds
    no reserved character, and every other row proposes no name at
    all. *)
Theorem batch_proposed_names (in_dir : text) (pdfs : list text) :
  Forall (fun r =>
            (status r = STATUS_OK /\
             endswith (proposed_name r) (str ".pdf") = true /\
             Forall (fun c => ~ In c FS_RESERVED) (proposed_name r))
            \/ (status r <> STATUS_OK /\ proposed_name r = []))
         (main_loop U dparser_parse today E in_dir pdfs []).
Proof.
  rewrite main_loop_rows. simpl. apply Forall_forall. intros r Hr.
  change (map ?g ?l) with (g <$> l) in Hr.
  apply list_elem_of_fmap in Hr as (f & -> & _).
  destruct (row_for_proposed U dparser_parse today E in_dir f)
    as [(Hs & d & s & i & Hn) | H]; [left | right; exact H].
  split; [exact Hs|]. rewrite Hn.
  destruct (build_new_name_ending U d s i) as [z Hz].
  split; [rewrite Hz; apply endswith_app|].
  unfold build_new_name. apply sanitize_filename_unreserved.
Qed.

End BatchResults.

Section RenamingResults.
Context (os_sep : char) (os_altsep : option char).
Context (E : collaborators).
Context {file : Type}.
Context (permitted : gmap text file -> text -> text -> bool).

(** X17: The rename loop always comes to an end, and it neither loses nor
    overwrites nor duplicates a file: the tree afterwards holds the same
    files as before, each under its old or under a new path. *)
Theorem rename_rows_keeps_files (in_dir : text) (rows : list row)
    (fs : gmap text file) (warned : list text) :
  exists fs' warned',
    rename_rows os_sep os_altsep E permitted in_dir rows (fs, warned)
      = Some (fs', warned')
    /\ files_of fs' ≡ₚ files_of fs
    /\ size fs' = size fs.
Proof.
  destruct (rename_rows_files os_sep os_altsep E permitted in_dir rows fs warned)
    as (fs' & w' & Hr & Hf & _).
  exists fs', w'. split; [exact Hr|]. split; [exact Hf|].
  unfold files_of in Hf. apply Permutation_length in Hf.
  rewrite !length_fmap, !length_map_to_list in Hf. exact Hf.
Qed.

(** X18: A path that is not the source of a row to rename still leads to the
    same file afterwards.  In particular the files of the rows with
    status [NO_PAGE] or [ERROR] stay where they are. *)
Theorem rename_rows_leaves_others (in_dir : text) (rows : list row)
    (fs fs' : gmap text file) (warned warned' : list text) (p : text) (f : file) :
  rename_rows os_sep os_altsep E permitted in_dir rows (fs, warned)
    = Some (fs', warned') ->
  fs !! p = Some f ->
  Forall (fun r => to_rename r = true ->
                   os_path_join E in_dir (original_file r) <> p) rows ->
  fs' !! p = Some f.
Proof.
  intros Hr Hp Hall.
  destruct (rename_rows_files os_sep os_altsep E permitted in_dir rows fs warned)
    as (fs1 & w1 & Hr1 & _ & Ho).
  rewrite Hr in Hr1. injection Hr1 as <- <-. now apply Ho.
Qed.

(** X19: A file that already bears its proposed name is renamed all the
    same: the proposed name exists, so the loop moves the file to the
    variant [ (2)], when that one is free and the system permits. *)
Theorem rename_row_same_name (in_dir : text) (r : row)
    (fs : gmap text file) (warned : list text) (f : file) :
  let src := os_path_join E in_dir (original_file r) in
  let base := fst (splitext os_sep os_altsep src) in
  let ext := snd (splitext os_sep os_altsep src) in
  to_rename r = true ->
  proposed_name r = original_file r ->
  fs !! src = Some f ->
  base ++ str " (2)" ++ ext ∉ dom fs ->
  permitted fs src (base ++ str " (2)" ++ ext) = true ->
  rename_row os_sep os_altsep E permitted in_dir (fs, warned) r
  = Some (<[base ++ str " (2)" ++ ext := f]> (delete src fs), warned).
Proof.
  intros src base ext Hto Hname Hsrc Hfree Hperm.
  unfold rename_row. rewrite Hto, Hname. fold src. cbn [fst snd].
  unfold resolve_collision.
  destruct (splitext os_sep os_altsep src) as [b e] eqn:Es. simpl in base, ext.
  subst base ext.
  assert (Hin : src ∈ dom fs) by (apply elem_of_dom; eauto).
  assert (Hsize : (1 <= size (dom fs))%nat).
  { destruct (size (dom fs)) eqn:Hz; [|lia].
    apply size_empty_inv in Hz. rewrite Hz in Hin. now apply not_elem_of_empty in Hin. }
  destruct (size (dom fs)) as [|n]; [lia|].
  cbn [resolve_loop]. rewrite bool_decide_true by exact Hin.
  change (variant b e 2) with (b ++ str " (2)" ++ e).
  rewrite bool_decide_false by exact Hfree.
  unfold os_replace. now rewrite Hsrc, Hperm.
Qed.

End RenamingResults.




(** The theorem at work: [b.pdf] is not in the log and stays. *)
Lemma rename_rows_leaves_others_witness :
  exists fs' warned',
    rename_rows (chr "/") None plain_collaborators (fun _ _ _ => true) (str "in")
      [ok_row (str "a.pdf") (str "2025-09-12 ACME 7.pdf")]
      ({[ str "in/a.pdf" := 1%nat; str "in/b.pdf" := 2%nat ]}, [])
    = Some (fs', warned')
    /\ fs' !! str "in/b.pdf" = Some 2%nat.
Proof.
  destruct (rename_rows_files (chr "/") None plain_collaborators (fun _ _ _ => true)
              (str "in") [ok_row (str "a.pdf") (str "2025-09-12 ACME 7.pdf")]
              ({[ str "in/a.pdf" := 1%nat; str "in/b.pdf" := 2%nat ]} : gmap text nat) [])
    as (fs' & w' & Hr & _ & _).
  exists fs', w'. split; [exact Hr|].
  apply (rename_rows_leaves_others _ _ _ _ _ _ _ _ _ _ _ _ Hr).
  - vm_compute. reflexivity.
  - repeat constructor. intros _ H. vm_compute in H. discriminate.
Defined.

(** The theorem at work: a second run on a file that the first run has
    named. *)
Lemma rename_row_same_name_witness :
  rename_row (chr "/") None plain_collaborators (fun _ _ _ => true) (str "in")
    ({[ str "in/2025-09-12 ACME 7.pdf" := 1%nat ]}, [])
    (ok_row (str "2025-09-12 ACME 7.pdf") (str "2025-09-12 ACME 7.pdf"))
  = Some (<[str "in/2025-09-12 ACME 7 (2).pdf" := 1%nat]>
            (delete (str "in/2025-09-12 ACME 7.pdf")
               ({[ str "in/2025-09-12 ACME 7.pdf" := 1%nat ]} : gmap text nat)), []).
Proof.
  apply (rename_row_same_name (chr "/") None plain_collaborators (fun _ _ _ => true)
           (str "in") (ok_row (str "2025-09-12 ACME 7.pdf") (str "2025-09-12 ACME 7.pdf"))
           ({[ str "in/2025-09-12 ACME 7.pdf" := 1%nat ]} : gmap text nat) [] 1%nat).
  - reflexivity.
  - reflexivity.
  - vm_compute. reflexivity.
  - apply not_elem_of_dom. vm_compute. reflexivity.
  - reflexivity.
Defined.

(** ** Extensions *)

Lemma rfind_acc_app p a b :
  forall i last,
    rfind_acc p (a ++ b) i last = rfind_acc p b (i + length a) (rfind_acc p a i last).
Proof.
  induction a as [|c a IH]; intros i last; simpl.
  - now rewrite Nat.add_0_r.
  - rewrite IH. now rewrite <- Nat.add_succ_comm.
Qed.

Lemma rfind_acc_absent p b :
  Forall (fun c => p c = false) b -> forall i last, rfind_acc p b i last = last.
Proof.
  induction 1 as [|c b Hc _ IH]; intros i last; simpl; [reflexivity|].
  now rewrite Hc, IH.
Qed.

Lemma rfind_acc_bound p a :
  forall i last,
    (-1 <= last < Z.of_nat i)%Z ->
    (-1 <= rfind_acc p a i last < Z.of_nat (i + length a))%Z.
Proof.
  induction a as [|c a IH]; intros i last H; simpl.
  - rewrite Nat.add_0_r. exact H.
  - rewrite <- Nat.add_succ_comm. apply IH. destruct (p c); lia.
Qed.

Lemma rfind_bound c s : (-1 <= rfind c s < Z.of_nat (length s))%Z.
Proof. unfold rfind. apply (rfind_acc_bound _ s 0 (-1)%Z). lia. Qed.

Lemma rfind_absent_tail c a b :
  Forall (fun x => x <> c) b -> rfind c (a ++ b) = rfind c a.
Proof.
  intros H. unfold rfind. rewrite rfind_acc_app. apply rfind_acc_absent.
  eapply Forall_impl; [exact H|]. intros x Hx. apply N.eqb_neq. congruence.
Qed.

Lemma rfind_last c a b :
  Forall (fun x => x <> c) b -> rfind c (a ++ c :: b) = Z.of_nat (length a).
Proof.
  intros H. unfold rfind. rewrite rfind_acc_app. simpl. rewrite N.eqb_refl.
  apply rfind_acc_absent.
  eapply Forall_impl; [exact H|]. intros x Hx. apply N.eqb_neq. congruence.
Qed.

Section ExtensionFacts.
Context (os_sep : char) (os_altsep : option char).

(** The split of a path whose last component is a name with a
    character other than a dot, followed by a dot and an extension. *)
Lemma splitext_name d n x :
  Forall (fun c => c <> os_sep /\ Some c <> os_altsep) (n ++ chr "." :: x) ->
  Forall (fun c => c <> chr ".") x ->
  Exists (fun c => c <> chr ".") n ->
  splitext os_sep os_altsep (d ++ n ++ chr "." :: x) = (d ++ n, chr "." :: x).
Proof.
  intros Hsep Hdot Hn. unfold splitext.
  set (p := d ++ n ++ chr "." :: x).
  assert (Hd : rfind (chr ".") p = Z.of_nat (length (d ++ n))).
  { unfold p. rewrite app_assoc. now apply rfind_last. }
  set (sepIndex := Z.max (rfind os_sep p)
                     (match os_altsep with Some a => rfind a p | None => (-1)%Z end)).
  assert (Hs : (-1 <= sepIndex < Z.of_nat (length d))%Z).
  { apply Forall_and in Hsep as [Hs1 Hs2].
    assert (H1 : (-1 <= rfind os_sep p < Z.of_nat (length d))%Z).
    { unfold p. rewrite rfind_absent_tail by exact Hs1. apply rfind_bound. }
    assert (H2 : (-1 <= match os_altsep with Some a => rfind a p | None => (-1)%Z end
                  < Z.of_nat (length d))%Z).
    { destruct os_altsep as [a|]; [|lia].
      unfold p. rewrite rfind_absent_tail; [apply rfind_bound|].
      eapply Forall_impl; [exact Hs2|]. intros c Hc ->. now apply Hc. }
    unfold sepIndex. lia. }
  rewrite Hd. rewrite length_app in *.
  assert (Hlt : (sepIndex <? Z.of_nat (length d + length n))%Z = true)
    by (apply Z.ltb_lt; lia).
  rewrite Hlt. cbn [andb].
  set (k := Z.to_nat (sepIndex + 1)).
  assert (Hk : (k <= length d)%nat) by (unfold k; lia).
  assert (Hseg : take (Z.to_nat (Z.of_nat (length d + length n) - (sepIndex + 1)))
                   (drop k p) = drop k d ++ n).
  { unfold p. rewrite drop_app_le by exact Hk.
    rewrite app_assoc. apply take_app_length'.
    rewrite length_app, length_drop. unfold k. lia. }
  rewrite Hseg.
  assert (Hex : existsb (fun c => negb (c =? chr ".")) (drop k d ++ n) = true).
  { apply List.existsb_exists. apply Exists_exists in Hn as (c & Hc & Hne).
    exists c. split; [apply List.in_or_app; right; now apply list_elem_of_In|].
    apply negb_true_iff, N.eqb_neq, Hne. }
  rewrite Hex. rewrite Nat2Z.id. unfold p.
  rewrite app_assoc, <- length_app, take_app_length, drop_app_length. reflexivity.
Qed.

End ExtensionFacts.



Section ExtensionResults.
Context (os_sep : char) (os_altsep : option char).

(** X20: The disambiguator goes before the extension, which is kept: for a
    path whose last component is a name, with a character other than a
    dot in it, followed by a dot and an extension, the resolver returns
    the path itself or the path with [ (k)] put between the name and the
    dot. *)
Theorem resolve_collision_keeps_extension (existing : gset text) (d n x r : text) :
  Forall (fun c => c <> os_sep /\ Some c <> os_altsep) (n ++ chr "." :: x) ->
  Forall (fun c => c <> chr ".") x ->
  Exists (fun c => c <> chr ".") n ->
  resolve_collision os_sep os_altsep existing (d ++ n ++ chr "." :: x) = Some r ->
  r = d ++ n ++ chr "." :: x
  \/ exists k, (2 <= k)%nat /\
       r = d ++ n ++ str " (" ++ str_of_nat k ++ str ")" ++ chr "." :: x.
Proof.
  intros Hsep Hdot Hn. unfold resolve_collision.
  rewrite (splitext_name os_sep os_altsep d n x Hsep Hdot Hn).
  intros Hr. apply resolve_loop_some in Hr as [_ [[_ ->] | [_ (k & Hk & -> & _)]]].
  - now left.
  - right. exists k. split; [exact Hk|]. unfold variant. now rewrite <- !app_assoc.
Qed.

End ExtensionResults.

(** The theorem at work in a directory that holds the proposed name and
    its variant 2. *)
Lemma resolve_collision_keeps_extension_witness :
  str "in/2025-09-12 ACME 7 (3).pdf" = str "in/" ++ str "2025-09-12 ACME 7" ++ chr "." :: str "pdf"
  \/ exists k, (2 <= k)%nat /\
       str "in/2025-09-12 ACME 7 (3).pdf"
       = str "in/" ++ str "2025-09-12 ACME 7" ++ str " (" ++ str_of_nat k ++ str ")"
         ++ chr "." :: str "pdf".
Proof.
  apply (resolve_collision_keeps_extension (chr "/") None
           {[ str "in/2025-09-12 ACME 7.pdf"; str "in/2025-09-12 ACME 7 (2).pdf" ]}
           (str "in/") (str "2025-09-12 ACME 7") (str "pdf")).
  - repeat constructor; discriminate.
  - repeat constructor; discriminate.
  - apply Exists_cons_hd. discriminate.
  - vm_compute. reflexivity.
Defined.

(** ** Dates and suppliers in whole texts *)

Section ScanFacts.
Context (U : tables).

Lemma scan_matches_none ic r s :
  forall prev pos,
    search_from U ic r prev pos s = None -> scan_matches U ic r prev pos s 0 = [].
Proof.
  induction s as [|c t IH]; intros prev pos H; cbn [search_from scan_matches] in *.
  - now destruct (match_at U ic r prev pos []).
  - destruct (match_at U ic r prev pos (c :: t)); [discriminate|]. now apply IH.
Qed.

Lemma scan_matches_skip ic r pre rest :
  digit_led r = true -> digit_free U pre ->
  forall prev pos,
    scan_matches U ic r prev pos (pre ++ rest) 0
    = scan_matches U ic r (prev_after prev pre) (pos + length pre) rest 0.
Proof.
  intros Hr. induction pre as [|c pre IH]; intros Hf prev pos.
  - simpl. now rewrite Nat.add_0_r.
  - inversion Hf as [|? ? Hc Hf']; subst. cbn [app scan_matches].
    rewrite (match_at_digit_led U) by assumption. rewrite IH by assumption.
    rewrite prev_after_cons. simpl length. now rewrite <- Nat.add_succ_comm.
Qed.

Lemma scan_matches_covered ic r a b :
  forall prev pos,
    scan_matches U ic r prev pos (a ++ b) (length a)
    = scan_matches U ic r (prev_after prev a) (pos + length a) b 0.
Proof.
  induction a as [|c a IH]; intros prev pos.
  - simpl. now rewrite Nat.add_0_r.
  - cbn [app length scan_matches]. rewrite IH, prev_after_cons.
    now rewrite <- Nat.add_succ_comm.
Qed.

(** A search that finds its match right where it starts found it at
    its first attempt. *)
Lemma search_from_here ic r prev pos s tx sp :
  search_from U ic r prev pos s = Some (MatchObj pos tx sp) ->
  match_at U ic r prev pos s = Some (MatchObj pos tx sp).
Proof.
  destruct s as [|c t]; cbn [search_from].
  - now destruct (match_at U ic r prev pos []).
  - destruct (match_at U ic r prev pos (c :: t)); [auto|].
    intros H. apply search_from_covers in H as (_ & pre & rest & _ & Hs).
    simpl in Hs. lia.
Qed.

(** The matches that [re.finditer] finds when the search reports the
    fragment, or nothing, and no digit follows the fragment. *)
Lemma scan_matches_fragment r frag post prev pos sp :
  digit_led r = true -> digit_free U post -> frag <> [] ->
  search_from U true r prev pos (frag ++ post) = None \/
  search_from U true r prev pos (frag ++ post) = Some (MatchObj pos frag sp) ->
  Forall (fun mo => m_text mo = frag) (scan_matches U true r prev pos (frag ++ post) 0).
Proof.
  intros Hr Hpost Hne [H | H].
  - rewrite scan_matches_none by exact H. constructor.
  - apply search_from_here in H.
    destruct frag as [|c t]; [contradiction|].
    cbn [app scan_matches]. change (c :: t ++ post) with ((c :: t) ++ post).
    rewrite H. cbn [m_text length Nat.pred].
    rewrite scan_matches_covered, scan_matches_none
      by (apply (search_digit_free U); assumption).
    repeat constructor.
Qed.

End ScanFacts.

Section FragmentFacts.
Context (U : tables).

(** Each date pattern, searched from a fragment on, finds the fragment
    or nothing. *)
Lemma date_search_at_fragment r f g1 g2 g3 s1 s2 prev pos post :
  In r DATE_REGEXES ->
  well_formed f g1 g2 g3 -> is_date_sep s1 -> is_date_sep s2 ->
  word_before U prev = false -> word_after U post = false -> digit_free U post ->
  search_from U true r prev pos (date_fragment g1 s1 g2 s2 g3 ++ post) = None \/
  search_from U true r prev pos (date_fragment g1 s1 g2 s2 g3 ++ post)
  = Some (MatchObj pos (date_fragment g1 s1 g2 s2 g3) (date_spans g1 g2 g3)).
Proof.
  intros Hr Hwf Hs1 Hs2 Hp Ha Hd.
  unfold DATE_REGEXES in Hr. cbn [In] in Hr.
  destruct Hr as [<- | [<- | [<- | []]]]; destruct f.
  - left. now apply dmy_on_year_first.
  - right. apply (dmy_on_day_first U DMY); auto. now left.
  - right. apply (dmy_on_day_first U DMY2); auto. now right.
  - right. now apply ymd_on_year_first.
  - left. apply (ymd_on_day_first U DMY); auto. now left.
  - left. apply (ymd_on_day_first U DMY2); auto. now right.
  - left. now apply spaced_on_year_first.
  - apply (spaced_on_day_first U DMY); auto. now left.
  - apply (spaced_on_day_first U DMY2); auto. now right.
Qed.

Lemma date_fragment_nonempty f g1 s1 g2 s2 g3 :
  well_formed f g1 g2 g3 -> date_fragment g1 s1 g2 s2 g3 <> [].
Proof.
  unfold date_fragment. destruct g1; [|discriminate].
  destruct f; intros ((_ & H & _) & _); simpl in H; lia.
Qed.

Lemma date_regex_digit_led r : In r DATE_REGEXES -> digit_led r = true.
Proof.
  unfold DATE_REGEXES. cbn [In]. intros [<- | [<- | [<- | []]]]; reflexivity.
Qed.

Context (dparser_parse : datetime -> text -> option datetime).
Context (today : datetime).

Lemma normalize_date_fragment f g1 s1 g2 s2 g3 pre post y m d :
  well_formed f g1 g2 g3 -> is_date_sep s1 -> is_date_sep s2 ->
  quiet_context U pre post ->
  reading U f g1 g2 g3 = (y, m, d) -> valid_ymd y m d = true ->
  normalize_date U dparser_parse today (pre ++ date_fragment g1 s1 g2 s2 g3 ++ post)
  = Some (isoformat U y m d).
Proof.
  intros Hwf Hs1 Hs2 Hq Hr Hv.
  destruct (strip_fragment U f g1 s1 g2 s2 g3 pre post Hwf Hq) as (pre' & post' & E & Hq').
  unfold normalize_date. rewrite E.
  now rewrite (numeric_date_valid U f g1 s1 g2 s2 g3 pre' post' y m d).
Qed.

Lemma first_truthy_all {A : Type} (g : A -> option text) (l : list A) (r : text) :
  Forall (fun x => g x = Some r) l -> r <> [] ->
  l = [] \/ first_truthy g l = Some r.
Proof.
  intros H Hr. destruct H as [|x l Hx _]; [now left|]. right.
  cbn [first_truthy]. rewrite Hx. now destruct r.
Qed.

End FragmentFacts.



Section ExtractDateResults.
Context (U : tables).
Context (dparser_parse : datetime -> text -> option datetime).
Context (today : datetime).

(** X21: A text that holds no date hint word and one valid numeric date,
    between word boundaries and with no other digit around it, gets that
    date from [extract_date], whatever the fallback parser would say. *)
Theorem extract_date_numeric_fragment f g1 s1 g2 s2 g3 pre post y m d :
  well_formed f g1 g2 g3 -> is_date_sep s1 -> is_date_sep s2 ->
  quiet_context U pre post ->
  reading U f g1 g2 g3 = (y, m, d) -> valid_ymd y m d = true ->
  Forall (fun h =>
            re_search U true h
              (join [10] (stripped_lines U (pre ++ date_fragment g1 s1 g2 s2 g3 ++ post)))
            = None) DATE_HINT_WORDS ->
  extract_date U dparser_parse today (pre ++ date_fragment g1 s1 g2 s2 g3 ++ post)
  = Some (isoformat U y m d).
Proof.
  intros Hwf Hs1 Hs2 Hq Hr Hv Hh.
  pose proof Hq as (Hpre & Hpost & Hb & Ha).
  unfold extract_date.
  rewrite (find_first_by_hints_absent U _ _ Hh). cbn [first_truthy].
  rewrite (normalize_date_fragment U dparser_parse today f g1 s1 g2 s2 g3 pre post y m d)
    by assumption.
  assert (Hone : normalize_date U dparser_parse today (date_fragment g1 s1 g2 s2 g3)
                 = Some (isoformat U y m d)).
  { pose proof (normalize_date_fragment U dparser_parse today f g1 s1 g2 s2 g3
                  [] [] y m d Hwf Hs1 Hs2) as H.
    rewrite app_nil_r in H. apply H; [|assumption..].
    repeat split; constructor. }
  assert (Hall : Forall (fun mo => normalize_date U dparser_parse today (m_text mo)
                                   = Some (isoformat U y m d))
                   (flat_map (fun rgx =>
                      re_finditer U true rgx (pre ++ date_fragment g1 s1 g2 s2 g3 ++ post))
                      DATE_REGEXES)).
  { apply Forall_flat_map. apply Forall_forall. intros r Hin.
    apply list_elem_of_In in Hin. unfold re_finditer.
    rewrite (scan_matches_skip U) by (auto using date_regex_digit_led).
    eapply Forall_impl.
    - apply (scan_matches_fragment U r _ post _ _ (date_spans g1 g2 g3));
        [now apply date_regex_digit_led | assumption
        | now apply (date_fragment_nonempty f) |].
      apply (date_search_at_fragment U r f); try assumption.
      unfold prev_after. now destruct (last pre).
    - intros mo ->. exact Hone. }
  apply first_truthy_all in Hall as [-> | ->]; [reflexivity | reflexivity |].
  unfold isoformat. intros E. apply app_eq_nil in E as [_ E]. discriminate.
Qed.

End ExtractDateResults.

(** The theorem at work on a date inside a sentence, with a fallback
    parser that would read other things. *)
Lemma extract_date_numeric_fragment_witness :
  extract_date ascii_only dateutil_fragment day_2026_11_03
    (str "Total due " ++ date_fragment (str "12") (chr ".") (str "09") (chr ".") (str "2025")
     ++ str " EUR")
  = Some (isoformat ascii_only 2025 9 12).
Proof.
  apply (extract_date_numeric_fragment ascii_only dateutil_fragment day_2026_11_03 DMY).
  - repeat split; repeat constructor.
  - left; reflexivity.
  - left; reflexivity.
  - repeat split; repeat constructor.
  - reflexivity.
  - reflexivity.
  - repeat constructor.
Defined.

Section SupplierHints.
Context (U : tables).

(** X22: The supplier on the line after a hint: when the first supplier hint
    word that occurs in the text lies in the line [l], and the next line
    and its cleaned form have at least three characters, that cleaned
    line is the supplier. *)
Theorem extract_supplier_line_after_hint (t : text) (hs1 : list regex) (hw : regex)
    (hs2 : list regex) (before : list text) (l nxt : text) (after : list text)
    (mo : match_obj) :
  SUPPLIER_HINT_WORDS = hs1 ++ hw :: hs2 ->
  Forall (fun h => re_search U true h (join [10] (stripped_lines U t)) = None) hs1 ->
  stripped_lines U t = before ++ l :: nxt :: after ->
  re_search U true hw (join [10] (stripped_lines U t)) = Some mo ->
  (line_start before <= m_start mo <= line_start before + length l)%nat ->
  (3 <= length nxt)%nat ->
  (3 <= length (clean_company_name U nxt))%nat ->
  extract_supplier U t = Some (clean_company_name U nxt).
Proof.
  intros Hh Habs Hl Hm Hpos Hlen Hclean. unfold extract_supplier. rewrite Hh.
  change (hs1 ++ hw :: hs2) with (hs1 ++ [hw] ++ hs2).
  rewrite !find_first_by_hints_app, (find_first_by_hints_absent U t hs1 Habs).
  rewrite (find_first_by_hints_one U t hw before l (nxt :: after) mo Hl Hm Hpos).
  cbn [app take]. rewrite filter_cons.
  rewrite decide_True by (apply Is_true_true, Nat.leb_le; exact Hlen).
  cbn [app first_clean].
  apply Nat.leb_le in Hclean. now rewrite Hclean.
Qed.

End SupplierHints.

(** The theorem at work: the supplier stands on the line after the
    hint. *)
Lemma extract_supplier_line_after_hint_witness :
  extract_supplier ascii_only
    (str "Dodavatel:" ++ [10] ++ str "ACME s.r.o." ++ [10] ++ str "Praha")
  = Some (clean_company_name ascii_only (str "ACME s.r.o.")).
Proof.
  eapply (extract_supplier_line_after_hint ascii_only _ [] (lit "dodavatel") _
            [] (str "Dodavatel:") (str "ACME s.r.o.") [str "Praha"]).
  - reflexivity.
  - constructor.
  - vm_compute. reflexivity.
  - vm_compute. reflexivity.
  - vm_compute. lia.
  - vm_compute. lia.
  - vm_compute. lia.
Defined.

(** ** The paths that renaming creates *)

Section NewPaths.
Context (os_sep : char) (os_altsep : option char).
Context (E : collaborators).
Context {file : Type}.
Context (permitted : gmap text file -> text -> text -> bool).

Lemma resolve_collision_settled (existing : gset text) (dst r : text) :
  resolve_collision os_sep os_altsep existing dst = Some r ->
  settled_on os_sep os_altsep dst r.
Proof.
  unfold resolve_collision, settled_on.
  destruct (splitext os_sep os_altsep dst) as [b e]. cbn [fst snd].
  intros H. apply resolve_loop_some in H as [_ [[_ ->] | [_ (k & Hk & -> & _)]]].
  - now left.
  - right. exists k. split; [exact Hk | reflexivity].
Qed.

Lemma rename_row_paths (in_dir : text) (fs fs' : gmap text file) (w w' : list text)
    (r : row) (p : text) :
  rename_row os_sep os_altsep E permitted in_dir (fs, w) r = Some (fs', w') ->
  p ∈ dom fs' ->
  p ∈ dom fs \/
  (to_rename r = true /\
   settled_on os_sep os_altsep (os_path_join E in_dir (proposed_name r)) p).
Proof.
  unfold rename_row. cbn [fst snd].
  destruct (to_rename r); [|intros [= <- <-]; now left].
  destruct (resolve_collision os_sep os_altsep (dom fs)
              (os_path_join E in_dir (proposed_name r))) as [dst'|] eqn:Hd; [|discriminate].
  apply resolve_collision_settled in Hd.
  unfold os_replace.
  destruct (fs !! os_path_join E in_dir (original_file r)) as [f|];
    [|intros [= <- <-]; now left].
  destruct (permitted fs _ dst'); [|intros [= <- <-]; now left].
  intros [= <- <-] Hp.
  apply elem_of_dom in Hp as [g Hg].
  destruct (decide (p = dst')) as [-> | Hne]; [right; split; [reflexivity | exact Hd]|].
  left. rewrite lookup_insert_ne in Hg by congruence.
  apply lookup_delete_Some in Hg as [_ Hg]. apply elem_of_dom. eauto.
Qed.

Lemma rename_rows_paths (in_dir : text) (rows : list row) :
  forall (fs fs' : gmap text file) (w w' : list text) (p : text),
    rename_rows os_sep os_altsep E permitted in_dir rows (fs, w) = Some (fs', w') ->
    p ∈ dom fs' ->
    p ∈ dom fs \/
    Exists (fun r => to_rename r = true /\
                     settled_on os_sep os_altsep
                       (os_path_join E in_dir (proposed_name r)) p) rows.
Proof.
  induction rows as [|r rows IH]; intros fs fs' w w' p; cbn [rename_rows].
  - intros [= <- <-] Hp. now left.
  - destruct (rename_row os_sep os_altsep E permitted in_dir (fs, w) r)
      as [[fs1 w1]|] eqn:H1; [|discriminate].
    intros H2 Hp. destruct (IH _ _ _ _ _ H2 Hp) as [Hin | Hex].
    + destruct (rename_row_paths _ _ _ _ _ _ _ H1 Hin) as [Hfs | Hr];
        [now left | right; now apply Exists_cons_hd].
    + right. now apply Exists_cons_tl.
Qed.

End NewPaths.



Section NewPathResults.
Context (os_sep : char) (os_altsep : option char).
Context (E : collaborators).
Context {file : Type}.
Context (permitted : gmap text file -> text -> text -> bool).

(** X23: The rename loop creates no path of its own making: every path of
    the tree afterwards was there before, or is the proposed name of a
    row to rename, joined to the directory, as it is or with a
    disambiguator from 2 on before its extension. *)
Theorem rename_rows_new_paths (in_dir : text) (rows : list row)
    (fs fs' : gmap text file) (warned warned' : list text) (p : text) :
  rename_rows os_sep os_altsep E permitted in_dir rows (fs, warned)
    = Some (fs', warned') ->
  p ∈ dom fs' ->
  p ∈ dom fs \/
  Exists (fun r => to_rename r = true /\
                   settled_on os_sep os_altsep
                     (os_path_join E in_dir (proposed_name r)) p) rows.
Proof. apply rename_rows_paths. Qed.

End NewPathResults.

(** The theorem at work on the path that a rename creates. *)
Lemma rename_rows_new_paths_witness :
  str "in/2025-09-12 ACME 7.pdf" ∈
    dom ({[ str "in/a.pdf" := 1%nat; str "in/b.pdf" := 2%nat ]} : gmap text nat)
  \/ Exists (fun r => to_rename r = true /\
                      settled_on (chr "/") None
                        (os_path_join plain_collaborators (str "in") (proposed_name r))
                        (str "in/2025-09-12 ACME 7.pdf"))
       [ok_row (str "a.pdf") (str "2025-09-12 ACME 7.pdf")].
Proof.
  apply (rename_rows_new_paths (chr "/") None plain_collaborators (fun _ _ _ => true)
           (str "in") [ok_row (str "a.pdf") (str "2025-09-12 ACME 7.pdf")]
           ({[ str "in/a.pdf" := 1%nat; str "in/b.pdf" := 2%nat ]} : gmap text nat)
           (<[str "in/2025-09-12 ACME 7.pdf" := 1%nat]>
              (delete (str "in/a.pdf")
                 ({[ str "in/a.pdf" := 1%nat; str "in/b.pdf" := 2%nat ]} : gmap text nat)))
           [] []).
  - vm_compute. reflexivity.
  - apply elem_of_dom. exists 1%nat. vm_compute. reflexivity.
Defined.

(** ** A whole run *)

Lemma lstrip_by_keeps p c s : p c = false -> In c s -> In c (lstrip_by p s).
Proof.
  intros Hc Hin. destruct (lstrip_by_infix p s) as (a & Ha & Hall).
  rewrite Ha in Hin. apply List.in_app_or in Hin as [Hin | Hin]; [|exact Hin].
  rewrite Forall_forall in Hall. apply list_elem_of_In, Hall in Hin. congruence.
Qed.

Lemma squeeze_keeps p c s : p c = false -> In c s -> forall b, In c (squeeze p b s).
Proof.
  intros Hc. induction s as [|x s IH]; intros Hin b; [contradiction|].
  cbn [squeeze]. destruct Hin as [-> | Hin].
  - rewrite Hc. now left.
  - destruct (p x).
    + destruct b; [now apply IH|].
      destruct s as [|d s']; [contradiction|].
      destruct (p d); right; now apply IH.
    + right. now apply IH.
Qed.

Lemma flat_map_keeps (f : char -> text) c s : f c = [c] -> In c s -> In c (flat_map f s).
Proof.
  intros Hf Hin. apply List.in_flat_map. exists c. split; [exact Hin|].
  rewrite Hf. now left.
Qed.

Lemma replace_char_keeps old new c s :
  c <> old -> In c s -> In c (replace_char old new s).
Proof.
  intros Hne. apply flat_map_keeps. now destruct (N.eqb_spec c old).
Qed.

Section KeptCharacters.
Context (U : tables).

(** Sanitizing a text that ends in [.pdf]: the ending stays, and so
    does every hyphen before it. *)
Lemma sanitize_filename_pdf y :
  In 45 y ->
  exists z, sanitize_filename U (y ++ str ".pdf") = z ++ str ".pdf" /\ In 45 z.
Proof.
  intros Hy. rewrite sanitize_filename_steps.
  rewrite !replace_char_app, flat_map_app.
  change (replace_char 47 (str "-") (str ".pdf")) with (str ".pdf").
  change (replace_char 92 (str "-") (str ".pdf")) with (str ".pdf").
  change (flat_map _ (str ".pdf")) with (str ".pdf").
  rewrite squeeze_ending by (discriminate || (repeat constructor)).
  unfold strip, strip_by.
  rewrite lstrip_by_ending by (discriminate || reflexivity).
  rewrite rstrip_by_fixed by (apply last_free_app; [discriminate | reflexivity]).
  eexists. split; [reflexivity|].
  apply lstrip_by_keeps; [reflexivity|].
  apply squeeze_keeps; [reflexivity|].
  apply flat_map_keeps; [reflexivity|].
  apply replace_char_keeps; [discriminate|].
  apply replace_char_keeps; [discriminate | exact Hy].
Qed.

Lemma unidecode_keeps c s : is_ascii c = true -> In c s -> In c (unidecode U s).
Proof. intros Hc. apply flat_map_keeps. now rewrite Hc. Qed.

Lemma build_new_name_hyphen date_str supplier invno :
  In 45 (or_else date_str NO_DATE) ->
  exists z, build_new_name U date_str supplier invno = z ++ str ".pdf" /\ In 45 z.
Proof.
  intros Hd. unfold build_new_name. rewrite unidecode_app.
  change (unidecode U (str ".pdf")) with (str ".pdf").
  apply sanitize_filename_pdf, unidecode_keeps; [reflexivity|].
  cbn [join]. apply List.in_or_app. now left.
Qed.

Lemma isoformat_hyphen y m d : In 45 (isoformat U y m d).
Proof. unfold isoformat. apply List.in_or_app. right. now left. Qed.

Context (dparser_parse : datetime -> text -> option datetime).
Context (today : datetime).
Context (E : collaborators).

(** The name proposed in a row with status [OK] is a name with a hyphen
    in it, followed by [.pdf]. *)
Lemma row_for_name in_dir f :
  status (row_for U dparser_parse today E in_dir f) = STATUS_OK ->
  exists z, proposed_name (row_for U dparser_parse today E in_dir f) = z ++ str ".pdf"
            /\ In 45 z.
Proof.
  unfold row_for, process_pdf, mbind, result_bind.
  destruct (render_first_page_as_image E (os_path_join E in_dir f)) as [[img|]|];
    [| discriminate | discriminate].
  destruct (preprocess E img) as [pre|]; [|discriminate].
  cbn [status proposed_name text_eqb STATUS_OK str]. intros _.
  change (text_eqb (str "OK") (str "OK")) with true. cbv iota.
  apply build_new_name_hyphen.
  set (t := if Nat.eqb (length (strip U (ocr_image E pre))) 0
            then ocr_image E img else ocr_image E pre).
  destruct (extract_date U dparser_parse today t) as [[|c r]|] eqn:Hd;
    cbn [or_else]; try (unfold NO_DATE; simpl; tauto).
  apply extract_date_datetime in Hd as [s Hs].
  apply normalize_date_datetime in Hs as [dt ->].
  apply isoformat_hyphen.
Qed.

End KeptCharacters.



Section RunResults.
Context (U : tables).
Context (dparser_parse : datetime -> text -> option datetime).
Context (today : datetime).
Context (os_sep : char) (os_altsep : option char).
Context (E : collaborators).
Context {file : Type}.
Context (permitted : gmap text file -> text -> text -> bool).

(** X24: On a platform whose path separators are the slash and the
    backslash, and whose [os.path.join] ends its result with the name it
    is given last, every path that renaming the rows of a batch creates
    ends in [.pdf]. *)
Theorem batch_renames_end_in_pdf (in_dir : text) (pdfs : list text)
    (fs fs' : gmap text file) (warned warned' : list text) (p : text) :
  In os_sep FS_RESERVED ->
  match os_altsep with Some a => In a FS_RESERVED | None => True end ->
  (forall d f, exists d', os_path_join E d f = d' ++ f) ->
  rename_rows os_sep os_altsep E permitted in_dir
    (main_loop U dparser_parse today E in_dir pdfs []) (fs, warned)
    = Some (fs', warned') ->
  p ∈ dom fs' ->
  p ∈ dom fs \/ endswith p (str ".pdf") = true.
Proof.
  intros Hsep Halt Hjoin Hr Hp.
  destruct (rename_rows_paths os_sep os_altsep E permitted in_dir _ _ _ _ _ _ Hr Hp)
    as [Hin | Hex]; [now left | right].
  apply Exists_exists in Hex as (r & Hrow & Hto & Hset).
  rewrite main_loop_rows in Hrow. simpl in Hrow.
  change (map ?g ?l) with (g <$> l) in Hrow.
  apply list_elem_of_fmap in Hrow as (f & -> & _).
  assert (Hok : status (row_for U dparser_parse today E in_dir f) = STATUS_OK).
  { unfold to_rename in Hto. apply andb_true_iff in Hto as [Hto _].
    destruct (row_for_proposed U dparser_parse today E in_dir f) as [[H _] | [H Hn]];
      [exact H|].
    rewrite Hn in *. unfold to_rename in *.
    destruct (row_for_status U dparser_parse today E in_dir f) as [H' | [H' | (msg & _ & H')]];
      [contradiction | rewrite H' in Hto; discriminate | rewrite H' in Hto; discriminate]. }
  destruct (row_for_name U dparser_parse today E in_dir f Hok) as (z & Hz & Hh).
  pose proof (sanitize_filename_unreserved U) as Hun.
  assert (Hres : Forall (fun c => ~ In c FS_RESERVED) (z ++ str ".pdf")).
  { rewrite <- Hz.
    destruct (row_for_proposed U dparser_parse today E in_dir f)
      as [(_ & d & s & i & ->) | [Hne _]]; [|contradiction].
    unfold build_new_name. apply Hun. }
  destruct (Hjoin in_dir (proposed_name (row_for U dparser_parse today E in_dir f)))
    as [d' Hd']. rewrite Hd', Hz in Hset.
  assert (Hsplit : splitext os_sep os_altsep (d' ++ z ++ str ".pdf")
                   = (d' ++ z, str ".pdf")).
  { apply (splitext_name os_sep os_altsep d' z (str "pdf")).
    - eapply Forall_impl; [exact Hres|]. intros c Hc. split.
      + intros ->. contradiction.
      + intros Heq. destruct os_altsep as [a|]; [|discriminate].
        injection Heq as ->. contradiction.
    - repeat constructor; discriminate.
    - apply Exists_exists. exists 45. split; [now apply list_elem_of_In | discriminate]. }
  destruct Hset as [-> | (k & _ & ->)].
  - rewrite app_assoc. apply endswith_app.
  - rewrite Hsplit. cbn [fst snd]. unfold variant.
    rewrite !app_assoc. apply endswith_app.
Qed.

End RunResults.

(** The theorem at work on a batch of one document where nothing is
    read. *)
Lemma batch_renames_end_in_pdf_witness :
  str "in/0000-00-00 Neznamy-dodavatel Bez-cisla.pdf"
    ∈ dom ({[ str "in/scan.pdf" := 1%nat ]} : gmap text nat)
  \/ endswith (str "in/0000-00-00 Neznamy-dodavatel Bez-cisla.pdf") (str ".pdf") = true.
Proof.
  apply (batch_renames_end_in_pdf ascii_only (fun _ _ => None) day_2026_11_03
           (chr "/") None plain_collaborators (fun _ _ _ => true)
           (str "in") [str "scan.pdf"]
           ({[ str "in/scan.pdf" := 1%nat ]} : gmap text nat)
           (<[str "in/0000-00-00 Neznamy-dodavatel Bez-cisla.pdf" := 1%nat]>
              (delete (str "in/scan.pdf")
                 ({[ str "in/scan.pdf" := 1%nat ]} : gmap text nat)))
           [] []).
  - vm_compute. tauto.
  - exact I.
  - intros d f. exists (d ++ str "/"). simpl. now rewrite <- app_assoc.
  - vm_compute. reflexivity.
  - apply elem_of_dom. exists 1%nat. vm_compute. reflexivity.
Defined.

(** * Company names, cleaned twice

    The amended form of C7.  It rests on what a match covers and on the
    scan of [squeeze], hence its place here. *)

(** ** Texts inside texts *)






(** ** Squeezing, seen from the result *)

Section SqueezeBack.
Context (p : char -> bool).
Hypothesis p_space : p 32 = true.







Lemma squeeze_keeps_head q s :
  (forall c, p c = true -> q c = true) -> head_free q s -> head_free q (squeeze p false s).
Proof.
  intros Hpq. destruct s as [|c t]; [auto|]. simpl. intros Hc.
  destruct (p c) eqn:E; [apply Hpq in E; congruence | exact Hc].
Qed.

End SqueezeBack.

(** ** The substitutions of [clean_company_name] *)


Section Substitutions.
Context (U : tables).












End Substitutions.

(** ** Plain names *)

Section PlainNames.
Context (U : tables).












End PlainNames.




(** Outside the plain names a second cleaning can change the name again:
    a tab before the last dot is white space that only the second
    cleaning strips, a phone number in front exposes a bracket, and a cut
    at 60 characters can end on a dot. *)
Lemma clean_company_name_beyond_plain :
  clean_company_name ascii_only (str "ACME" ++ [9; 46]) = str "ACME" ++ [9]
  /\ clean_company_name ascii_only (str "ACME" ++ [9]) = str "ACME"
  /\ clean_company_name ascii_only (str "+420 123 456 789 (ACME)") = str "(ACME)"
  /\ length (clean_company_name ascii_only (repeat 97 59 ++ str ".bcd")) = 60%nat
  /\ length (clean_company_name ascii_only
               (clean_company_name ascii_only (repeat 97 59 ++ str ".bcd"))) = 59%nat.
Proof. repeat split; vm_compute; reflexivity. Qed.
